(** * Oppia: editor controllers and statistics services

    A shallow embedding of [oppia/domain/stats_services.py] and
    [oppia/controllers/editor.py], and the properties of the statistics
    reports and of the editor request handlers that follow from the code.

    Conventions of the embedding.
    - Python integers are [Z]; JSON payload values are [pyval]; a dict with
      string keys is a [gmap string _]; a Python list is a [list].
    - A computation that can raise is a [Result]; a request handler that
      mutates a datastore entity before it may raise is a [Py S] computation
      (state passing, with the state kept when an exception is raised, as the
      mutated Python object is).
    - The datastore layer, the widget and rule registries and [feconf] are
      external to the two modules: they are the [Variable]s of the sections
      below. *)

From stdpp Require Import gmap strings list fin_maps sorting.
From Stdlib Require Import ZArith QArith Lia.

Close Scope Q_scope.

Set Warnings "-register-all".

(** ** Python values *)

(** Values decoded from a JSON payload.  Numbers are integers. *)
Inductive pyval : Type :=
| PNone
| PBool (b : bool)
| PInt (z : Z)
| PStr (s : string)
| PList (l : list pyval)
| PDict (d : gmap string pyval).

(** Python truthiness: [if v:]. *)
Definition truthy (v : pyval) : bool :=
  match v with
  | PNone => false
  | PBool b => b
  | PInt z => negb (z =? 0)%Z
  | PStr s => negb (String.eqb s EmptyString)
  | PList l => match l with [] => false | _ :: _ => true end
  | PDict d => negb (bool_decide (d = ∅))
  end.

(** [v == s] for a string literal or string constant [s]. *)
Definition py_eq_str (v : pyval) (s : string) : bool :=
  match v with
  | PStr s' => String.eqb s' s
  | _ => false
  end.

(** [v is None]. *)
Definition is_None (v : pyval) : bool :=
  match v with
  | PNone => true
  | _ => false
  end.

(** [d.get(key)]: the value, or [None] when the key is absent. *)
Definition dict_get (d : gmap string pyval) (key : string) : pyval :=
  default PNone (d !! key).

(** [sub in s] on strings. *)
Fixpoint str_contains (sub s : string) : bool :=
  String.prefix sub s ||
  match s with
  | EmptyString => false
  | String _ s' => str_contains sub s'
  end.

(** ** Exceptions and results *)

Inductive exn : Type :=
| ValueError (msg : string)
| KeyError (key : string)
| IndexError
| TypeError
| InvalidInputException (msg : string)
| UnauthorizedUserException (msg : string).

Inductive Result (A : Type) : Type :=
| Ok (a : A)
| Raise (e : exn).
Arguments Ok {A} a.
Arguments Raise {A} e.

#[global] Instance Result_ret : MRet Result := @Ok.
#[global] Instance Result_bind : MBind Result := λ A B f m,
  match m with
  | Ok a => f a
  | Raise e => Raise e
  end.

(** [for x in l: s = body(x, s)], stopping at the first exception. *)
Fixpoint for_list {A S : Type} (l : list A) (body : A → S → Result S) (s : S)
  : Result S :=
  match l with
  | [] => Ok s
  | x :: l' => s' ← body x s; for_list l' body s'
  end.

(** [for k in d: s = body(k, d[k], s)] over a dict, in the dict's own order. *)
Definition for_dict {A S : Type} (d : gmap string A)
    (body : string → A → S → Result S) (s : S) : Result S :=
  for_list (map_to_list d) (λ kv, body kv.1 kv.2) s.

(** Computations over a mutable object of type [S] that may raise; the object
    keeps the mutations made before the exception. *)
Definition Py (S A : Type) : Type := S → S * Result A.

#[global] Instance Py_ret {S} : MRet (Py S) := λ A a s, (s, Ok a).
#[global] Instance Py_bind {S} : MBind (Py S) := λ A B f m s,
  match m s with
  | (s', Ok a) => f a s'
  | (s', Raise e) => (s', Raise e)
  end.

Definition raise {S A : Type} (e : exn) : Py S A := λ s, (s, Raise e).
Definition modify {S : Type} (f : S → S) : Py S unit := λ s, (f s, Ok tt).
Definition lift {S A : Type} (r : Result A) : Py S A := λ s, (s, r).

(** [for x in l: body(x)] on a mutable object. *)
Fixpoint for_each {A S : Type} (l : list A) (body : A → Py S unit) : Py S unit :=
  match l with
  | [] => mret tt
  | x :: l' => body x;; for_each l' body
  end.

(** [if c: body]. *)
Definition when {S : Type} (c : bool) (body : Py S unit) : Py S unit :=
  if c then body else mret tt.

(** ** The builtin [sorted(l, key=key, reverse=True)]

    Python's sort is stable, also with [reverse=True]: elements with equal
    keys keep their order.  Insertion in front of the first element whose
    key is not larger gives exactly that list. *)
Fixpoint insert_desc {A : Type} (key : A → Z) (x : A) (l : list A) : list A :=
  match l with
  | [] => [x]
  | y :: l' =>
      if (key x <? key y)%Z then y :: insert_desc key x l' else x :: y :: l'
  end.

Definition sorted_reverse {A : Type} (key : A → Z) (l : list A) : list A :=
  foldr (insert_desc key) [] l.

(** ** Domain objects (attributes read or written by the two modules) *)

(** [state_models.RuleSpec(name=, inputs=, dest=, feedback=)]; [inputs] is
    [None] or a dict from parameter names to values. *)
Record RuleSpec : Type := mkRuleSpec {
  rs_name : pyval;
  rs_inputs : option (gmap string pyval);
  rs_dest : pyval;
  rs_feedback : pyval
}.

(** [state_models.AnswerHandlerInstance(name=, rule_specs=)]. *)
Record AnswerHandlerInstance : Type := mkHandler {
  handler_name : string;
  rule_specs : list RuleSpec
}.

Record WidgetInstance : Type := mkWidget {
  widget_id : pyval;
  widget_params : pyval;
  widget_sticky : pyval;
  handlers : list AnswerHandlerInstance
}.

Record State : Type := mkState {
  state_id : string;
  state_name : string;
  state_widget : WidgetInstance
}.

(** [param_models.Parameter(name=, obj_type=, description=, values=)]. *)
Record ExplorationParameter : Type := mkParameter {
  param_name : pyval;
  param_obj_type : pyval;
  param_description : pyval;
  param_values : pyval
}.

Record Exploration : Type := mkExploration {
  exp_id : string;
  exp_title : pyval;
  exp_category : pyval;
  is_public : bool;
  image_id : pyval;
  editor_ids : list string;
  parameters : list ExplorationParameter;
  init_state_id : string;
  state_ids : list string
}.

(** [stats_domain.StateCounter]. *)
Record StateCounter : Type := mkStateCounter {
  first_entry_count : Z;
  total_entry_count : Z;
  no_answer_count : Z
}.

(** [stats_domain.StateRuleAnswerLog]: [get_top_answers(n)] is a list of
    (answer, count) pairs. *)
Record StateRuleAnswerLog : Type := mkAnswerLog {
  total_answer_count : Z;
  get_top_answers : Z → list (string * Z)
}.

(** * oppia/domain/stats_services.py *)

(** What the module imports from [exp_domain], [stats_domain] and
    [state_models]: datastore reads, [feconf.END_DEST], the default rule's
    string form, the [default_rule_spec] property and [str(rule)]. *)
Class StatsDomain : Type := {
  DEFAULT_RULESPEC_STR : string;
  END_DEST : string;
  Exploration_get : string → Exploration;
  get_state_by_id : Exploration → string → State;
  StateCounter_get : string → string → StateCounter;
  StateRuleAnswerLog_get : string → string → string → StateRuleAnswerLog;
  default_rule_spec : AnswerHandlerInstance → RuleSpec;
  rule_str : RuleSpec → string
}.

Definition IMPROVE_TYPE_DEFAULT : string := "default".
Definition IMPROVE_TYPE_INCOMPLETE : string := "incomplete".

(** An entry of [eligible_flags]. *)
Record Flag : Type := mkFlag {
  flag_rank : Z;
  improve_type : string
}.

(** An entry of [ranked_states]. *)
Record RankedState : Type := mkRankedState {
  r_exp_id : string;
  r_exp_name : pyval;
  r_state_id : string;
  r_state_name : string;
  rank : Z;
  r_type : string;
  top_default_answers : list (string * Z)
}.

(** [count > 0.2 * total].  Python compares the integer [count] with the
    double nearest to [0.2 * total]; for counts below 2^53 that double lies
    strictly between the same two integers as [total / 5] (and equals it
    when 5 divides [total]), so the test is [total < 5 * count]. *)
Definition exceeds_20_percent (count total : Z) : bool :=
  (total <? 5 * count)%Z.

(** [state.widget.handlers[0]]. *)
Definition first_handler (state : State) : Result AnswerHandlerInstance :=
  match handlers (state_widget state) with
  | [] => Raise IndexError
  | handler :: _ => Ok handler
  end.

Section stats_services.
Context `{StatsDomain}.

(** Lines 154-167: the flags a state is eligible for.  The [and] of line 157
    reads [handlers[0]] only when the count test holds. *)
Definition eligible_flags (default_count no_answer_submitted_count
    total_entry_count : Z) (state : State) : Result (list Flag) :=
  default_flag ←
    (if exceeds_20_percent default_count total_entry_count then
       handler ← first_handler state;
       if py_eq_str (rs_dest (default_rule_spec handler)) (state_id state)
       then Ok [mkFlag default_count IMPROVE_TYPE_DEFAULT]
       else Ok []
     else Ok []);
  Ok (default_flag ++
      if exceeds_20_percent no_answer_submitted_count total_entry_count
      then [mkFlag no_answer_submitted_count IMPROVE_TYPE_INCOMPLETE]
      else []).

(** Lines 169-175: rank and type of the first flag in decreasing rank. *)
Definition top_flag (flags : list Flag) : Z * string :=
  match flags with
  | [] => (0%Z, EmptyString)
  | _ :: _ =>
      match sorted_reverse flag_rank flags with
      | flag :: _ => (flag_rank flag, improve_type flag)
      | [] => (0%Z, EmptyString)
      end
  end.

(** Lines 142-167 for one state: [None] when the state is skipped by the
    [continue] of line 149, the eligible flags otherwise. *)
Definition flags_of_state (exploration_id : string) (exploration : Exploration)
    (sid : string) : Result (option (list Flag)) :=
  let state_counts := StateCounter_get exploration_id sid in
  let default_rule_answer_log :=
    StateRuleAnswerLog_get (exp_id exploration) sid DEFAULT_RULESPEC_STR in
  let total_entry_count := total_entry_count state_counts in
  if (total_entry_count =? 0)%Z then Ok None
  else
    let default_count := total_answer_count default_rule_answer_log in
    let no_answer_submitted_count := no_answer_count state_counts in
    let state := get_state_by_id exploration sid in
    flags ← eligible_flags default_count no_answer_submitted_count
               total_entry_count state;
    Ok (Some flags).

(** The body of the inner loop (lines 142-186): the entry appended to
    [ranked_states], if any. *)
Definition rank_state (exploration_id : string) (exploration : Exploration)
    (sid : string) : Result (option RankedState) :=
  flags ← flags_of_state exploration_id exploration sid;
  match flags with
  | None => Ok None
  | Some eligible =>
      let default_rule_answer_log :=
        StateRuleAnswerLog_get (exp_id exploration) sid DEFAULT_RULESPEC_STR in
      let state := get_state_by_id exploration sid in
      let '(state_rank, improve_type) := top_flag eligible in
      Ok (Some {|
        r_exp_id := exploration_id;
        r_exp_name := exp_title exploration;
        r_state_id := sid;
        r_state_name := state_name state;
        rank := state_rank;
        r_type := improve_type;
        top_default_answers := get_top_answers default_rule_answer_log 5
      |})
  end.

(** The two nested loops of lines 139-186. *)
Definition rank_states (exploration_ids : list string)
  : Result (list RankedState) :=
  for_list exploration_ids (λ exploration_id ranked_states,
    let exploration := Exploration_get exploration_id in
    for_list (state_ids exploration) (λ sid ranked_states,
      entry ← rank_state exploration_id exploration sid;
      match entry with
      | None => Ok ranked_states
      | Some e => Ok (ranked_states ++ [e])
      end) ranked_states) [].

(** [get_top_improvable_states(exploration_ids, N)] for a natural number [N]. *)
Definition get_top_improvable_states (exploration_ids : list string) (N : nat)
  : Result (list RankedState) :=
  ranked_states ← rank_states exploration_ids;
  let problem_states :=
    sorted_reverse rank
      (filter (λ state, rank state ≠ 0%Z) ranked_states) in
  Ok (take N problem_states).

End stats_services.

(** ** [export_exploration_stats_to_dict] *)

(** [answers[state.id]]: the state's name and, per rule string, the top
    answers of that rule. *)
Record StateAnswers : Type := mkStateAnswers {
  sa_name : string;
  sa_rules : gmap string (list (string * Z))
}.

(** [rule_stats[rule]]: the rule's answers and the two numbers of the second
    row of its ['chartData']. *)
Record RuleStats : Type := mkRuleStats {
  rule_answers : list (string * Z);
  chartData : Z * Z
}.

(** [state_stats[state_id]]; ['no_answer_chartdata'] is kept as the two
    numbers of its second row. *)
Record StateStats : Type := mkStateStats {
  ss_name : string;
  ss_count : Z;
  rule_stats : gmap string RuleStats;
  no_answer_chartdata : Z * Z
}.

(** The returned dict. *)
Record ExplorationStats : Type := mkExplorationStats {
  num_visits : Z;
  num_completions : Z;
  state_stats : gmap string StateStats
}.

(** [state_counts[key]], raising [KeyError] for an absent key. *)
Definition dict_item {A : Type} (d : gmap string A) (key : string) : Result A :=
  match d !! key with
  | Some v => Ok v
  | None => Raise (KeyError key)
  end.

Section export_stats.
Context `{StatsDomain}.

(** Lines 81-88: the ['rules'] dict of one state. *)
Definition rules_of_state (exploration_id : string) (state : State)
  : gmap string (list (string * Z)) :=
  foldl (λ rules handler,
    foldl (λ rules rule,
      let answer_log :=
        StateRuleAnswerLog_get exploration_id (state_id state) (rule_str rule) in
      <[rule_str rule := get_top_answers answer_log 10]> rules)
      rules (rule_specs handler))
    ∅ (handlers (state_widget state)).

(** Lines 73-88. *)
Definition collect_answers (exploration_id : string) (exploration : Exploration)
  : gmap string StateAnswers :=
  foldl (λ answers sid,
    let state := get_state_by_id exploration sid in
    <[state_id state :=
        mkStateAnswers (state_name state) (rules_of_state exploration_id state)]>
      answers)
    ∅ (state_ids exploration).

(** Lines 90-98: name and count per state id. *)
Definition collect_state_counts (exploration_id : string)
    (exploration : Exploration) : gmap string (string * Z) :=
  foldl (λ state_counts sid,
    let state := get_state_by_id exploration sid in
    <[sid := (state_name state,
              total_entry_count (StateCounter_get exploration_id sid))]>
      state_counts)
    ∅ (state_ids exploration).

(** Lines 108-111: [rule_count] and [all_rule_count] after the answers of one
    rule. *)
Definition count_answers (answers : list (string * Z)) (all_rule_count : Z)
  : Z * Z :=
  foldl (λ '(rule_count, all_rule_count) '(_, count),
    ((rule_count + count)%Z, (all_rule_count + count)%Z))
    (0%Z, all_rule_count) answers.

(** Lines 105-116: [rule_stats] and [all_rule_count] of one state.  The dict
    stored in [rule_stats[rule]] is the one of [answers], extended in place
    with ['chartData']; each rule is visited once. *)
Definition rule_stats_of (rules : gmap string (list (string * Z)))
    (state_count : Z) : gmap string RuleStats * Z :=
  foldl (λ '(rule_stats, all_rule_count) '(rule, answers),
    let '(rule_count, all_rule_count) :=
      count_answers answers all_rule_count in
    (<[rule := mkRuleStats answers (rule_count, (state_count - rule_count)%Z)]>
       rule_stats,
     all_rule_count))
    (∅, 0%Z) (map_to_list rules).

(** Lines 102-126: the value stored in [state_stats[state_id]]. *)
Definition state_stats_entry (state_counts : gmap string (string * Z))
    (sid : string) (entry : StateAnswers) : Result StateStats :=
  counts ← dict_item state_counts sid;
  let state_count := counts.2 in
  let '(rule_stats, all_rule_count) :=
    rule_stats_of (sa_rules entry) state_count in
  Ok {|
    ss_name := sa_name entry;
    ss_count := state_count;
    rule_stats := rule_stats;
    no_answer_chartdata := ((state_count - all_rule_count)%Z, all_rule_count)
  |}.

(** Lines 100-126: the loop over the keys of [answers]. *)
Definition collect_state_stats (answers : gmap string StateAnswers)
    (state_counts : gmap string (string * Z))
  : Result (gmap string StateStats) :=
  for_dict answers (λ sid entry state_stats,
    stats ← state_stats_entry state_counts sid entry;
    Ok (<[sid := stats]> state_stats)) ∅.

Definition export_exploration_stats_to_dict (exploration_id : string)
  : Result ExplorationStats :=
  let exploration := Exploration_get exploration_id in
  let num_visits :=
    first_entry_count
      (StateCounter_get exploration_id (init_state_id exploration)) in
  let num_completions :=
    first_entry_count (StateCounter_get exploration_id END_DEST) in
  let answers := collect_answers exploration_id exploration in
  let state_counts := collect_state_counts exploration_id exploration in
  state_stats ← collect_state_stats answers state_counts;
  Ok {|
    num_visits := num_visits;
    num_completions := num_completions;
    state_stats := state_stats
  |}.

End export_stats.

(** * oppia/controllers/editor.py *)

(** ** Python operations on payload values *)

(** The one-character strings of [s], as iterating a string yields them. *)
Fixpoint str_chars (s : string) : list pyval :=
  match s with
  | EmptyString => []
  | String c s' => PStr (String c EmptyString) :: str_chars s'
  end.

(** [for x in v]: the elements of a list, the characters of a string, the
    keys of a dict; anything else is not iterable. *)
Definition py_iter (v : pyval) : Result (list pyval) :=
  match v with
  | PList l => Ok l
  | PStr s => Ok (str_chars s)
  | PDict d => Ok (PStr <$> (map_to_list d).*1)
  | PNone | PBool _ | PInt _ => Raise TypeError
  end.

(** [v[key]] for a string key: only a dict can be indexed by a string. *)
Definition py_getitem (v : pyval) (key : string) : Result pyval :=
  match v with
  | PDict d => dict_item d key
  | _ => Raise TypeError
  end.

(** [[f(x) for x in l]]. *)
Fixpoint comprehension {A B : Type} (f : A → Result B) (l : list A)
  : Result (list B) :=
  match l with
  | [] => Ok []
  | x :: l' => y ← f x; ys ← comprehension f l'; Ok (y :: ys)
  end.

(** ** Entities and the datastore *)

(** An entity handed to a handler: the Python object the handler mutates,
    the copy held by the datastore, and the number of [put()] calls made. *)
Record Stored (A : Type) : Type := mkStored {
  entity : A;
  persisted : A;
  put_calls : nat
}.
Arguments mkStored {A} _ _ _.
Arguments entity {A} _.
Arguments persisted {A} _.
Arguments put_calls {A} _.

(** The entity as the [require_editor] decorator loads it. *)
Definition load {A : Type} (a : A) : Stored A := mkStored a a 0.

(** An attribute assignment on the entity. *)
Definition update {A : Type} (f : A → A) : Py (Stored A) unit :=
  modify (λ w, mkStored (f (entity w)) (persisted w) (put_calls w)).

(** The entity as the handler sees it. *)
Definition self_entity {A : Type} : Py (Stored A) A :=
  λ w, (w, Ok (entity w)).

(** [entity.put()]. *)
Definition put {A : Type} : Py (Stored A) unit :=
  modify (λ w, mkStored (entity w) (entity w) (S (put_calls w))).

(** A call of a service that returns a value and acts on the datastore. *)
Definition call {S A : Type} (f : S → A * S) : Py S A :=
  λ s, let '(a, s') := f s in (s', Ok a).

Definition set_is_public (b : bool) (e : Exploration) : Exploration :=
  mkExploration (exp_id e) (exp_title e) (exp_category e) b (image_id e)
    (editor_ids e) (parameters e) (init_state_id e) (state_ids e).
Definition set_category (v : pyval) (e : Exploration) : Exploration :=
  mkExploration (exp_id e) (exp_title e) v (is_public e) (image_id e)
    (editor_ids e) (parameters e) (init_state_id e) (state_ids e).
Definition set_title (v : pyval) (e : Exploration) : Exploration :=
  mkExploration (exp_id e) v (exp_category e) (is_public e) (image_id e)
    (editor_ids e) (parameters e) (init_state_id e) (state_ids e).
Definition set_image_id (v : pyval) (e : Exploration) : Exploration :=
  mkExploration (exp_id e) (exp_title e) (exp_category e) (is_public e) v
    (editor_ids e) (parameters e) (init_state_id e) (state_ids e).
Definition set_editor_ids (l : list string) (e : Exploration) : Exploration :=
  mkExploration (exp_id e) (exp_title e) (exp_category e) (is_public e)
    (image_id e) l (parameters e) (init_state_id e) (state_ids e).
Definition set_parameters (l : list ExplorationParameter) (e : Exploration)
  : Exploration :=
  mkExploration (exp_id e) (exp_title e) (exp_category e) (is_public e)
    (image_id e) (editor_ids e) l (init_state_id e) (state_ids e).

Definition set_widget (w : WidgetInstance) (s : State) : State :=
  mkState (state_id s) (state_name s) w.
Definition set_widget_id (v : pyval) (s : State) : State :=
  let w := state_widget s in
  set_widget (mkWidget v (widget_params w) (widget_sticky w) (handlers w)) s.
Definition set_widget_params (v : pyval) (s : State) : State :=
  let w := state_widget s in
  set_widget (mkWidget (widget_id w) v (widget_sticky w) (handlers w)) s.
Definition set_widget_sticky (v : pyval) (s : State) : State :=
  let w := state_widget s in
  set_widget (mkWidget (widget_id w) (widget_params w) v (handlers w)) s.
Definition set_handlers (l : list AnswerHandlerInstance) (s : State) : State :=
  let w := state_widget s in
  set_widget (mkWidget (widget_id w) (widget_params w) (widget_sticky w) l) s.

(** ** Payloads of [StateHandler.put] *)

(** A rule of [interactive_rulesets['submit']], a JSON object: [None] in an
    option field stands for an absent key ([inputs]: absent or null);
    [rule_dest] and [rule_feedback] are [rule.get('dest')] and
    [rule.get('feedback')]. *)
Record Rule : Type := mkRule {
  rule_description : option pyval;
  rule_name : option pyval;
  rule_inputs : option (gmap string pyval);
  rule_dest : pyval;
  rule_feedback : pyval
}.

(** [rule[key]] for a rule field. *)
Definition rule_item (key : string) (field : option pyval) : Result pyval :=
  match field with
  | Some v => Ok v
  | None => Raise (KeyError key)
  end.

(** The part of the payload of [StateHandler.put] that concerns the widget;
    [interactive_rulesets] is [None] (absent or null) or a dict of rulesets. *)
Record StateUpdate : Type := mkStateUpdate {
  interactive_widget : pyval;
  interactive_params : pyval;
  sticky_interactive_widget : pyval;
  interactive_rulesets : option (gmap string (list Rule))
}.

(** ** External collaborators of the controllers *)

(** [feconf] constants, [exp_services], [Exploration.add_editor] (its effect
    on [editor_ids]), the widget registry, [rule_domain], the object types'
    [normalize] and the text of the wrong-type message, and
    [utils.recursively_remove_key]. *)
Class EditorDeps : Type := {
  ALLOW_YAML_FILE_UPLOAD : bool;
  DEFAULT_RULE_NAME : string;
  Datastore : Type;
  create_from_yaml : string → string → pyval → pyval → Datastore → string * Datastore;
  create_new : string → pyval → pyval → Datastore → string * Datastore;
  add_editor : list string → pyval → list string;
  Widget : Type;
  WidgetRule : Type;
  ObjType : Type;
  get_widget_by_id : string → pyval → Widget;
  get_rule_by_name : Widget → string → pyval → WidgetRule;
  get_obj_type_for_param_name : WidgetRule → string → ObjType;
  normalize : ObjType → pyval → pyval;
  wrong_type_message : pyval → ObjType → string;
  recursively_remove_key : list Rule → string → list Rule
}.

(** The exceptions the handlers raise. *)
Definition no_title : exn := InvalidInputException "No title supplied.".
Definition no_category : exn := InvalidInputException "No category chosen.".
Definition unauthorized : exn :=
  UnauthorizedUserException
    "Only the exploration owner can add new collaborators.".
Definition invalid_ruleset : exn :=
  ValueError "Invalid ruleset: the last rule should be a default rule.".

Section editor.
Context `{EditorDeps}.

(** ** [NewExploration.post] *)

(** Lines 48-53: the creation call, which returns the new exploration's id. *)
Definition create_exploration (user_id : string) (title category : pyval)
    (yaml_content : string) (db : Datastore) : string * Datastore :=
  if negb (String.eqb yaml_content EmptyString) && ALLOW_YAML_FILE_UPLOAD
  then create_from_yaml yaml_content user_id title category db
  else create_new user_id title category db.

(** [user_id] is the logged-in user, [payload] the JSON payload and
    [yaml_content] the request's ['yaml'] field (empty when absent).  The
    result is the dict passed to [render_json]. *)
Definition NewExploration_post (user_id : string) (payload : gmap string pyval)
    (yaml_content : string) : Py Datastore (gmap string pyval) :=
  let title := dict_get payload "title" in
  let category := dict_get payload "category" in
  when (negb (truthy title)) (raise no_title);;
  when (negb (truthy category)) (raise no_category);;
  exploration_id ←
    call (create_exploration user_id title category yaml_content);
  mret {[ "explorationId" := PStr exploration_id ]}.

(** ** [ExplorationHandler.put] *)

(** [exploration.editor_ids and self.user_id == exploration.editor_ids[0]]. *)
Definition is_owner (user_id : string) (exploration : Exploration) : bool :=
  match editor_ids exploration with
  | [] => false
  | owner :: _ => String.eqb user_id owner
  end.

(** Lines 165-170: one [Parameter] per item of the payload. *)
Definition parameter_of_item (item : pyval) : Result ExplorationParameter :=
  name ← py_getitem item "name";
  obj_type ← py_getitem item "obj_type";
  description ← py_getitem item "description";
  values ← py_getitem item "values";
  Ok (mkParameter name obj_type description values).

(** Lines 147-154: the properties assigned from the payload. *)
Definition assign_properties (payload : gmap string pyval)
  : Py (Stored Exploration) unit :=
  let is_public := dict_get payload "is_public" in
  let category := dict_get payload "category" in
  let title := dict_get payload "title" in
  let image_id := dict_get payload "image_id" in
  when (truthy is_public) (update (set_is_public true));;
  when (truthy category) (update (set_category category));;
  when (truthy title) (update (set_title title));;
  when (bool_decide (is_Some (payload !! "image_id")))
    (update (set_image_id
               (if py_eq_str image_id "null" then PNone else image_id))).

(** Lines 155-163. *)
Definition replace_editors (user_id : string) (editors : pyval)
  : Py (Stored Exploration) unit :=
  when (truthy editors)
    (exploration ← self_entity;
     if is_owner user_id exploration then
       update (set_editor_ids []);;
       emails ← lift (py_iter editors);
       for_each emails (λ email,
         update (λ e, set_editor_ids (add_editor (editor_ids e) email) e))
     else raise unauthorized).

(** Lines 164-170. *)
Definition replace_parameters (parameters : pyval)
  : Py (Stored Exploration) unit :=
  when (truthy parameters)
    (items ← lift (py_iter parameters);
     new_parameters ← lift (comprehension parameter_of_item items);
     update (set_parameters new_parameters)).

Definition ExplorationHandler_put (user_id : string)
    (payload : gmap string pyval) : Py (Stored Exploration) unit :=
  let editors := dict_get payload "editors" in
  let parameters := dict_get payload "parameters" in
  assign_properties payload;;
  replace_editors user_id editors;;
  replace_parameters parameters;;
  put.

(** A put request served on the datastore copy [db] of the exploration: the
    copy the datastore holds afterwards. *)
Definition serve_put (db : Exploration) (request : string * gmap string pyval)
  : Exploration :=
  persisted (ExplorationHandler_put request.1 request.2 (load db)).1.

(** A sequence of put requests on the same exploration. *)
Definition serve_puts (db : Exploration)
    (requests : list (string * gmap string pyval)) : Exploration :=
  foldl serve_put db requests.

(** ** [StateHandler.put]: the widget and its rules (lines 225-281, 293) *)

(** [isinstance(value, basestring) and '{{' in value and '}}' in value]. *)
Definition is_template (value : pyval) : bool :=
  match value with
  | PStr s => str_contains "{{" s && str_contains "}}" s
  | _ => false
  end.

(** Lines 264-279 for one parameter: the value to store. *)
Definition normalize_param (matched_rule : WidgetRule) (param_name : string)
    (value : pyval) : Result pyval :=
  let param_type := get_obj_type_for_param_name matched_rule param_name in
  let normalized_param :=
    if negb (is_template value) then normalize param_type value else value in
  if is_None normalized_param then
    Raise (InvalidInputException (wrong_type_message value param_type))
  else Ok normalized_param.

(** Lines 263-279: the loop over the keys of [state_rule.inputs], which
    stores each normalized value back under its key. *)
Definition normalize_inputs (matched_rule : WidgetRule)
    (inputs : gmap string pyval) : Result (gmap string pyval) :=
  for_dict inputs (λ param_name value inputs,
    normalized_param ← normalize_param matched_rule param_name value;
    Ok (<[param_name := normalized_param]> inputs)) inputs.

(** Line 281: [state.widget.handlers[0].rule_specs.append(state_rule)]. *)
Definition append_rule_spec (state_rule : RuleSpec) : Py (Stored State) unit :=
  state ← self_entity;
  match handlers (state_widget state) with
  | [] => raise IndexError
  | handler :: rest =>
      update (set_handlers
        (mkHandler (handler_name handler)
                   (rule_specs handler ++ [state_rule]) :: rest))
  end.

(** Lines 247-279: the rule spec built from the rule at index [rule_ind] of a
    ruleset of [ruleset_len] rules, checked if the rule is described as the
    default rule and with normalized inputs otherwise.  The [or] of line 254
    reads [rule['name']] only for the last rule. *)
Definition make_rule_spec (generic_widget : Widget) (ruleset_len rule_ind : nat)
    (rule : Rule) : Result RuleSpec :=
  let state_rule :=
    mkRuleSpec (default PNone (rule_name rule)) (rule_inputs rule)
               (rule_dest rule) (rule_feedback rule) in
  description ← rule_item "description" (rule_description rule);
  if py_eq_str description DEFAULT_RULE_NAME then
    invalid ←
      (if negb (Z.of_nat rule_ind =? Z.of_nat ruleset_len - 1)%Z
       then Ok true
       else name ← rule_item "name" (rule_name rule);
            Ok (negb (py_eq_str name DEFAULT_RULE_NAME)));
    if invalid : bool then Raise invalid_ruleset else Ok state_rule
  else
    let matched_rule :=
      get_rule_by_name generic_widget "submit" (rs_name state_rule) in
    inputs ← match rs_inputs state_rule with
             | None => Raise TypeError
             | Some inputs => normalize_inputs matched_rule inputs
             end;
    Ok (mkRuleSpec (rs_name state_rule) (Some inputs)
                   (rs_dest state_rule) (rs_feedback state_rule)).

(** Lines 247-281: the body of the loop. *)
Definition process_rule (generic_widget : Widget) (ruleset_len rule_ind : nat)
    (rule : Rule) : Py (Stored State) unit :=
  state_rule ← lift (make_rule_spec generic_widget ruleset_len rule_ind rule);
  append_rule_spec state_rule.

(** Lines 246-281: the loop over [range(len(ruleset))], from [rule_ind] on. *)
Fixpoint process_rules (generic_widget : Widget) (ruleset_len rule_ind : nat)
    (rules : list Rule) : Py (Stored State) unit :=
  match rules with
  | [] => mret tt
  | rule :: rest =>
      process_rule generic_widget ruleset_len rule_ind rule;;
      process_rules generic_widget ruleset_len (S rule_ind) rest
  end.

(** Lines 235-281: the body of [if interactive_rulesets:]. *)
Definition update_rulesets (rulesets : gmap string (list Rule))
  : Py (Stored State) unit :=
  ruleset ← lift (dict_item rulesets "submit");
  let ruleset := recursively_remove_key ruleset "$$hashKey" in
  update (set_handlers [mkHandler "submit" []]);;
  state ← self_entity;
  let generic_widget :=
    get_widget_by_id "interactive" (widget_id (state_widget state)) in
  process_rules generic_widget (length ruleset) 0 ruleset.

(** Lines 225-232: the widget's id, parameters and stickiness. *)
Definition assign_widget_properties (payload : StateUpdate)
  : Py (Stored State) unit :=
  when (truthy (interactive_widget payload))
    (update (set_widget_id (interactive_widget payload)));;
  when (negb (is_None (interactive_params payload)))
    (update (set_widget_params (interactive_params payload)));;
  when (negb (is_None (sticky_interactive_widget payload)))
    (update (set_widget_sticky (sticky_interactive_widget payload))).

(** Lines 225-281 and 293.  The renaming, the parameter changes, the content
    and the resolved answers (lines 214-223, 283-291) go through other
    services and leave [state.widget] alone; they are not part of the model. *)
Definition StateHandler_put (payload : StateUpdate) : Py (Stored State) unit :=
  assign_widget_properties payload;;
  match interactive_rulesets payload with
  | Some rulesets =>
      when (negb (bool_decide (rulesets = ∅))) (update_rulesets rulesets)
  | None => mret tt
  end;;
  put.

End editor.

(** ** [ExplorationHandler.get] and [ExplorationDownloadHandler.get] *)

(** What the two handlers use of [exp_services], [utils] and [feconf]. *)
Class ExpServices : Type := {
  VerboseState : Type;
  export_state_to_verbose_dict : string → string → VerboseState;
  export_to_yaml : string → string;
  to_ascii : pyval → string;
  DEFAULT_FILE_NAME : string
}.

(** The values [ExplorationHandler.get] adds to [self.values], under the
    keys of the source. *)
Module Values.
Record t {V : Type} : Type := mk {
  exploration_id : string;
  init_state_id : string;
  is_public : bool;
  image_id : pyval;
  category : pyval;
  title : pyval;
  editors : list string;
  states : gmap string V;
  parameters : list (gmap string pyval);
  num_visits : Z;
  num_completions : Z;
  state_stats : gmap string StateStats;
  imp : list RankedState
}.
End Values.

(** Lines 96-99: the dict of one parameter. *)
Definition parameter_dict (param : ExplorationParameter) : gmap string pyval :=
  {[ "name" := param_name param;
     "obj_type" := param_obj_type param;
     "description" := param_description param;
     "values" := param_values param ]}.

(** The response of a handler: its headers and the text written so far. *)
Record Response : Type := mkResponse {
  headers : gmap string string;
  body : string
}.

Definition set_header (key value : string) (r : Response) : Response :=
  mkResponse (<[key := value]> (headers r)) (body r).

Definition write (text : string) (r : Response) : Response :=
  mkResponse (headers r) (body r +:+ text).

Section editor_reads.
Context `{StatsDomain} `{ExpServices}.

(** Lines 91-94. *)
Definition state_list_of (exploration : Exploration)
  : gmap string VerboseState :=
  foldl (λ state_list state_id,
    <[state_id :=
        export_state_to_verbose_dict (exp_id exploration) state_id]>
      state_list)
    ∅ (state_ids exploration).

Definition ExplorationHandler_get (exploration : Exploration)
  : Result (@Values.t VerboseState) :=
  let state_list := state_list_of exploration in
  let parameters := parameter_dict <$> parameters exploration in
  statistics ← export_exploration_stats_to_dict (exp_id exploration);
  imp ← get_top_improvable_states [exp_id exploration] 10;
  Ok {|
    Values.exploration_id := exp_id exploration;
    Values.init_state_id := init_state_id exploration;
    Values.is_public := is_public exploration;
    Values.image_id := image_id exploration;
    Values.category := exp_category exploration;
    Values.title := exp_title exploration;
    Values.editors := editor_ids exploration;
    Values.states := state_list;
    Values.parameters := parameters;
    Values.num_visits := num_visits statistics;
    Values.num_completions := num_completions statistics;
    Values.state_stats := state_stats statistics;
    Values.imp := imp
  |}.

(** Lines 186-194. *)
Definition ExplorationDownloadHandler_get (exploration : Exploration)
  : Py Response unit :=
  let filename := "oppia-" +:+ to_ascii (exp_title exploration) in
  let filename :=
    if String.eqb filename EmptyString then DEFAULT_FILE_NAME else filename in
  modify (set_header "Content-Type" "text/plain");;
  modify (set_header "Content-Disposition"
            ("attachment; filename=" +:+ filename +:+ ".txt"));;
  modify (write (export_to_yaml (exp_id exploration))).

End editor_reads.

(** * Vocabulary of the properties *)

(** Non-increasing order of keys. *)
Definition desc {A : Type} (key : A → Z) : relation A :=
  λ a b, (key b ≤ key a)%Z.

(** The outcome of running [m] on [s] satisfies [Q]. *)
Definition wp {S A : Type} (m : Py S A) (Q : S → Result A → Prop) (s : S)
  : Prop :=
  Q (m s).1 (m s).2.

(** What a block of a handler leaves alone: the datastore. *)
Definition untouched {A : Type} (w w' : Stored A) : Prop :=
  persisted w' = persisted w ∧ put_calls w' = put_calls w.

Section stats_vocabulary.
Context `{StatsDomain}.

Definition default_count_of (exploration : Exploration) (sid : string) : Z :=
  total_answer_count
    (StateRuleAnswerLog_get (exp_id exploration) sid DEFAULT_RULESPEC_STR).

Definition default_dest_is_self (state : State) : Prop :=
  ∃ handler rest,
    handlers (state_widget state) = handler :: rest ∧
    py_eq_str (rs_dest (default_rule_spec handler)) (state_id state) = true.

Definition meets_default_threshold (exploration_id : string)
    (exploration : Exploration) (sid : string) : Prop :=
  exceeds_20_percent (default_count_of exploration sid)
    (total_entry_count (StateCounter_get exploration_id sid)) = true ∧
  default_dest_is_self (get_state_by_id exploration sid).

Definition meets_incomplete_threshold (exploration_id sid : string) : Prop :=
  let state_counts := StateCounter_get exploration_id sid in
  exceeds_20_percent (no_answer_count state_counts)
    (total_entry_count state_counts) = true.

Definition has_flag (exploration_id : string) (exploration : Exploration)
    (sid : string) (type : string) : Prop :=
  ∃ flags flag,
    flags_of_state exploration_id exploration sid = Ok (Some flags) ∧
    flag ∈ flags ∧ improve_type flag = type.

Definition flagged_by_threshold_only (exploration_id : string)
    (exploration : Exploration) (sid : string) : Prop :=
  (has_flag exploration_id exploration sid IMPROVE_TYPE_DEFAULT ↔
   meets_default_threshold exploration_id exploration sid) ∧
  (has_flag exploration_id exploration sid IMPROVE_TYPE_INCOMPLETE ↔
   meets_incomplete_threshold exploration_id sid).

Definition has_first_handler (exploration : Exploration) (sid : string) : Prop :=
  handlers (state_widget (get_state_by_id exploration sid)) ≠ [].

(** An entry meets one of the two thresholds. *)
Definition meets_a_threshold (e : RankedState) : Prop :=
  meets_default_threshold (r_exp_id e) (Exploration_get (r_exp_id e))
    (r_state_id e) ∨
  meets_incomplete_threshold (r_exp_id e) (r_state_id e).

Definition visited_states_have_handler (exploration_ids : list string) : Prop :=
  ∀ exploration_id sid,
    exploration_id ∈ exploration_ids →
    sid ∈ state_ids (Exploration_get exploration_id) →
    has_first_handler (Exploration_get exploration_id) sid.

(** Looking a state up by its id gives a state with that id. *)
Definition state_ids_coherent (exploration : Exploration) : Prop :=
  ∀ sid, sid ∈ state_ids exploration →
    state_id (get_state_by_id exploration sid) = sid.

End stats_vocabulary.

(** A payload without the key, or with an empty string for it. *)
Definition lacks (payload : gmap string pyval) (key : string) : Prop :=
  payload !! key = None.

Definition lacks_or_empty (payload : gmap string pyval) (key : string) : Prop :=
  payload !! key = None ∨ payload !! key = Some (PStr EmptyString).

(** The value line 154 assigns to [image_id], or the old one. *)
Definition assigned_image_id (payload : gmap string pyval) (old : pyval)
  : pyval :=
  match payload !! "image_id" with
  | None => old
  | Some v => if py_eq_str v "null" then PNone else v
  end.

Section editor_vocabulary.
Context `{EditorDeps}.

(** The validation of [NewExploration.post] read clause by clause, each
    clause on its own, for one request. *)
Definition post_validates_as_stated (user_id : string)
    (payload : gmap string pyval) (yaml_content : string) (db : Datastore)
  : Prop :=
  let outcome := NewExploration_post user_id payload yaml_content db in
  (lacks_or_empty payload "title" → outcome.2 = Raise no_title) ∧
  (lacks payload "category" → outcome.2 = Raise no_category) ∧
  (∀ response, outcome.2 = Ok response →
     ¬ lacks payload "title" ∧ ¬ lacks payload "category" ∧
     ∃ exploration_id, response = {[ "explorationId" := PStr exploration_id ]}).

Definition default_described (rule : Rule) : Prop :=
  ∃ description, rule_description rule = Some description ∧
    py_eq_str description DEFAULT_RULE_NAME = true.

Definition not_default_described (rule : Rule) : Prop :=
  ∃ description, rule_description rule = Some description ∧
    py_eq_str description DEFAULT_RULE_NAME = false.

Definition named_default (rule : Rule) : Prop :=
  ∃ name, rule_name rule = Some name ∧
    py_eq_str name DEFAULT_RULE_NAME = true.

Definition misnamed (rule : Rule) : Prop :=
  ∃ name, rule_name rule = Some name ∧
    py_eq_str name DEFAULT_RULE_NAME = false.

(** The value stored for a parameter when no exception is raised. *)
Definition normalized_value (matched_rule : WidgetRule) (param_name : string)
    (value : pyval) : pyval :=
  if is_template value then value
  else normalize (get_obj_type_for_param_name matched_rule param_name) value.

(** [state.widget.widget_id] once lines 225-226 have run. *)
Definition widget_id_after (payload : StateUpdate) (state : State) : pyval :=
  if truthy (interactive_widget payload) then interactive_widget payload
  else widget_id (state_widget state).

(** The rule at index [k] is the first one whose rule spec cannot be built. *)
Definition rules_before_pass (generic_widget : Widget) (ruleset : list Rule)
    (k : nat) : Prop :=
  ∀ j rule, j < k → ruleset !! j = Some rule →
    ∃ spec, make_rule_spec generic_widget (length ruleset) j rule = Ok spec.

(** The check of the default rule read as a property of the whole ruleset,
    for one request. *)
Definition default_rule_check_as_stated (payload : StateUpdate)
    (w : Stored State) : Prop :=
  ∀ rulesets ruleset,
    interactive_rulesets payload = Some rulesets →
    rulesets !! "submit" = Some ruleset →
    let cleaned := recursively_remove_key ruleset "$$hashKey" in
    (∃ k rule, cleaned !! k = Some rule ∧ default_described rule ∧
       ¬ (S k = length cleaned ∧ named_default rule)) →
    (StateHandler_put payload w).2 = Raise invalid_ruleset.

Definition has_wrong_type (matched_rule : WidgetRule)
    (inputs : gmap string pyval) : Prop :=
  ∃ param_name value, inputs !! param_name = Some value ∧
    is_None (normalized_value matched_rule param_name value) = true.

End editor_vocabulary.

(** * Sample data *)

(** One exploration with four states: [s0] was never entered but has one
    answer logged for its default rule; [s1] exceeds both thresholds with
    equal counts; [s2] exceeds none; [s3] exceeds both, with more readers
    leaving without an answer. *)
Definition sample_counter (sid : string) : StateCounter :=
  if String.eqb sid "s0" then mkStateCounter 0 0 0
  else if String.eqb sid "s1" then mkStateCounter 8 10 3
  else if String.eqb sid "s2" then mkStateCounter 5 20 2
  else if String.eqb sid "s3" then mkStateCounter 4 10 6
  else mkStateCounter 7 7 0.

Definition sample_default_answers (sid : string) : list (string * Z) :=
  if String.eqb sid "s0" then [("42", 1%Z)]
  else if String.eqb sid "s1" then [("yes", 2%Z); ("no", 1%Z)]
  else if String.eqb sid "s2" then [("maybe", 1%Z)]
  else if String.eqb sid "s3" then [("7", 3%Z); ("8", 2%Z)]
  else [].

Definition sample_state (sid : string) : State :=
  mkState sid ("State " +:+ sid)
    (mkWidget (PStr "NumericInput") PNone (PBool false)
       [mkHandler "submit"
          [mkRuleSpec (PStr "Default") (Some ∅) (PStr sid) PNone]]).

Definition sample_stats : StatsDomain := {|
  DEFAULT_RULESPEC_STR := "Default";
  END_DEST := "END";
  Exploration_get := λ exploration_id,
    mkExploration exploration_id (PStr "Counting") (PStr "Maths") true PNone
      ["owner"] [] "s1" ["s0"; "s1"; "s2"; "s3"];
  get_state_by_id := λ _ sid, sample_state sid;
  StateCounter_get := λ _ sid, sample_counter sid;
  StateRuleAnswerLog_get := λ _ sid rule,
    let answers :=
      if String.eqb rule "Default" then sample_default_answers sid else [] in
    mkAnswerLog (foldr (λ answer total, (answer.2 + total)%Z) 0%Z answers)
                (λ n, take (Z.to_nat n) answers);
  default_rule_spec := λ handler,
    List.last (rule_specs handler) (mkRuleSpec PNone None PNone PNone);
  rule_str := λ rule,
    match rs_name rule with PStr s => s | _ => "rule" end
|}.

(** Sample collaborators of the controllers: every object type is an
    integer type, whose [normalize] accepts integers only; editors are added
    by their e-mail address; the datastore counts the explorations created. *)
Definition sample_editor : EditorDeps := {|
  ALLOW_YAML_FILE_UPLOAD := true;
  DEFAULT_RULE_NAME := "Default";
  Datastore := nat;
  create_from_yaml := λ _ _ _ _ db, ("exploration-from-yaml", S db);
  create_new := λ _ _ _ db, ("new-exploration", S db);
  add_editor := λ editors email,
    editors ++ [match email with PStr s => s | _ => "unknown" end];
  Widget := unit;
  WidgetRule := unit;
  ObjType := unit;
  get_widget_by_id := λ _ _, tt;
  get_rule_by_name := λ _ _ _, tt;
  get_obj_type_for_param_name := λ _ _, tt;
  normalize := λ _ value,
    match value with PInt z => PInt z | _ => PNone end;
  wrong_type_message := λ _ _,
    "The value has the wrong type. Please replace it with a Int.";
  recursively_remove_key := λ ruleset key,
    (λ rule, mkRule (rule_description rule) (rule_name rule)
               (delete key <$> rule_inputs rule)
               (rule_dest rule) (rule_feedback rule)) <$> ruleset
|}.

Definition sample_exploration : Exploration :=
  mkExploration "exp" (PStr "Counting") (PStr "Maths") true (PStr "img-1")
    ["owner"; "helper"] [] "s1" ["s0"; "s1"; "s2"; "s3"].

Definition equals_rule (value : pyval) : Rule :=
  mkRule (Some (PStr "is equal to {{x|Int}}")) (Some (PStr "Equals"))
    (Some {[ "x" := value ]}) (PStr "s2") (PList []).

Definition default_rule : Rule :=
  mkRule (Some (PStr "Default")) (Some (PStr "Default")) (Some ∅)
    (PStr "s1") (PList []).

Definition sample_update (ruleset : list Rule) : StateUpdate :=
  mkStateUpdate PNone PNone PNone (Some {[ "submit" := ruleset ]}).

(** * Further vocabulary *)

(** [[e]] for an entry, [[]] for none. *)
Definition entry_list {A : Type} (entry : option A) : list A :=
  match entry with
  | Some e => [e]
  | None => []
  end.

(** The sum of the counts of a list of (answer, count) pairs. *)
Definition answer_total (answers : list (string * Z)) : Z :=
  foldr (λ answer total, (answer.2 + total)%Z) 0%Z answers.

Section stats_vocabulary_2.
Context `{StatsDomain}.

(** The entries one state and one exploration contribute to
    [ranked_states]. *)
Definition entries_of_state (exploration_id sid : string)
  : Result (list RankedState) :=
  entry ← rank_state exploration_id (Exploration_get exploration_id) sid;
  Ok (entry_list entry).

Definition entries_of_exploration (exploration_id : string)
  : Result (list RankedState) :=
  entries ← comprehension (entries_of_state exploration_id)
               (state_ids (Exploration_get exploration_id));
  Ok (concat entries).

(** A visited state whose flags cannot be computed: it has entries, its
    default-rule answer count passes the threshold, and [handlers] is empty. *)
Definition unreadable_default (exploration_id sid : string) : Prop :=
  let exploration := Exploration_get exploration_id in
  total_entry_count (StateCounter_get exploration_id sid) ≠ 0%Z ∧
  exceeds_20_percent (default_count_of exploration sid)
    (total_entry_count (StateCounter_get exploration_id sid)) = true ∧
  handlers (state_widget (get_state_by_id exploration sid)) = [].

(** The state is visited by the loops over [exploration_ids]. *)
Definition visited (exploration_ids : list string) (exploration_id sid : string)
  : Prop :=
  exploration_id ∈ exploration_ids ∧
  sid ∈ state_ids (Exploration_get exploration_id).

(** The rule strings of a state's rules, handler by handler. *)
Definition rule_strings (state : State) : list string :=
  rule_str <$> concat (rule_specs <$> handlers (state_widget state)).

End stats_vocabulary_2.

(** The stats of one rule of a state with [state_count] entries: the second
    row of ['chartData'] holds the rule's count and the rest of the state's. *)
Definition rule_stats_for (state_count : Z) (answers : list (string * Z))
  : RuleStats :=
  mkRuleStats answers
    (answer_total answers, (state_count - answer_total answers)%Z).

(** The sum of the rule counts of a state's [rule_stats]. *)
Definition answered_total (rule_stats : gmap string RuleStats) : Z :=
  foldr (λ rule total, ((chartData rule.2).1 + total)%Z) 0%Z
    (map_to_list rule_stats).

(** The keys read from each item of the ['parameters'] payload. *)
Definition parameter_keys : list string :=
  ["name"; "obj_type"; "description"; "values"].

Section editor_vocabulary_2.
Context `{EditorDeps}.

(** What [ExplorationHandler.put] stores, block by block, as functions of
    the exploration: lines 147-154, 155-163 and 164-170. *)
Definition assigned_properties (payload : gmap string pyval)
    (e : Exploration) : Exploration :=
  let e := if truthy (dict_get payload "is_public")
           then set_is_public true e else e in
  let e := if truthy (dict_get payload "category")
           then set_category (dict_get payload "category") e else e in
  let e := if truthy (dict_get payload "title")
           then set_title (dict_get payload "title") e else e in
  match payload !! "image_id" with
  | Some v => set_image_id (if py_eq_str v "null" then PNone else v) e
  | None => e
  end.

Definition replaced_editors (user_id : string) (editors : pyval)
    (e : Exploration) : Result Exploration :=
  if truthy editors then
    if is_owner user_id e then
      emails ← py_iter editors;
      Ok (set_editor_ids (foldl add_editor [] emails) e)
    else Raise unauthorized
  else Ok e.

Definition replaced_parameters (parameters : pyval) (e : Exploration)
  : Result Exploration :=
  if truthy parameters then
    items ← py_iter parameters;
    new_parameters ← comprehension parameter_of_item items;
    Ok (set_parameters new_parameters e)
  else Ok e.

Definition put_effect (user_id : string) (payload : gmap string pyval)
    (e : Exploration) : Result Exploration :=
  e ← replaced_editors user_id (dict_get payload "editors")
        (assigned_properties payload e);
  replaced_parameters (dict_get payload "parameters") e.

End editor_vocabulary_2.

Section state_vocabulary_2.
Context `{EditorDeps}.

(** The state once lines 225-232 have run. *)
Definition assigned_widget (payload : StateUpdate) (state : State) : State :=
  let state := if truthy (interactive_widget payload)
               then set_widget_id (interactive_widget payload) state
               else state in
  let state := if is_None (interactive_params payload) then state
               else set_widget_params (interactive_params payload) state in
  if is_None (sticky_interactive_widget payload) then state
  else set_widget_sticky (sticky_interactive_widget payload) state.

(** The rule specs of the rules from index [rule_ind] on, in order, or the
    exception of the first rule whose rule spec cannot be built. *)
Fixpoint rule_specs_from (generic_widget : Widget) (ruleset_len rule_ind : nat)
    (rules : list Rule) : Result (list RuleSpec) :=
  match rules with
  | [] => Ok []
  | rule :: rest =>
      spec ← make_rule_spec generic_widget ruleset_len rule_ind rule;
      specs ← rule_specs_from generic_widget ruleset_len (S rule_ind) rest;
      Ok (spec :: specs)
  end.

Definition built_rule_specs (generic_widget : Widget) (ruleset : list Rule)
  : Result (list RuleSpec) :=
  rule_specs_from generic_widget (length ruleset) 0 ruleset.

(** [interactive_rulesets] is absent, null or empty. *)
Definition no_rulesets (payload : StateUpdate) : Prop :=
  interactive_rulesets payload = None ∨ interactive_rulesets payload = Some ∅.


(** Every input of the rule is a string with both ['{{'] and ['}}']. *)
Definition templated (rule : Rule) : Prop :=
  ∃ inputs, rule_inputs rule = Some inputs ∧
    ∀ param_name value, inputs !! param_name = Some value →
      is_template value = true.

End state_vocabulary_2.

(** [sub] occurs in [s]. *)
Definition occurs_in (sub s : string) : Prop :=
  ∃ before after, s = before +:+ sub +:+ after.

(** The payload of a put request that sends back the publication flag, the
    category, the title and the parameters that a get request returned. *)
Definition put_payload {V : Type} (data : @Values.t V) : gmap string pyval :=
  {[ "is_public" := PBool (Values.is_public data);
     "category" := Values.category data;
     "title" := Values.title data;
     "parameters" := PList (PDict <$> Values.parameters data) ]}.

(** * Further sample data *)

(** Sample services: state dicts and YAML are abbreviated to strings. *)
Definition sample_services : ExpServices := {|
  VerboseState := string;
  export_state_to_verbose_dict := λ exploration_id state_id,
    exploration_id +:+ "/" +:+ state_id;
  export_to_yaml := λ exploration_id, "id: " +:+ exploration_id;
  to_ascii := λ value, match value with PStr s => s | _ => "None" end;
  DEFAULT_FILE_NAME := "oppia-unpublished_exploration"
|}.

(** The sample statistics with states stored under ids that the exploration
    no longer lists. *)
Definition stale_stats : StatsDomain := {|
  DEFAULT_RULESPEC_STR := DEFAULT_RULESPEC_STR (StatsDomain := sample_stats);
  END_DEST := END_DEST (StatsDomain := sample_stats);
  Exploration_get := Exploration_get (StatsDomain := sample_stats);
  get_state_by_id := λ _ sid, sample_state ("old-" +:+ sid);
  StateCounter_get := StateCounter_get (StatsDomain := sample_stats);
  StateRuleAnswerLog_get := StateRuleAnswerLog_get (StatsDomain := sample_stats);
  default_rule_spec := default_rule_spec (StatsDomain := sample_stats);
  rule_str := rule_str (StatsDomain := sample_stats)
|}.

(** The entries of the sample exploration's states [s3] and [s1]. *)
Definition sample_entry_s3 : RankedState :=
  mkRankedState "exp" (PStr "Counting") "s3" "State s3" 6
    IMPROVE_TYPE_INCOMPLETE [("7", 3%Z); ("8", 2%Z)].

Definition sample_entry_s1 : RankedState :=
  mkRankedState "exp" (PStr "Counting") "s1" "State s1" 3
    IMPROVE_TYPE_DEFAULT [("yes", 2%Z); ("no", 1%Z)].

(** A rule whose input is a template. *)
Definition template_rule : Rule := equals_rule (PStr "{{answer}}").

(** * Properties *)

(** ** The model of [sorted] *)

Section sorting.
Context {A : Type} (key : A → Z).

(** Sorting permutes the list. *)
Lemma insert_desc_perm x l : insert_desc key x l ≡ₚ x :: l.
Proof.
  induction l as [|y l IH]; simpl; [done|].
  case_match; [|done].
  rewrite IH. apply Permutation_swap.
Qed.

Lemma sorted_reverse_perm l : sorted_reverse key l ≡ₚ l.
Proof.
  induction l as [|x l IH]; simpl; [done|].
  rewrite insert_desc_perm. by f_equiv.
Qed.

(** Sorting gives keys in non-increasing order. *)
Lemma insert_desc_sorted x l :
  StronglySorted (desc key) l → StronglySorted (desc key) (insert_desc key x l).
Proof.
  induction 1 as [|y l Hs IH Hy]; simpl.
  - repeat constructor.
  - destruct (key x <? key y)%Z eqn:Hlt.
    + constructor; [done|].
      rewrite insert_desc_perm. constructor; [|done].
      unfold desc. apply Z.ltb_lt in Hlt. lia.
    + apply Z.ltb_ge in Hlt. constructor; [by constructor|].
      constructor; [done|].
      eapply Forall_impl; [exact Hy|]. unfold desc. intros; simpl in *. lia.
Qed.

Lemma sorted_reverse_sorted l : StronglySorted (desc key) (sorted_reverse key l).
Proof.
  induction l; simpl; [constructor|]. by apply insert_desc_sorted.
Qed.

(** Sorting is stable: elements with the same key keep their order. *)
Lemma insert_desc_stable k x l :
  StronglySorted (desc key) l →
  filter (λ a, key a = k) (insert_desc key x l) =
  filter (λ a, key a = k) (x :: l).
Proof.
  induction 1 as [|y l Hs IH Hy]; simpl; [done|].
  destruct (key x <? key y)%Z eqn:Hlt; [|done].
  apply Z.ltb_lt in Hlt.
  rewrite !filter_cons. rewrite !filter_cons in IH.
  repeat case_decide; try lia; try (rewrite IH; done); try done.
Qed.

Lemma sorted_reverse_stable k l :
  filter (λ a, key a = k) (sorted_reverse key l) = filter (λ a, key a = k) l.
Proof.
  induction l as [|x l IH]; simpl; [done|].
  rewrite insert_desc_stable by apply sorted_reverse_sorted.
  by rewrite !filter_cons, IH.
Qed.

(** A slice [l[:n]] of a sorted list is sorted. *)
Lemma StronglySorted_take (R : relation A) n l :
  StronglySorted R l → StronglySorted R (take n l).
Proof.
  intros Hs. revert n. induction Hs as [|x l Hs IH Hx]; intros [|n]; simpl;
    try constructor; [apply IH|].
  eapply Forall_take in Hx. exact Hx.
Qed.
End sorting.

(** ** Loops *)

Lemma for_list_invariant {A S : Type} (Inv : S → Prop) (l : list A)
    (body : A → S → Result S) (s s' : S) :
  (∀ x t t', x ∈ l → Inv t → body x t = Ok t' → Inv t') →
  Inv s → for_list l body s = Ok s' → Inv s'.
Proof.
  revert s. induction l as [|x l IH]; intros s Hbody Hs Hrun; simpl in Hrun.
  - by inversion Hrun; subst.
  - destruct (body x s) as [t|e] eqn:Hx; simpl in Hrun; [|done].
    apply (IH t); [|by eapply Hbody; [left| |]|done].
    intros y u u' Hy. apply Hbody. by right.
Qed.

(** A loop whose body never raises returns. *)
Lemma for_list_returns {A S : Type} (l : list A) (body : A → S → Result S)
    (s : S) :
  (∀ x t, x ∈ l → ∃ t', body x t = Ok t') → ∃ s', for_list l body s = Ok s'.
Proof.
  revert s. induction l as [|x l IH]; intros s Hbody; simpl; [by eexists|].
  destruct (Hbody x s) as [t Ht]; [by left|]. rewrite Ht. simpl.
  apply IH. intros y u Hy. apply Hbody. by right.
Qed.

(** Loops that store one computed value per key. *)
Section insert_loops.
Context {A B : Type} (g : string → A → Result B).
Context (body : string → A → gmap string B → Result (gmap string B)).
Hypothesis body_inserts :
  ∀ k v acc, body k v acc = (n ← g k v; Ok (<[k := n]> acc)).

Lemma for_list_insert_lookup (l : list (string * A)) acc acc' :
  NoDup l.*1 →
  for_list l (λ kv, body kv.1 kv.2) acc = Ok acc' →
  (∀ k v, (k, v) ∈ l → ∃ n, g k v = Ok n ∧ acc' !! k = Some n) ∧
  (∀ k, k ∉ l.*1 → acc' !! k = acc !! k).
Proof.
  revert acc. induction l as [|[k0 v0] l IH]; intros acc Hnd Hrun; simpl in *.
  - injection Hrun as <-. split; [by intros k v ?%elem_of_nil|done].
  - apply NoDup_cons in Hnd as [Hk0 Hnd].
    rewrite body_inserts in Hrun. simpl in Hrun.
    destruct (g k0 v0) as [n0|e] eqn:Hg; simpl in Hrun; [|done].
    destruct (IH _ Hnd Hrun) as [IH1 IH2]. split.
    + intros k v [[= -> ->]|Hin]%elem_of_cons; [|by apply IH1].
      exists n0. split; [done|]. rewrite IH2 by done. apply lookup_insert_eq.
    + intros k [Hne Hk]%not_elem_of_cons. rewrite IH2 by done.
      by apply lookup_insert_ne.
Qed.

Lemma for_dict_insert_lookup (d : gmap string A) acc acc' :
  for_dict d body acc = Ok acc' →
  (∀ k v, d !! k = Some v → ∃ n, g k v = Ok n ∧ acc' !! k = Some n) ∧
  (∀ k, d !! k = None → acc' !! k = acc !! k).
Proof.
  unfold for_dict. intros Hrun.
  apply for_list_insert_lookup in Hrun as [H1 H2];
    [|apply NoDup_fst_map_to_list].
  split.
  - intros k v Hk. apply H1. by apply elem_of_map_to_list.
  - intros k Hk. apply H2. intros ((k' & v) & -> & Hin)%list_elem_of_fmap.
    apply elem_of_map_to_list in Hin. simpl in Hk. congruence.
Qed.

Lemma for_dict_insert_returns (d : gmap string A) acc :
  (∀ k v, d !! k = Some v → ∃ n, g k v = Ok n) →
  ∃ acc', for_dict d body acc = Ok acc'.
Proof.
  intros Hg. apply for_list_returns. intros [k v] t Hin%elem_of_map_to_list.
  rewrite body_inserts. simpl. destruct (Hg k v Hin) as [n ->]. by eexists.
Qed.

Lemma for_dict_insert_raises (d : gmap string A) acc e :
  for_dict d body acc = Raise e → ∃ k v, d !! k = Some v ∧ g k v = Raise e.
Proof.
  unfold for_dict.
  assert (Hl : ∀ kv, kv ∈ map_to_list d → d !! kv.1 = Some kv.2).
  { intros [k v]. apply elem_of_map_to_list. }
  revert acc Hl. induction (map_to_list d) as [|[k0 v0] l IH];
    intros acc Hl Hrun; simpl in *; [done|].
  rewrite body_inserts in Hrun. simpl in Hrun.
  destruct (g k0 v0) as [n0|e0] eqn:Hg; simpl in Hrun.
  - eapply IH; [|exact Hrun]. intros kv Hkv. apply Hl. by right.
  - injection Hrun as ->. exists k0, v0. split; [|done].
    apply (Hl (k0, v0)). by left.
Qed.
End insert_loops.

Section foldl_insert.
Context {A B : Type} (k : A → string) (v : A → B).

(** The value found under a key after a loop of assignments [m[k x] = v x]. *)
Lemma foldl_insert_hit (l : list A) (m : gmap string B) key val :
  (∀ x, x ∈ l → k x = key → v x = val) →
  (m !! key = Some val ∨ ∃ x, x ∈ l ∧ k x = key) →
  foldl (λ m x, <[k x := v x]> m) m l !! key = Some val.
Proof.
  revert m. induction l as [|x l IH]; intros m Hv Hhit; simpl.
  - destruct Hhit as [?|(x & []%elem_of_nil & _)]; done.
  - apply IH; [intros y Hy; apply Hv; by right|].
    destruct (decide (k x = key)) as [Hx|Hx].
    + left. rewrite Hx, lookup_insert_eq. f_equal. apply Hv; [by left|done].
    + destruct Hhit as [Hm|(y & [->|Hy]%elem_of_cons & Hk)]; [|done|].
      * left. by rewrite lookup_insert_ne.
      * right. by exists y.
Qed.

Lemma foldl_insert_miss (l : list A) (m : gmap string B) key :
  (∀ x, x ∈ l → k x ≠ key) →
  foldl (λ m x, <[k x := v x]> m) m l !! key = m !! key.
Proof.
  revert m. induction l as [|x l IH]; intros m Hk; simpl; [done|].
  rewrite IH by (intros y Hy; apply Hk; by right).
  apply lookup_insert_ne, Hk. by left.
Qed.
End foldl_insert.

(** ** Statistics *)

(** The threshold test is the comparison with 0.2 times the total, over the
    rationals. *)
Lemma exceeds_20_percent_rational count total :
  exceeds_20_percent count total = true ↔
  (0.2 * inject_Z total < inject_Z count)%Q.
Proof.
  unfold exceeds_20_percent, Qlt. simpl. rewrite Z.ltb_lt. lia.
Qed.

Section stats_facts.
Context `{StatsDomain}.

(** The first of the two flags in decreasing rank; the default flag comes
    first on a tie. *)
Lemma top_flag_sorted2 d n :
  top_flag [mkFlag d IMPROVE_TYPE_DEFAULT; mkFlag n IMPROVE_TYPE_INCOMPLETE] =
  (Z.max d n, if (d <? n)%Z then IMPROVE_TYPE_INCOMPLETE else IMPROVE_TYPE_DEFAULT).
Proof.
  unfold top_flag; simpl. destruct (d <? n)%Z eqn:E; simpl.
  - apply Z.ltb_lt in E. f_equal. lia.
  - apply Z.ltb_ge in E. f_equal. lia.
Qed.

(** The flags computed for a state, when the computation returns. *)
Lemma eligible_flags_cases d n t state flags :
  eligible_flags d n t state = Ok flags →
  flags =
    (if exceeds_20_percent d t then
       match handlers (state_widget state) with
       | handler :: _ =>
           if py_eq_str (rs_dest (default_rule_spec handler)) (state_id state)
           then [mkFlag d IMPROVE_TYPE_DEFAULT] else []
       | [] => []
       end
     else []) ++
    (if exceeds_20_percent n t then [mkFlag n IMPROVE_TYPE_INCOMPLETE] else []).
Proof.
  unfold eligible_flags, first_handler.
  destruct (exceeds_20_percent d t); simpl.
  - destruct (handlers (state_widget state)) as [|h rest]; simpl; [done|].
    destruct (py_eq_str _ _); simpl; intros [= <-]; done.
  - intros [= <-]; done.
Qed.

(** With a handler to read, the computation of the flags returns. *)
Lemma eligible_flags_returns d n t state :
  handlers (state_widget state) ≠ [] → ∃ flags, eligible_flags d n t state = Ok flags.
Proof.
  intros Hh. unfold eligible_flags, first_handler.
  destruct (handlers (state_widget state)) as [|h rest]; [done|].
  destruct (exceeds_20_percent d t); simpl; [|by eexists].
  destruct (py_eq_str _ _); simpl; by eexists.
Qed.

(** Lines 148-149: a state without entries is skipped. *)
Lemma flags_of_state_skipped exploration_id exploration sid :
  total_entry_count (StateCounter_get exploration_id sid) = 0%Z →
  flags_of_state exploration_id exploration sid = Ok None.
Proof. intros Ht. unfold flags_of_state. by rewrite Ht. Qed.

(** A state that is not skipped has a nonzero total entry count. *)
Lemma flags_of_state_examined exploration_id exploration sid flags :
  flags_of_state exploration_id exploration sid = Ok (Some flags) →
  total_entry_count (StateCounter_get exploration_id sid) ≠ 0%Z ∧
  eligible_flags (default_count_of exploration sid)
    (no_answer_count (StateCounter_get exploration_id sid))
    (total_entry_count (StateCounter_get exploration_id sid))
    (get_state_by_id exploration sid) = Ok flags.
Proof.
  unfold flags_of_state, default_count_of.
  destruct (_ =? 0)%Z eqn:Ht; [done|]. apply Z.eqb_neq in Ht.
  destruct (eligible_flags _ _ _ _) as [fl|e]; simpl; [|done].
  by intros [= <-].
Qed.

Lemma flags_of_state_returns exploration_id exploration sid :
  has_first_handler exploration sid →
  ∃ flags, flags_of_state exploration_id exploration sid = Ok flags.
Proof.
  intros Hh. unfold flags_of_state.
  destruct (_ =? 0)%Z; [by eexists|].
  edestruct eligible_flags_returns as [fl ->]; [exact Hh|]. by eexists.
Qed.

Lemma default_flag_elem d (c : bool) (flags : list Flag) flag :
  flag ∈ (if c then [mkFlag d IMPROVE_TYPE_DEFAULT] else []) ++ flags →
  improve_type flag = IMPROVE_TYPE_DEFAULT →
  (∀ f, f ∈ flags → improve_type f = IMPROVE_TYPE_INCOMPLETE) →
  c = true.
Proof.
  intros [Hin|Hin]%elem_of_app Ht Hfl.
  - destruct c; [done|]. by apply elem_of_nil in Hin.
  - apply Hfl in Hin. rewrite Hin in Ht. discriminate.
Qed.

(** Which flags an examined state has. *)
Lemma flags_of_state_spec exploration_id exploration sid flags :
  flags_of_state exploration_id exploration sid = Ok (Some flags) →
  ((∃ flag, flag ∈ flags ∧ improve_type flag = IMPROVE_TYPE_DEFAULT) ↔
   meets_default_threshold exploration_id exploration sid) ∧
  ((∃ flag, flag ∈ flags ∧ improve_type flag = IMPROVE_TYPE_INCOMPLETE) ↔
   meets_incomplete_threshold exploration_id sid).
Proof.
  intros [_ Hfl]%flags_of_state_examined.
  apply eligible_flags_cases in Hfl.
  unfold meets_default_threshold, meets_incomplete_threshold,
    default_dest_is_self.
  set (d := default_count_of exploration sid) in *.
  set (state_counts := StateCounter_get exploration_id sid) in *.
  set (state := get_state_by_id exploration sid) in *.
  set (incomplete := if exceeds_20_percent (no_answer_count state_counts) _
                     then _ else _) in Hfl.
  assert (Hinc : ∀ f, f ∈ incomplete → improve_type f = IMPROVE_TYPE_INCOMPLETE).
  { intros f. unfold incomplete.
    destruct (exceeds_20_percent (no_answer_count _) _);
      [by intros ->%list_elem_of_singleton|by intros ?%elem_of_nil]. }
  split; split.
  - intros (flag & Hin & Ht). subst flags.
    destruct (exceeds_20_percent d _) eqn:Hd.
    + split; [done|].
      destruct (handlers (state_widget state)) as [|h rest].
      * apply Hinc in Hin. rewrite Hin in Ht. discriminate.
      * exists h, rest. split; [done|].
        by eapply default_flag_elem.
    + apply Hinc in Hin. rewrite Hin in Ht. discriminate.
  - intros [Hd (h & rest & Hh & Hdest)]. subst flags.
    rewrite Hd, Hh, Hdest. eexists. split; [by left|done].
  - intros (flag & Hin & Ht). subst flags.
    apply elem_of_app in Hin as [Hin|Hin].
    + repeat case_match; try (by apply elem_of_nil in Hin);
        apply list_elem_of_singleton in Hin; subst flag; discriminate.
    + unfold incomplete in Hin.
      destruct (exceeds_20_percent (no_answer_count _) _);
        [done|by apply elem_of_nil in Hin].
  - intros Hn. subst flags. unfold incomplete. rewrite Hn.
    eexists. split; [apply elem_of_app; right; by left|done].
Qed.

(** The entry appended for a state carries its ids and its first flag. *)
Lemma rank_state_fields exploration_id exploration sid e :
  rank_state exploration_id exploration sid = Ok (Some e) →
  ∃ flags,
    flags_of_state exploration_id exploration sid = Ok (Some flags) ∧
    r_exp_id e = exploration_id ∧ r_state_id e = sid ∧
    (rank e, r_type e) = top_flag flags.
Proof.
  unfold rank_state.
  destruct (flags_of_state _ _ _) as [[fl|]|err]; simpl; try done.
  destruct (top_flag fl) as [r t] eqn:Htop. intros [= <-]. simpl.
  by exists fl.
Qed.

Lemma top_flag_nonzero flags :
  (top_flag flags).1 ≠ 0%Z → ∃ flag, flag ∈ flags.
Proof. destruct flags as [|f fl]; simpl; [done|]. intros _. exists f. by left. Qed.

(** An entry with a nonzero rank comes from a state with a flag. *)
Lemma rank_state_flagged exploration_id exploration sid e :
  rank_state exploration_id exploration sid = Ok (Some e) →
  rank e ≠ 0%Z →
  meets_default_threshold exploration_id exploration sid ∨
  meets_incomplete_threshold exploration_id sid.
Proof.
  intros (flags & Hfl & _ & _ & Htop)%rank_state_fields Hrank.
  destruct (top_flag_nonzero flags) as [flag Hin].
  { by rewrite <- Htop. }
  destruct (flags_of_state_spec _ _ _ _ Hfl) as [Hd Hi].
  pose proof Hfl as [_ Hel%eligible_flags_cases]%flags_of_state_examined.
  rewrite Hel in Hin. apply elem_of_app in Hin as [Hin|Hin].
  - left. apply Hd. exists flag. split; [by rewrite Hel; apply elem_of_app; left|].
    repeat case_match; try (by apply elem_of_nil in Hin);
      by apply list_elem_of_singleton in Hin; subst flag.
  - right. apply Hi. exists flag. split; [by rewrite Hel; apply elem_of_app; right|].
    repeat case_match; try (by apply elem_of_nil in Hin);
      by apply list_elem_of_singleton in Hin; subst flag.
Qed.

Lemma rank_states_flagged exploration_ids ranked_states :
  rank_states exploration_ids = Ok ranked_states →
  Forall (λ e, rank e ≠ 0%Z → meets_a_threshold e) ranked_states.
Proof.
  unfold rank_states. apply for_list_invariant; [|constructor].
  intros exploration_id t t' _ Ht.
  apply for_list_invariant; [|done].
  intros sid u u' _ Hu.
  destruct (rank_state _ _ _) as [[e|]|err] eqn:He; simpl; try done;
    intros [= <-]; [|done].
  apply Forall_app. split; [done|]. constructor; [|constructor].
  intros Hrank. unfold meets_a_threshold.
  pose proof He as (_ & _ & -> & -> & _)%rank_state_fields.
  by eapply rank_state_flagged.
Qed.

(** The two loops return when [handlers[0]] can be read in every state. *)
Lemma rank_states_returns exploration_ids :
  visited_states_have_handler exploration_ids →
  ∃ ranked_states, rank_states exploration_ids = Ok ranked_states.
Proof.
  intros Hh. unfold rank_states. apply for_list_returns.
  intros exploration_id t Hin. apply for_list_returns.
  intros sid u Hsid. unfold rank_state.
  destruct (flags_of_state_returns exploration_id
              (Exploration_get exploration_id) sid) as [[fl|] ->];
    [by apply Hh| |]; simpl; [|by eexists].
  destruct (top_flag fl). by eexists.
Qed.

(** Lines 188-192: the result is a slice of the sorted problem states. *)
Lemma get_top_improvable_states_result exploration_ids N l :
  get_top_improvable_states exploration_ids N = Ok l →
  ∃ ranked_states,
    rank_states exploration_ids = Ok ranked_states ∧
    l = take N (sorted_reverse rank
                  (filter (λ state, rank state ≠ 0%Z) ranked_states)).
Proof.
  unfold get_top_improvable_states.
  destruct (rank_states exploration_ids) as [ranked|e]; simpl; [|done].
  intros [= <-]. by exists ranked.
Qed.

Lemma elem_of_problem_states (e : RankedState) N ranked_states :
  e ∈ take N (sorted_reverse rank
                (filter (λ state, rank state ≠ 0%Z) ranked_states)) →
  e ∈ ranked_states ∧ rank e ≠ 0%Z.
Proof.
  intros (i & Hi%list_elem_of_lookup_2 & _)%elem_of_take.
  rewrite sorted_reverse_perm in Hi.
  rename Hi into Hin.
  by apply list_elem_of_filter in Hin as [? ?].
Qed.

(** C1.  For every list of exploration ids and every natural number [N]:
    whenever [get_top_improvable_states] returns a list, the list has at most
    [N] entries, every entry has a nonzero rank, and the ranks are in
    non-increasing order; and it does return a list when every state it
    visits has a handler (the only exception the function itself can raise
    is the [IndexError] of [handlers[0]]). *)
Theorem get_top_improvable_states_top_n exploration_ids N :
  (∀ l, get_top_improvable_states exploration_ids N = Ok l →
     length l ≤ N ∧
     Forall (λ e, rank e ≠ 0%Z) l ∧
     StronglySorted (desc rank) l) ∧
  (visited_states_have_handler exploration_ids →
   ∃ l, get_top_improvable_states exploration_ids N = Ok l).
Proof.
  split.
  - intros l (ranked & _ & ->)%get_top_improvable_states_result.
    split; [rewrite length_take; lia|]. split.
    + apply Forall_forall. intros e He.
      by apply elem_of_problem_states in He as [_ ?].
    + apply StronglySorted_take, sorted_reverse_sorted.
  - intros [ranked Hr]%rank_states_returns.
    unfold get_top_improvable_states. rewrite Hr. simpl. by eexists.
Qed.

(** C2, amended.  A state whose total entry count is nonzero and whose
    widget has a handler receives the flag [IMPROVE_TYPE_DEFAULT] exactly
    when its default-rule answer count exceeds 0.2 times its total entry
    count and the default rule's destination is the state itself, and the
    flag [IMPROVE_TYPE_INCOMPLETE] exactly when its no-answer count exceeds
    0.2 times its total entry count; a state whose total entry count is zero
    is skipped and receives no flag; and every returned entry belongs to a
    state that meets one of the two conditions. *)
Theorem improvable_flags_by_threshold :
  (∀ exploration_id exploration sid,
     total_entry_count (StateCounter_get exploration_id sid) ≠ 0%Z →
     has_first_handler exploration sid →
     flagged_by_threshold_only exploration_id exploration sid) ∧
  (∀ exploration_id exploration sid type,
     total_entry_count (StateCounter_get exploration_id sid) = 0%Z →
     ¬ has_flag exploration_id exploration sid type) ∧
  (∀ exploration_ids N l e,
     get_top_improvable_states exploration_ids N = Ok l →
     e ∈ l → meets_a_threshold e).
Proof.
  split; [|split].
  - intros exploration_id exploration sid Ht Hh.
    destruct (flags_of_state_returns exploration_id exploration sid Hh)
      as [[flags|] Hfl].
    2:{ unfold flags_of_state in Hfl. apply Z.eqb_neq in Ht. rewrite Ht in Hfl.
        by destruct (eligible_flags _ _ _ _). }
    destruct (flags_of_state_spec _ _ _ _ Hfl) as [Hd Hi].
    unfold flagged_by_threshold_only, has_flag. split.
    + rewrite <- Hd. split.
      * intros (fl & f & Hfl' & ? & ?). rewrite Hfl in Hfl'.
        injection Hfl' as <-. by exists f.
      * intros (f & ? & ?). by exists flags, f.
    + rewrite <- Hi. split.
      * intros (fl & f & Hfl' & ? & ?). rewrite Hfl in Hfl'.
        injection Hfl' as <-. by exists f.
      * intros (f & ? & ?). by exists flags, f.
  - intros exploration_id exploration sid type Ht (fl & f & Hfl & _).
    by rewrite flags_of_state_skipped in Hfl.
  - intros exploration_ids N l e
      (ranked & Hr%rank_states_flagged & ->)%get_top_improvable_states_result
      [Hin Hrank]%elem_of_problem_states.
    rewrite Forall_forall in Hr. by apply Hr.
Qed.

(** C9.  When a ranked state satisfies both the default-rule threshold and
    the no-answer threshold, its reported rank is the maximum of the
    default-rule answer count and the no-answer count; when the two counts
    are equal the reported type is [IMPROVE_TYPE_DEFAULT], and in general the
    type is that of the larger count, the default flag winning ties. *)
Theorem top_flag_of_doubly_flagged_state exploration_id exploration sid e :
  rank_state exploration_id exploration sid = Ok (Some e) →
  meets_default_threshold exploration_id exploration sid →
  meets_incomplete_threshold exploration_id sid →
  let default_count := default_count_of exploration sid in
  let no_answer_submitted_count :=
    no_answer_count (StateCounter_get exploration_id sid) in
  rank e = Z.max default_count no_answer_submitted_count ∧
  (default_count = no_answer_submitted_count → r_type e = IMPROVE_TYPE_DEFAULT) ∧
  r_type e = (if (default_count <? no_answer_submitted_count)%Z
              then IMPROVE_TYPE_INCOMPLETE else IMPROVE_TYPE_DEFAULT).
Proof.
  intros (flags & Hfl & _ & _ & Htop)%rank_state_fields
    [Hd (h & rest & Hh & Hdest)] Hn. simpl.
  apply flags_of_state_examined in Hfl as [_ Hel%eligible_flags_cases].
  unfold meets_incomplete_threshold in Hn. simpl in Hn.
  rewrite Hd, Hh, Hdest, Hn in Hel. simpl in Hel. subst flags.
  rewrite top_flag_sorted2 in Htop. injection Htop as -> ->.
  split; [done|]. split; [|done].
  intros ->. by rewrite Z.ltb_irrefl.
Qed.

End stats_facts.

Section export_facts.
Context `{StatsDomain}.

(** [answers] has an entry with the state's name for every state id. *)
Lemma collect_answers_lookup exploration_id exploration sid :
  state_ids_coherent exploration →
  sid ∈ state_ids exploration →
  ∃ entry, collect_answers exploration_id exploration !! sid = Some entry ∧
    sa_name entry = state_name (get_state_by_id exploration sid).
Proof.
  intros Hc Hin. eexists. split.
  - unfold collect_answers.
    apply (foldl_insert_hit (λ sid, state_id (get_state_by_id exploration sid))
             (λ sid, mkStateAnswers (state_name (get_state_by_id exploration sid))
                       (rules_of_state exploration_id
                          (get_state_by_id exploration sid)))).
    + intros x Hx Hk. rewrite Hc in Hk by done. by subst x.
    + right. exists sid. split; [done|]. by apply Hc.
  - done.
Qed.

(** [answers] has no other keys. *)
Lemma collect_answers_dom exploration_id exploration sid :
  state_ids_coherent exploration →
  is_Some (collect_answers exploration_id exploration !! sid) →
  sid ∈ state_ids exploration.
Proof.
  intros Hc Hsome. destruct (decide (sid ∈ state_ids exploration)); [done|].
  unfold collect_answers in Hsome.
  rewrite (foldl_insert_miss
             (λ sid, state_id (get_state_by_id exploration sid))) in Hsome.
  - rewrite lookup_empty in Hsome. by destruct Hsome.
  - intros x Hx Hk. rewrite Hc in Hk by done. by subst x.
Qed.

(** [state_counts] has the name and the count of every state id. *)
Lemma collect_state_counts_lookup exploration_id exploration sid :
  sid ∈ state_ids exploration →
  collect_state_counts exploration_id exploration !! sid =
    Some (state_name (get_state_by_id exploration sid),
          total_entry_count (StateCounter_get exploration_id sid)).
Proof.
  intros Hin. unfold collect_state_counts.
  apply (foldl_insert_hit (λ sid : string, sid)
           (λ sid, (state_name (get_state_by_id exploration sid),
                    total_entry_count (StateCounter_get exploration_id sid)))).
  - by intros x _ ->.
  - right. by exists sid.
Qed.

(** The entry of [state_stats] takes its name from [answers] and its count
    from [state_counts]. *)
Lemma state_stats_entry_fields state_counts sid entry name count :
  state_counts !! sid = Some (name, count) →
  ∃ n, state_stats_entry state_counts sid entry = Ok n ∧
       ss_name n = sa_name entry ∧ ss_count n = count.
Proof.
  intros Hc. unfold state_stats_entry, dict_item. rewrite Hc. simpl.
  destruct (rule_stats_of _ _). by eexists.
Qed.

(** C7.  When looking up a state by id gives the state with that id,
    [export_exploration_stats_to_dict] returns a dict whose [num_visits] is
    the first-entry count of the initial state's counter, whose
    [num_completions] is the first-entry count of the [END_DEST] counter, and
    whose [state_stats] has exactly one entry per state id of the
    exploration, with that state's name and total entry count. *)
Theorem export_exploration_stats_to_dict_spec exploration_id :
  let exploration := Exploration_get exploration_id in
  state_ids_coherent exploration →
  ∃ stats,
    export_exploration_stats_to_dict exploration_id = Ok stats ∧
    num_visits stats =
      first_entry_count
        (StateCounter_get exploration_id (init_state_id exploration)) ∧
    num_completions stats =
      first_entry_count (StateCounter_get exploration_id END_DEST) ∧
    (∀ sid, is_Some (state_stats stats !! sid) ↔
            sid ∈ state_ids exploration) ∧
    (∀ sid, sid ∈ state_ids exploration →
       ∃ entry, state_stats stats !! sid = Some entry ∧
         ss_name entry = state_name (get_state_by_id exploration sid) ∧
         ss_count entry =
           total_entry_count (StateCounter_get exploration_id sid)).
Proof.
  intros exploration Hc. unfold export_exploration_stats_to_dict.
  fold exploration.
  set (answers := collect_answers exploration_id exploration).
  set (state_counts := collect_state_counts exploration_id exploration).
  assert (Hbody : ∀ sid entry (acc : gmap string StateStats),
    (stats ← state_stats_entry state_counts sid entry;
     Ok (<[sid := stats]> acc)) =
    (n ← state_stats_entry state_counts sid entry; Ok (<[sid := n]> acc)))
    by done.
  destruct (for_dict_insert_returns (state_stats_entry state_counts) _
              Hbody answers ∅) as [stats Hstats].
  { intros sid entry Hsid.
    assert (Hin : sid ∈ state_ids exploration).
    { eapply collect_answers_dom; [done|]. by eexists. }
    destruct (state_stats_entry_fields state_counts sid entry _ _
                (collect_state_counts_lookup exploration_id exploration sid Hin))
      as (n & Hn & _).
    by exists n. }
  unfold collect_state_stats. rewrite Hstats. simpl.
  eexists. split; [done|]. simpl.
  apply (for_dict_insert_lookup _ _ Hbody) in Hstats as [Hhit Hmiss].
  split; [done|]. split; [done|].
  assert (Hentry : ∀ sid, sid ∈ state_ids exploration →
    ∃ entry, stats !! sid = Some entry ∧
      ss_name entry = state_name (get_state_by_id exploration sid) ∧
      ss_count entry = total_entry_count (StateCounter_get exploration_id sid)).
  { intros sid Hin.
    destruct (collect_answers_lookup exploration_id exploration sid Hc Hin)
      as (a & Ha & Hname).
    destruct (Hhit sid a Ha) as (n & Hn & Hlook).
    destruct (state_stats_entry_fields state_counts sid a _ _
                (collect_state_counts_lookup exploration_id exploration sid Hin))
      as (n' & Hn' & Hn1 & Hn2).
    rewrite Hn in Hn'. injection Hn' as <-.
    exists n. by rewrite Hn1, Hname. }
  split; [|done].
  intros sid. split.
  - intros Hsome.
    destruct (answers !! sid) as [a|] eqn:Ha.
    + eapply collect_answers_dom; [done|]. by eexists.
    + rewrite Hmiss, lookup_empty in Hsome by done. by destruct Hsome.
  - intros Hin. destruct (Hentry sid Hin) as (n & -> & _). by eexists.
Qed.

End export_facts.

(** ** Handlers *)

Section wp_rules.
Context {S : Type}.

(** Rules for the outcome of a computation, one per construct. *)
Lemma wp_ret {A} (a : A) (Q : S → Result A → Prop) s :
  Q s (Ok a) → wp (mret a) Q s.
Proof. done. Qed.

Lemma wp_bind {A B} (m : Py S A) (f : A → Py S B) (Q : S → Result B → Prop) s :
  wp m (λ s' r, match r with
                | Ok a => wp (f a) Q s'
                | Raise e => Q s' (Raise e)
                end) s →
  wp (m ≫= f) Q s.
Proof.
  unfold wp, mbind, Py_bind. by destruct (m s) as [s' [a|e]].
Qed.

Lemma wp_raise {A} e (Q : S → Result A → Prop) s :
  Q s (Raise e) → wp (raise e) Q s.
Proof. done. Qed.

Lemma wp_lift {A} (r : Result A) (Q : S → Result A → Prop) s :
  Q s r → wp (lift r) Q s.
Proof. done. Qed.

Lemma wp_when (c : bool) (body : Py S unit) (Q : S → Result unit → Prop) s :
  (c = true → wp body Q s) → (c = false → Q s (Ok tt)) →
  wp (when c body) Q s.
Proof. unfold when. destruct c; intros Ht Hf; [by apply Ht|by apply Hf]. Qed.

Lemma wp_mono {A} (m : Py S A) (Q Q' : S → Result A → Prop) s :
  wp m Q s → (∀ s' r, Q s' r → Q' s' r) → wp m Q' s.
Proof. unfold wp. auto. Qed.

End wp_rules.

Section wp_stored.
Context {A : Type}.

Lemma wp_update (f : A → A) (Q : Stored A → Result unit → Prop) w :
  Q (mkStored (f (entity w)) (persisted w) (put_calls w)) (Ok tt) →
  wp (update f) Q w.
Proof. done. Qed.

Lemma wp_self_entity (Q : Stored A → Result A → Prop) w :
  Q w (Ok (entity w)) → wp self_entity Q w.
Proof. done. Qed.

Lemma wp_put (Q : Stored A → Result unit → Prop) w :
  Q (mkStored (entity w) (entity w) (S (put_calls w))) (Ok tt) →
  wp put Q w.
Proof. done. Qed.
End wp_stored.

Section editor_facts.
Context `{EditorDeps}.

(** The loop of lines 159-160 adds the editors one by one and touches
    nothing else. *)
Lemma add_editors_outcome (P : Exploration → Prop) emails :
  (∀ e l, P e → P (set_editor_ids l e)) →
  ∀ w, P (entity w) →
  wp (for_each emails (λ email,
        update (λ e, set_editor_ids (add_editor (editor_ids e) email) e)))
     (λ w' r, r = Ok tt ∧ untouched w w' ∧ P (entity w') ∧
        editor_ids (entity w') =
          foldl add_editor (editor_ids (entity w)) emails) w.
Proof.
  intros HP. induction emails as [|email emails IH]; intros w Hw; simpl.
  - by apply wp_ret.
  - apply wp_bind, wp_update.
    eapply wp_mono; [apply IH; simpl; by apply HP|].
    simpl. intros w' r (-> & [Hp Hc] & HP' & Heds). done.
Qed.

(** Lines 147-154 never raise, leave the datastore alone, and assign
    [is_public] and [image_id] as the payload says. *)
Lemma assign_properties_outcome payload w :
  wp (assign_properties payload)
     (λ w' r, r = Ok tt ∧ untouched w w' ∧
        is_public (entity w') =
          truthy (dict_get payload "is_public") || is_public (entity w) ∧
        image_id (entity w') =
          assigned_image_id payload (image_id (entity w)) ∧
        editor_ids (entity w') = editor_ids (entity w)) w.
Proof.
  unfold wp, assign_properties, assigned_image_id, dict_get, untouched.
  destruct (payload !! "image_id") as [v|]; simpl;
    destruct (truthy (default PNone (payload !! "is_public")));
    destruct (truthy (default PNone (payload !! "category")));
    destruct (truthy (default PNone (payload !! "title")));
    simpl. all: done.
Qed.

(** Lines 155-163 replace the editors for the owner and refuse anyone else. *)
Lemma replace_editors_outcome user_id editors w :
  wp (replace_editors user_id editors)
     (λ w' r, untouched w w' ∧
        is_public (entity w') = is_public (entity w) ∧
        image_id (entity w') = image_id (entity w) ∧
        (is_owner user_id (entity w) = false →
           editor_ids (entity w') = editor_ids (entity w) ∧
           (truthy editors = true → r = Raise unauthorized)) ∧
        (is_owner user_id (entity w) = true → truthy editors = true →
         ∀ emails, py_iter editors = Ok emails →
           r = Ok tt ∧
           editor_ids (entity w') = foldl add_editor [] emails)) w.
Proof.
  unfold replace_editors, untouched. apply wp_when; intros Hed.
  { apply wp_bind, wp_self_entity.
    destruct (is_owner user_id (entity w)) eqn:Hown.
    - apply wp_bind, wp_update. apply wp_bind, wp_lift.
      destruct (py_iter editors) as [emails|e]; [|done].
      eapply wp_mono.
      + apply (add_editors_outcome
                 (λ e, is_public e = is_public (entity w) ∧
                       image_id e = image_id (entity w))); [done|done].
      + simpl. intros w' r (-> & [Hp Hc] & [Hpub Himg] & Heds).
        split; [done|]. split; [done|]. split; [done|]. split; [done|].
        intros _ _ emails' [= <-]. done.
    - apply wp_raise. split; [done|]. split; [done|]. split; [done|].
      split; [done|]. discriminate. }
  split; [done|]. split; [done|]. split; [done|]. split.
  - intros _. split; [done|]. congruence.
  - congruence.
Qed.

(** Lines 164-170 only assign [parameters]. *)
Lemma replace_parameters_outcome parameters w :
  wp (replace_parameters parameters)
     (λ w' r, untouched w w' ∧
        is_public (entity w') = is_public (entity w) ∧
        image_id (entity w') = image_id (entity w) ∧
        editor_ids (entity w') = editor_ids (entity w)) w.
Proof.
  unfold replace_parameters, untouched. apply wp_when; intros Hp; [|done].
  apply wp_bind, wp_lift. destruct (py_iter parameters) as [items|e]; [|done].
  apply wp_bind, wp_lift.
  destruct (comprehension parameter_of_item items) as [ps|e]; [|done].
  by apply wp_update.
Qed.

(** What a put request does to the exploration and to the datastore. *)
Lemma ExplorationHandler_put_outcome user_id payload w :
  wp (ExplorationHandler_put user_id payload)
     (λ w' r,
        is_public (entity w') =
          truthy (dict_get payload "is_public") || is_public (entity w) ∧
        image_id (entity w') =
          assigned_image_id payload (image_id (entity w)) ∧
        (is_owner user_id (entity w) = false →
           editor_ids (entity w') = editor_ids (entity w) ∧
           (truthy (dict_get payload "editors") = true →
            r = Raise unauthorized)) ∧
        (is_owner user_id (entity w) = true →
         truthy (dict_get payload "editors") = true →
         ∀ emails, py_iter (dict_get payload "editors") = Ok emails →
           editor_ids (entity w') = foldl add_editor [] emails) ∧
        match r with
        | Ok _ => persisted w' = entity w' ∧ put_calls w' = S (put_calls w)
        | Raise _ => untouched w w'
        end) w.
Proof.
  unfold ExplorationHandler_put. apply wp_bind.
  eapply wp_mono; [apply assign_properties_outcome|].
  intros w1 r (-> & [Hp1 Hc1] & Hpub1 & Himg1 & Hed1).
  apply wp_bind. eapply wp_mono; [apply replace_editors_outcome|].
  intros w2 r2 ([Hp2 Hc2] & Hpub2 & Himg2 & Hother & Hdone).
  assert (Hown : is_owner user_id (entity w1) = is_owner user_id (entity w)).
  { unfold is_owner. by rewrite Hed1. }
  rewrite Hown in Hother, Hdone.
  destruct r2 as [[]|e].
  - apply wp_bind. eapply wp_mono; [apply replace_parameters_outcome|].
    intros w3 r3 ([Hp3 Hc3] & Hpub3 & Himg3 & Hed3).
    assert (Hrest :
      is_public (entity w3) =
        truthy (dict_get payload "is_public") || is_public (entity w) ∧
      image_id (entity w3) = assigned_image_id payload (image_id (entity w)) ∧
      (is_owner user_id (entity w) = false →
         editor_ids (entity w3) = editor_ids (entity w) ∧
         truthy (dict_get payload "editors") = false) ∧
      (is_owner user_id (entity w) = true →
       truthy (dict_get payload "editors") = true →
       ∀ emails, py_iter (dict_get payload "editors") = Ok emails →
         editor_ids (entity w3) = foldl add_editor [] emails)).
    { split; [congruence|]. split; [congruence|]. split.
      - intros Hn. destruct (Hother Hn) as [He Hr]. split; [congruence|].
        destruct (truthy (dict_get payload "editors")); [|done].
        by specialize (Hr eq_refl).
      - intros Ho Ht emails Hemails.
        destruct (Hdone Ho Ht emails Hemails) as [_ He]. congruence. }
    destruct Hrest as (Hpub & Himg & Hno & Hyes).
    assert (Hno' : is_owner user_id (entity w) = false →
      editor_ids (entity w3) = editor_ids (entity w) ∧
      (truthy (dict_get payload "editors") = true →
       ∀ r' : Result unit, r' = Raise unauthorized)).
    { intros Hn. destruct (Hno Hn) as [He Hf]. split; [done|]. congruence. }
    destruct r3 as [[]|e].
    + apply wp_put. simpl. split; [done|]. split; [done|]. split.
      * intros Hn. destruct (Hno' Hn) as [He Hr]. split; [done|].
        intros Ht. by apply Hr.
      * split; [done|]. split; [done|]. congruence.
    + split; [done|]. split; [done|]. split.
      * intros Hn. destruct (Hno' Hn) as [He Hr]. split; [done|].
        intros Ht. by apply Hr.
      * split; [done|]. unfold untouched. split; congruence.
  - split; [congruence|]. split; [congruence|]. split.
    + intros Hn. destruct (Hother Hn) as [He Hr]. split; [congruence|done].
    + split.
      * intros Ho Ht emails Hemails.
        by destruct (Hdone Ho Ht emails Hemails) as [? _].
      * unfold untouched. split; congruence.
Qed.

(** C6.  In [ExplorationHandler.put] the editors list of the exploration
    changes only when the requesting user is the first entry of
    [editor_ids]; for any other requester whose payload has a truthy
    ['editors'], [UnauthorizedUserException] is raised, the datastore copy
    stays as it was and [exploration.put()] is not called; for the first
    entry, the list becomes the editors added one by one to the empty list. *)
Theorem ExplorationHandler_put_editors_owner_only user_id payload w :
  let outcome := ExplorationHandler_put user_id payload w in
  (editor_ids (entity outcome.1) ≠ editor_ids (entity w) →
   is_owner user_id (entity w) = true) ∧
  (is_owner user_id (entity w) = false →
   truthy (dict_get payload "editors") = true →
   outcome.2 = Raise unauthorized ∧
   persisted outcome.1 = persisted w ∧
   put_calls outcome.1 = put_calls w) ∧
  (is_owner user_id (entity w) = true →
   truthy (dict_get payload "editors") = true →
   ∀ emails, py_iter (dict_get payload "editors") = Ok emails →
     editor_ids (entity outcome.1) = foldl add_editor [] emails).
Proof.
  pose proof (ExplorationHandler_put_outcome user_id payload w)
    as (_ & _ & Hother & Hdone & Hput).
  simpl. split; [|split].
  - intros Hne. destruct (is_owner user_id (entity w)); [done|].
    by destruct Hother as [? _].
  - intros Hown Ht. destruct (Hother Hown) as [_ Hr]. specialize (Hr Ht).
    rewrite Hr in Hput. by destruct Hput.
  - exact Hdone.
Qed.

(** One put request keeps a public exploration public. *)
Lemma serve_put_is_public db request :
  is_public db = true → is_public (serve_put db request) = true.
Proof.
  intros Hdb. unfold serve_put.
  pose proof (ExplorationHandler_put_outcome request.1 request.2 (load db))
    as (Hpub & _ & _ & _ & Hput).
  destruct (ExplorationHandler_put _ _ _) as [w' [[]|e]]; simpl in *.
  - destruct Hput as [-> _]. rewrite Hpub, Hdb. apply orb_true_r.
  - by destruct Hput as [-> _].
Qed.

(** C8.  [ExplorationHandler.put] sets [is_public] to [True] when the
    payload's ['is_public'] is truthy and leaves it unchanged otherwise (the
    datastore copy is the entity when the request succeeds and is unchanged
    when it raises); so after any sequence of put requests a public
    exploration is still public. *)
Theorem ExplorationHandler_put_never_unpublishes :
  (∀ user_id payload w,
     let outcome := ExplorationHandler_put user_id payload w in
     is_public (entity outcome.1) =
       (if truthy (dict_get payload "is_public") then true
        else is_public (entity w)) ∧
     (outcome.2 = Ok tt → persisted outcome.1 = entity outcome.1) ∧
     (outcome.2 ≠ Ok tt → persisted outcome.1 = persisted w)) ∧
  (∀ db requests,
     is_public db = true → is_public (serve_puts db requests) = true).
Proof.
  split.
  - intros user_id payload w.
    pose proof (ExplorationHandler_put_outcome user_id payload w)
      as (Hpub & _ & _ & _ & Hput).
    simpl. split; [|split].
    + rewrite Hpub. by destruct (truthy _).
    + intros Hr. rewrite Hr in Hput. by destruct Hput.
    + intros Hr. destruct (ExplorationHandler_put _ _ _).2 as [[]|e];
        [done|by destruct Hput].
  - intros db requests. unfold serve_puts. revert db.
    induction requests as [|request requests IH]; intros db Hdb; simpl;
      [done|].
    by apply IH, serve_put_is_public.
Qed.

(** C10.  [ExplorationHandler.put] changes [image_id] only when the payload
    has the key ['image_id']: then the field is [None] if the value is the
    string ['null'] and the value itself otherwise; without the key the field
    is unchanged, on the entity and in the datastore. *)
Theorem ExplorationHandler_put_image_id user_id payload w :
  let outcome := ExplorationHandler_put user_id payload w in
  image_id (entity outcome.1) =
    match payload !! "image_id" with
    | None => image_id (entity w)
    | Some v => if py_eq_str v "null" then PNone else v
    end ∧
  (outcome.2 = Ok tt → image_id (persisted outcome.1) =
                        image_id (entity outcome.1)) ∧
  (payload !! "image_id" = None → persisted w = entity w →
   image_id (persisted outcome.1) = image_id (persisted w)).
Proof.
  pose proof (ExplorationHandler_put_outcome user_id payload w)
    as (_ & Himg & _ & _ & Hput).
  simpl. split; [exact Himg|]. split.
  - intros Hr. rewrite Hr in Hput. destruct Hput as [-> _]. done.
  - intros Hnone Hw. unfold assigned_image_id in Himg. rewrite Hnone in Himg.
    destruct (ExplorationHandler_put _ _ _).2 as [[]|e].
    + destruct Hput as [-> _]. by rewrite Himg, Hw.
    + by destruct Hput as [-> _].
Qed.

(** An absent or empty value is falsy; a truthy value is present. *)
Lemma lacks_or_empty_falsy payload key :
  lacks_or_empty payload key → truthy (dict_get payload key) = false.
Proof. unfold dict_get, lacks_or_empty. by intros [-> | ->]. Qed.

Lemma truthy_present payload key :
  truthy (dict_get payload key) = true → ¬ lacks payload key.
Proof. unfold dict_get, lacks. intros Ht Hl. by rewrite Hl in Ht. Qed.

(** C5, amended.  [NewExploration.post] validates before it creates
    anything: a request whose title is absent or empty (or otherwise falsy)
    raises [InvalidInputException('No title supplied.')]; a request whose
    title is truthy and whose category is absent or empty (or otherwise
    falsy) raises [InvalidInputException('No category chosen.')]; in both
    cases the datastore is left as it was; and exactly when both are truthy
    an exploration is created and its id returned as ['explorationId']. *)
Theorem NewExploration_post_validates user_id payload yaml_content db :
  let title := dict_get payload "title" in
  let category := dict_get payload "category" in
  let outcome := NewExploration_post user_id payload yaml_content db in
  (lacks_or_empty payload "title" → outcome = (db, Raise no_title)) ∧
  (truthy title = true → lacks_or_empty payload "category" →
   outcome = (db, Raise no_category)) ∧
  (truthy title = false → outcome = (db, Raise no_title)) ∧
  (truthy title = true → truthy category = false →
   outcome = (db, Raise no_category)) ∧
  (truthy title = true → truthy category = true →
   let created := create_exploration user_id title category yaml_content db in
   outcome = (created.2, Ok {[ "explorationId" := PStr created.1 ]})) ∧
  (∀ response, outcome.2 = Ok response →
     ¬ lacks payload "title" ∧ ¬ lacks payload "category" ∧
     truthy title = true ∧ truthy category = true).
Proof.
  simpl.
  assert (Hno_title : truthy (dict_get payload "title") = false →
    NewExploration_post user_id payload yaml_content db = (db, Raise no_title)).
  { intros Ht. unfold NewExploration_post. by rewrite Ht. }
  assert (Hno_cat : truthy (dict_get payload "title") = true →
    truthy (dict_get payload "category") = false →
    NewExploration_post user_id payload yaml_content db =
      (db, Raise no_category)).
  { intros Ht Hc. unfold NewExploration_post. by rewrite Ht, Hc. }
  split; [by intros ?%lacks_or_empty_falsy; apply Hno_title|].
  split; [by intros ? ?%lacks_or_empty_falsy; apply Hno_cat|].
  split; [done|]. split; [done|]. split.
  - intros Ht Hc. unfold NewExploration_post, create_exploration.
    rewrite Ht, Hc. simpl. unfold mbind, Py_bind, call. simpl.
    destruct (negb _ && _);
      [by destruct (create_from_yaml _ _ _ _ db)
      |by destruct (create_new _ _ _ db)].
  - intros response Hr.
    destruct (truthy (dict_get payload "title")) eqn:Ht.
    2:{ by rewrite Hno_title in Hr. }
    destruct (truthy (dict_get payload "category")) eqn:Hc.
    2:{ by rewrite Hno_cat in Hr. }
    by repeat split; try apply truthy_present.
Qed.

End editor_facts.

Section rules_facts.
Context `{EditorDeps}.

(** Lines 264-279 for one parameter, by cases on the value to store. *)
Lemma normalize_param_cases matched_rule param_name value :
  normalize_param matched_rule param_name value =
    if is_None (normalized_value matched_rule param_name value)
    then Raise (InvalidInputException
                  (wrong_type_message value
                     (get_obj_type_for_param_name matched_rule param_name)))
    else Ok (normalized_value matched_rule param_name value).
Proof.
  unfold normalize_param, normalized_value. by destruct (is_template value).
Qed.

(** When the loop over the inputs returns, every input holds its normalized
    value. *)
Lemma normalize_inputs_ok matched_rule inputs inputs' :
  normalize_inputs matched_rule inputs = Ok inputs' →
  ∀ param_name,
    inputs' !! param_name =
      normalized_value matched_rule param_name <$> inputs !! param_name.
Proof.
  intros Hrun param_name. unfold normalize_inputs in Hrun.
  eapply (for_dict_insert_lookup (normalize_param matched_rule)) in Hrun
    as [Hhit Hmiss]; [|done].
  destruct (inputs !! param_name) as [value|] eqn:Hv; simpl.
  - destruct (Hhit _ _ Hv) as (n & Hn & ->).
    rewrite normalize_param_cases in Hn. by destruct (is_None _); simplify_eq.
  - by rewrite Hmiss.
Qed.

(** The loop returns when no value normalizes to [None]. *)
Lemma normalize_inputs_returns matched_rule inputs :
  (∀ param_name value, inputs !! param_name = Some value →
     is_None (normalized_value matched_rule param_name value) = false) →
  ∃ inputs', normalize_inputs matched_rule inputs = Ok inputs'.
Proof.
  intros Hall. unfold normalize_inputs.
  eapply (for_dict_insert_returns (normalize_param matched_rule)); [done|].
  intros k v Hk. rewrite normalize_param_cases, (Hall _ _ Hk). by eexists.
Qed.

(** The loop raises [InvalidInputException] when some value normalizes to
    [None]. *)
Lemma normalize_inputs_raises matched_rule inputs :
  (∃ param_name value, inputs !! param_name = Some value ∧
     is_None (normalized_value matched_rule param_name value) = true) →
  ∃ msg, normalize_inputs matched_rule inputs = Raise (InvalidInputException msg).
Proof.
  intros (param_name & value & Hv & Hnone).
  destruct (normalize_inputs matched_rule inputs) as [inputs'|e] eqn:Hrun.
  - pose proof (normalize_inputs_ok _ _ _ Hrun param_name) as Hl.
    unfold normalize_inputs in Hrun.
    eapply (for_dict_insert_lookup (normalize_param matched_rule)) in Hrun
      as [Hhit _]; [|done].
    destruct (Hhit _ _ Hv) as (n & Hn & _).
    rewrite normalize_param_cases, Hnone in Hn. done.
  - unfold normalize_inputs in Hrun.
    eapply (for_dict_insert_raises (normalize_param matched_rule)) in Hrun
      as (k & v & _ & Hk); [|done].
    rewrite normalize_param_cases in Hk.
    destruct (is_None (normalized_value matched_rule k v)); [|done].
    injection Hk as <-. by eexists.
Qed.

(** The check of lines 253-257 on a rule described as the default rule. *)
Lemma make_rule_spec_default generic_widget n i rule :
  default_described rule →
  (S i ≠ n → make_rule_spec generic_widget n i rule = Raise invalid_ruleset) ∧
  (S i = n → misnamed rule →
   make_rule_spec generic_widget n i rule = Raise invalid_ruleset) ∧
  (S i = n → named_default rule →
   make_rule_spec generic_widget n i rule =
     Ok (mkRuleSpec (default PNone (rule_name rule)) (rule_inputs rule)
                    (rule_dest rule) (rule_feedback rule))).
Proof.
  intros (d & Hd & Hdef). unfold make_rule_spec. rewrite Hd. simpl.
  rewrite Hdef. split; [|split].
  - intros Hi. destruct (_ =? _)%Z eqn:E; [apply Z.eqb_eq in E; lia|done].
  - intros Hi (nm & Hnm & Hne).
    destruct (_ =? _)%Z eqn:E; [|done]. simpl. by rewrite Hnm; simpl; rewrite Hne.
  - intros Hi (nm & Hnm & Heq).
    destruct (_ =? _)%Z eqn:E; [|apply Z.eqb_neq in E; lia].
    simpl. by rewrite Hnm; simpl; rewrite Heq.
Qed.

(** A rule described as the default rule passes the check only in the last
    position and under the default name. *)
Lemma make_rule_spec_default_ok generic_widget n i rule spec :
  default_described rule →
  make_rule_spec generic_widget n i rule = Ok spec →
  S i = n ∧ named_default rule.
Proof.
  intros Hdef Hok.
  destruct (make_rule_spec_default generic_widget n i rule Hdef)
    as (Hnl & Hmis & _).
  destruct (decide (S i = n)) as [Hi|Hi]; [|by rewrite Hnl in Hok].
  split; [done|].
  destruct Hdef as (d & Hd & Hdef). unfold make_rule_spec in Hok.
  rewrite Hd in Hok. simpl in Hok. rewrite Hdef in Hok.
  destruct (_ =? _)%Z; simpl in Hok; [|done].
  destruct (rule_name rule) as [nm|] eqn:Hnm; simpl in Hok; [|done].
  destruct (py_eq_str nm DEFAULT_RULE_NAME) eqn:Heq; simpl in Hok; [|done].
  by exists nm.
Qed.

(** Lines 258-279 on a rule that is not described as the default rule. *)
Lemma make_rule_spec_other generic_widget n i rule inputs :
  not_default_described rule →
  rule_inputs rule = Some inputs →
  let name := default PNone (rule_name rule) in
  let matched_rule := get_rule_by_name generic_widget "submit" name in
  make_rule_spec generic_widget n i rule =
    (inputs' ← normalize_inputs matched_rule inputs;
     Ok (mkRuleSpec name (Some inputs') (rule_dest rule) (rule_feedback rule))).
Proof.
  intros (d & Hd & Hdef) Hin. unfold make_rule_spec. rewrite Hd. simpl.
  by rewrite Hdef, Hin.
Qed.

(** Line 281 appends to the rule specs of the first handler. *)
Lemma append_rule_spec_run spec (w : Stored State) handler rest :
  handlers (state_widget (entity w)) = handler :: rest →
  append_rule_spec spec w =
    (mkStored
       (set_handlers
          (mkHandler (handler_name handler) (rule_specs handler ++ [spec])
           :: rest) (entity w))
       (persisted w) (put_calls w), Ok tt).
Proof.
  intros Hh. unfold append_rule_spec, mbind, Py_bind, self_entity. simpl.
  by rewrite Hh.
Qed.

(** One iteration either appends the rule spec it built or stops with the
    state as it was. *)
Lemma process_rule_run generic_widget n i rule (w : Stored State) :
  match make_rule_spec generic_widget n i rule with
  | Ok spec =>
      ∀ handler rest,
        handlers (state_widget (entity w)) = handler :: rest →
        process_rule generic_widget n i rule w =
          (mkStored
             (set_handlers
                (mkHandler (handler_name handler)
                           (rule_specs handler ++ [spec]) :: rest) (entity w))
             (persisted w) (put_calls w), Ok tt)
  | Raise e => process_rule generic_widget n i rule w = (w, Raise e)
  end.
Proof.
  unfold process_rule.
  destruct (make_rule_spec generic_widget n i rule) as [spec|e]; [|done].
  intros handler rest Hh. unfold mbind, Py_bind, lift.
  by apply append_rule_spec_run.
Qed.

(** The loop stops at the first rule whose rule spec cannot be built. *)
Lemma process_rules_outcome generic_widget n rules :
  ∀ i (w : Stored State),
    handlers (state_widget (entity w)) ≠ [] →
    wp (process_rules generic_widget n i rules)
       (λ w' r, untouched w w' ∧
          match r with
          | Ok _ =>
              ∀ j rule, rules !! j = Some rule →
                ∃ spec, make_rule_spec generic_widget n (i + j) rule = Ok spec
          | Raise e =>
              ∃ k rule, rules !! k = Some rule ∧
                make_rule_spec generic_widget n (i + k) rule = Raise e ∧
                ∀ j r, j < k → rules !! j = Some r →
                  ∃ spec, make_rule_spec generic_widget n (i + j) r = Ok spec
          end) w.
Proof.
  induction rules as [|rule rules IH]; intros i w Hh; simpl.
  - apply wp_ret. split; [done|]. intros j r Hj. by rewrite lookup_nil in Hj.
  - apply wp_bind. unfold wp at 1.
    pose proof (process_rule_run generic_widget n i rule w) as Hrun.
    destruct (make_rule_spec generic_widget n i rule) as [spec|e] eqn:Hspec.
    + destruct (handlers (state_widget (entity w))) as [|handler rest] eqn:Hw;
        [done|].
      rewrite (Hrun handler rest eq_refl). simpl.
      eapply wp_mono; [apply IH; by simpl|].
      intros w' r [Hunt Hr]. split; [exact Hunt|].
      destruct r as [[]|e].
      * intros [|j] r Hj; simpl in Hj.
        -- injection Hj as <-. exists spec. by rewrite Nat.add_0_r.
        -- destruct (Hr j r Hj) as [s Hs]. exists s.
           by rewrite <- Nat.add_succ_comm.
      * destruct Hr as (k & r & Hk & Hfail & Hbefore).
        exists (S k), r. split; [done|]. split.
        -- by rewrite <- Nat.add_succ_comm.
        -- intros [|j] r' Hlt Hj; simpl in Hj.
           ++ injection Hj as <-. exists spec. by rewrite Nat.add_0_r.
           ++ destruct (Hbefore j r') as [s Hs]; [lia|done|].
              exists s. by rewrite <- Nat.add_succ_comm.
    + rewrite Hrun. simpl. split; [done|].
      exists 0, rule. split; [done|]. split; [by rewrite Nat.add_0_r|].
      intros j r Hlt. lia.
Qed.

(** Lines 225-232 never raise and leave the datastore alone. *)
Lemma assign_widget_properties_outcome payload (w : Stored State) :
  wp (assign_widget_properties payload)
     (λ w' r, r = Ok tt ∧ untouched w w' ∧
        widget_id (state_widget (entity w')) =
          widget_id_after payload (entity w)) w.
Proof.
  unfold wp, assign_widget_properties, widget_id_after, untouched.
  destruct (truthy (interactive_widget payload));
    destruct (is_None (interactive_params payload));
    destruct (is_None (sticky_interactive_widget payload)); done.
Qed.

(** Lines 235-281 on a ['submit'] ruleset. *)
Lemma update_rulesets_outcome rulesets ruleset (w : Stored State) :
  rulesets !! "submit" = Some ruleset →
  let cleaned := recursively_remove_key ruleset "$$hashKey" in
  let generic_widget :=
    get_widget_by_id "interactive" (widget_id (state_widget (entity w))) in
  wp (update_rulesets rulesets)
     (λ w' r, untouched w w' ∧
        match r with
        | Ok _ =>
            ∀ k rule, cleaned !! k = Some rule →
              ∃ spec, make_rule_spec generic_widget (length cleaned) k rule
                      = Ok spec
        | Raise e =>
            ∃ k rule, cleaned !! k = Some rule ∧
              make_rule_spec generic_widget (length cleaned) k rule = Raise e ∧
              rules_before_pass generic_widget cleaned k
        end) w.
Proof.
  intros Hsubmit cleaned generic_widget. unfold update_rulesets.
  apply wp_bind, wp_lift. unfold dict_item. rewrite Hsubmit.
  apply wp_bind, wp_update. apply wp_bind, wp_self_entity. simpl.
  eapply wp_mono; [by apply process_rules_outcome|].
  intros w' r [Hunt Hr]. split; [exact Hunt|]. exact Hr.
Qed.

(** What a put request with a ['submit'] ruleset does. *)
Lemma StateHandler_put_outcome payload rulesets ruleset (w : Stored State) :
  interactive_rulesets payload = Some rulesets →
  rulesets !! "submit" = Some ruleset →
  let cleaned := recursively_remove_key ruleset "$$hashKey" in
  let generic_widget :=
    get_widget_by_id "interactive" (widget_id_after payload (entity w)) in
  wp (StateHandler_put payload)
     (λ w' r,
        match r with
        | Ok _ =>
            (persisted w' = entity w' ∧ put_calls w' = S (put_calls w)) ∧
            ∀ k rule, cleaned !! k = Some rule →
              ∃ spec, make_rule_spec generic_widget (length cleaned) k rule
                      = Ok spec
        | Raise e =>
            untouched w w' ∧
            ∃ k rule, cleaned !! k = Some rule ∧
              make_rule_spec generic_widget (length cleaned) k rule = Raise e ∧
              rules_before_pass generic_widget cleaned k
        end) w.
Proof.
  intros Hrs Hsubmit cleaned generic_widget. unfold StateHandler_put.
  apply wp_bind. eapply wp_mono; [apply assign_widget_properties_outcome|].
  intros w1 r (-> & [Hp1 Hc1] & Hid). rewrite Hrs.
  apply wp_bind, wp_when.
  2:{ intros Hempty. exfalso. apply negb_false_iff, bool_decide_eq_true in Hempty.
      by rewrite Hempty, lookup_empty in Hsubmit. }
  intros _. eapply wp_mono; [by apply update_rulesets_outcome|].
  simpl. rewrite Hid. fold generic_widget cleaned.
  intros w2 r2 [[Hp2 Hc2] Hr]. destruct r2 as [[]|e].
  - apply wp_put. simpl. split; [|exact Hr]. split; [done|congruence].
  - split; [|exact Hr]. unfold untouched. split; congruence.
Qed.

(** The first rule that fails determines the exception. *)
Lemma first_failure_unique generic_widget ruleset k k' rule rule' e e' :
  ruleset !! k = Some rule → ruleset !! k' = Some rule' →
  make_rule_spec generic_widget (length ruleset) k rule = Raise e →
  make_rule_spec generic_widget (length ruleset) k' rule' = Raise e' →
  rules_before_pass generic_widget ruleset k →
  rules_before_pass generic_widget ruleset k' →
  e = e'.
Proof.
  intros Hk Hk' He He' Hb Hb'.
  destruct (Nat.lt_total k k') as [Hlt|[->|Hlt]].
  - destruct (Hb' k rule Hlt Hk) as [spec Hs]. congruence.
  - congruence.
  - destruct (Hb k' rule' Hlt Hk') as [spec Hs]. congruence.
Qed.

(** C3, amended.  In [StateHandler.put] with a ['submit'] ruleset the rules
    are processed in order.  When the loop reaches a rule whose
    ['description'] is the default rule name (every earlier rule having been
    processed without an exception), a [ValueError] is raised and nothing is
    written if the rule is not the last one of the ruleset, or if it is the
    last one and its ['name'] is present and differs from the default rule
    name.  Hence a put that succeeds has every rule so described in the last
    position and named as the default rule. *)
Theorem default_rule_must_be_last payload rulesets ruleset (w : Stored State) :
  interactive_rulesets payload = Some rulesets →
  rulesets !! "submit" = Some ruleset →
  let cleaned := recursively_remove_key ruleset "$$hashKey" in
  let generic_widget :=
    get_widget_by_id "interactive" (widget_id_after payload (entity w)) in
  let outcome := StateHandler_put payload w in
  (∀ k rule,
     cleaned !! k = Some rule → default_described rule →
     rules_before_pass generic_widget cleaned k →
     S k ≠ length cleaned ∨ misnamed rule →
     outcome.2 = Raise invalid_ruleset ∧ untouched w outcome.1) ∧
  (outcome.2 = Ok tt →
   ∀ k rule,
     cleaned !! k = Some rule → default_described rule →
     S k = length cleaned ∧ named_default rule).
Proof.
  intros Hrs Hsubmit cleaned generic_widget outcome.
  pose proof (StateHandler_put_outcome payload rulesets ruleset w Hrs Hsubmit)
    as Hout.
  unfold wp in Hout. fold cleaned generic_widget outcome in Hout.
  split.
  - intros k rule Hk Hdef Hbefore Hbad.
    assert (Hfail : make_rule_spec generic_widget (length cleaned) k rule =
                    Raise invalid_ruleset).
    { destruct (make_rule_spec_default generic_widget (length cleaned) k rule
                  Hdef) as (Hnl & Hmis & _).
      destruct (decide (S k = length cleaned)) as [Hl|Hl]; [|by apply Hnl].
      destruct Hbad as [?|Hm]; [done|by apply Hmis]. }
    destruct outcome.2 as [[]|e].
    + destruct Hout as [_ Hall]. destruct (Hall k rule Hk) as [spec Hs].
      congruence.
    + destruct Hout as [Hunt (k' & rule' & Hk' & Hfail' & Hbefore')].
      split; [|exact Hunt]. f_equal.
      exact (first_failure_unique _ _ _ _ _ _ _ _
               Hk' Hk Hfail' Hfail Hbefore' Hbefore).
  - intros Hok k rule Hk Hdef. rewrite Hok in Hout.
    destruct Hout as [_ Hall]. destruct (Hall k rule Hk) as [spec Hs].
    by eapply make_rule_spec_default_ok.
Qed.

(** C4.  Rule normalization in [StateHandler.put].  The loop over the inputs
    of a rule that is not described as the default rule stores, for every
    parameter, [param_type.normalize(value)], except that a string value
    containing both ['{{'] and ['}}'] is stored unchanged; it succeeds exactly
    when no stored value would be [None], and raises [InvalidInputException]
    otherwise.  The rule spec built from the rule carries these inputs; when
    some value normalizes to [None] the iteration raises
    [InvalidInputException] without appending the rule, and the put request
    raises without calling [state.put()]: with that exception when every
    earlier rule passes. *)
Theorem rule_inputs_normalized :
  (∀ matched_rule inputs,
     (∀ inputs', normalize_inputs matched_rule inputs = Ok inputs' →
        ∀ param_name,
          inputs' !! param_name =
            normalized_value matched_rule param_name <$> inputs !! param_name) ∧
     (¬ has_wrong_type matched_rule inputs →
        ∃ inputs', normalize_inputs matched_rule inputs = Ok inputs') ∧
     (has_wrong_type matched_rule inputs →
        ∃ msg, normalize_inputs matched_rule inputs =
                 Raise (InvalidInputException msg))) ∧
  (∀ generic_widget n i rule inputs (w : Stored State),
     not_default_described rule →
     rule_inputs rule = Some inputs →
     let matched_rule :=
       get_rule_by_name generic_widget "submit"
         (default PNone (rule_name rule)) in
     (∀ spec, make_rule_spec generic_widget n i rule = Ok spec →
        ∃ inputs', rs_inputs spec = Some inputs' ∧
          ∀ param_name,
            inputs' !! param_name =
              normalized_value matched_rule param_name <$>
                inputs !! param_name) ∧
     (has_wrong_type matched_rule inputs →
        ∃ msg, process_rule generic_widget n i rule w =
                 (w, Raise (InvalidInputException msg)))) ∧
  (∀ payload rulesets ruleset (w : Stored State) k rule inputs,
     interactive_rulesets payload = Some rulesets →
     rulesets !! "submit" = Some ruleset →
     let cleaned := recursively_remove_key ruleset "$$hashKey" in
     let generic_widget :=
       get_widget_by_id "interactive" (widget_id_after payload (entity w)) in
     let matched_rule :=
       get_rule_by_name generic_widget "submit"
         (default PNone (rule_name rule)) in
     let outcome := StateHandler_put payload w in
     cleaned !! k = Some rule →
     not_default_described rule →
     rule_inputs rule = Some inputs →
     has_wrong_type matched_rule inputs →
     ∃ e, outcome.2 = Raise e ∧ untouched w outcome.1 ∧
       (rules_before_pass generic_widget cleaned k →
        ∃ msg, e = InvalidInputException msg)).
Proof.
  assert (Hrule : ∀ generic_widget n i rule inputs,
    not_default_described rule → rule_inputs rule = Some inputs →
    has_wrong_type
      (get_rule_by_name generic_widget "submit" (default PNone (rule_name rule)))
      inputs →
    ∃ msg, make_rule_spec generic_widget n i rule =
             Raise (InvalidInputException msg)).
  { intros generic_widget n i rule inputs Hnd Hin Hwrong.
    rewrite (make_rule_spec_other _ _ _ _ _ Hnd Hin).
    destruct (normalize_inputs_raises _ _ Hwrong) as [msg ->]. by exists msg. }
  split; [|split].
  - intros matched_rule inputs. split; [apply normalize_inputs_ok|]. split.
    + intros Hnone. apply normalize_inputs_returns.
      intros param_name value Hv.
      destruct (is_None _) eqn:E; [|done].
      exfalso. apply Hnone. by exists param_name, value.
    + apply normalize_inputs_raises.
  - intros generic_widget n i rule inputs w Hnd Hin matched_rule. split.
    + intros spec. rewrite (make_rule_spec_other _ _ _ _ _ Hnd Hin).
      fold matched_rule.
      destruct (normalize_inputs matched_rule inputs) as [inputs'|e] eqn:Hn;
        simpl; [|done].
      intros [= <-]. exists inputs'. split; [done|].
      by apply normalize_inputs_ok.
    + intros Hwrong.
      destruct (Hrule generic_widget n i rule inputs Hnd Hin Hwrong)
        as [msg Hmsg].
      pose proof (process_rule_run generic_widget n i rule w) as Hrun.
      rewrite Hmsg in Hrun. by exists msg.
  - intros payload rulesets ruleset w k rule inputs Hrs Hsubmit
      cleaned generic_widget matched_rule outcome Hk Hnd Hin Hwrong.
    destruct (Hrule generic_widget (length cleaned) k rule inputs Hnd Hin Hwrong)
      as [msg Hmsg].
    pose proof (StateHandler_put_outcome payload rulesets ruleset w Hrs Hsubmit)
      as Hout.
    unfold wp in Hout. fold cleaned generic_widget outcome in Hout.
    destruct outcome.2 as [[]|e].
    + destruct Hout as [_ Hall]. destruct (Hall k rule Hk) as [spec Hs].
      congruence.
    + destruct Hout as [Hunt (k' & rule' & Hk' & Hfail' & Hbefore')].
      exists e. split; [done|]. split; [exact Hunt|].
      intros Hbefore. exists msg.
      exact (first_failure_unique _ _ _ _ _ _ _ _
               Hk' Hk Hfail' Hmsg Hbefore' Hbefore).
Qed.

End rules_facts.

(** ** Comprehensions and the ranked states *)

(** ** Loops that append *)

Lemma comprehension_ok {A B} (f : A → Result B) l ys :
  comprehension f l = Ok ys → Forall2 (λ x y, f x = Ok y) l ys.
Proof.
  revert ys. induction l as [|x l IH]; intros ys; simpl.
  - intros [= <-]. constructor.
  - destruct (f x) as [y|e] eqn:Hx; simpl; [|done].
    destruct (comprehension f l) as [ys'|e]; simpl; [|done].
    intros [= <-]. constructor; [done|by apply IH].
Qed.

Lemma comprehension_raises {A B} (f : A → Result B) l e :
  comprehension f l = Raise e → ∃ x, x ∈ l ∧ f x = Raise e.
Proof.
  induction l as [|x l IH]; simpl; [done|].
  destruct (f x) as [y|e'] eqn:Hx; simpl.
  - destruct (comprehension f l) as [ys'|e'']; simpl; [done|].
    intros [= ->]. destruct IH as (x' & ? & ?); [done|].
    exists x'. split; [by right|done].
  - intros [= ->]. exists x. split; [by left|done].
Qed.

Lemma comprehension_app {A B} (f : A → Result B) l1 l2 :
  comprehension f (l1 ++ l2) =
    (ys1 ← comprehension f l1; ys2 ← comprehension f l2; Ok (ys1 ++ ys2)).
Proof.
  induction l1 as [|x l1 IH]; simpl.
  - by destruct (comprehension f l2).
  - destruct (f x) as [y|e]; simpl; [|done]. rewrite IH.
    destruct (comprehension f l1) as [ys1|e]; simpl; [|done].
    by destruct (comprehension f l2).
Qed.

Lemma elem_of_concat {A} (x : A) (ls : list (list A)) :
  x ∈ concat ls ↔ ∃ l, x ∈ l ∧ l ∈ ls.
Proof.
  induction ls as [|l ls IH]; simpl.
  - split; [by intros ?%elem_of_nil|by intros (? & _ & ?%elem_of_nil)].
  - rewrite elem_of_app, IH. split.
    + intros [?|(l' & ? & ?)]; [exists l; split; [done|by left]|].
      exists l'. split; [done|by right].
    + intros (l' & ? & [->|?]%elem_of_cons); [by left|].
      right. by exists l'.
Qed.

(** A loop whose body appends what it computes for each element. *)
Lemma for_list_appends {A B} (f : A → Result (list B))
    (body : A → list B → Result (list B)) l acc :
  (∀ x acc, body x acc = (ys ← f x; Ok (acc ++ ys))) →
  for_list l body acc = (yss ← comprehension f l; Ok (acc ++ concat yss)).
Proof.
  intros Hbody. revert acc. induction l as [|x l IH]; intros acc; simpl.
  - by rewrite app_nil_r.
  - rewrite Hbody. destruct (f x) as [ys|e]; simpl; [|done].
    rewrite IH. destruct (comprehension f l) as [yss|e]; simpl; [|done].
    by rewrite app_assoc.
Qed.

Section ranked_states_facts.
Context `{StatsDomain}.

(** The loops of lines 139-186, exploration by exploration. *)
Lemma rank_states_concat exploration_ids :
  rank_states exploration_ids =
    (entries ← comprehension entries_of_exploration exploration_ids;
     Ok (concat entries)).
Proof.
  unfold rank_states.
  rewrite (for_list_appends entries_of_exploration); [reflexivity|].
  intros exploration_id acc. unfold entries_of_exploration.
  rewrite (for_list_appends (entries_of_state exploration_id));
    [by destruct (comprehension _ _)|].
  intros sid acc'. unfold entries_of_state.
  destruct (rank_state _ _ sid) as [[e|]|e]; simpl; try done.
  by rewrite app_nil_r.
Qed.

(** Every entry of [ranked_states] is the entry of a visited state. *)
Lemma rank_states_elem exploration_ids ranked_states e :
  rank_states exploration_ids = Ok ranked_states →
  e ∈ ranked_states ↔
  ∃ exploration_id sid,
    visited exploration_ids exploration_id sid ∧
    rank_state exploration_id (Exploration_get exploration_id) sid
      = Ok (Some e).
Proof.
  rewrite rank_states_concat.
  destruct (comprehension _ exploration_ids) as [entries|err] eqn:Hc;
    simpl; [|done].
  intros [= <-]. apply comprehension_ok in Hc.
  rewrite elem_of_concat. split.
  - intros (es & He & Hes).
    apply list_elem_of_lookup in Hes as [i Hi].
    destruct (Forall2_lookup_r _ _ _ _ _ Hc Hi) as (exploration_id & Hid & Hexp).
    unfold entries_of_exploration in Hexp.
    destruct (comprehension _ (state_ids _)) as [ess|err] eqn:Hs;
      simpl in Hexp; [|done].
    injection Hexp as <-. apply comprehension_ok in Hs.
    apply elem_of_concat in He as (es' & He & Hes').
    apply list_elem_of_lookup in Hes' as [j Hj].
    destruct (Forall2_lookup_r _ _ _ _ _ Hs Hj) as (sid & Hsid & Hstate).
    exists exploration_id, sid. split.
    + split; by eapply list_elem_of_lookup_2.
    + unfold entries_of_state in Hstate.
      destruct (rank_state _ _ sid) as [[e'|]|err]; simpl in Hstate;
        try done; injection Hstate as <-.
      * by apply list_elem_of_singleton in He as ->.
      * by apply elem_of_nil in He.
  - intros (exploration_id & sid & [Hid Hsid] & Hrank).
    apply list_elem_of_lookup in Hid as [i Hi].
    destruct (Forall2_lookup_l _ _ _ _ _ Hc Hi) as (es & Hes & Hexp).
    exists es. split; [|by eapply list_elem_of_lookup_2].
    unfold entries_of_exploration in Hexp.
    destruct (comprehension _ (state_ids _)) as [ess|err] eqn:Hs;
      simpl in Hexp; [|done].
    injection Hexp as <-. apply comprehension_ok in Hs.
    apply list_elem_of_lookup in Hsid as [j Hj].
    destruct (Forall2_lookup_l _ _ _ _ _ Hs Hj) as (es' & Hes' & Hstate).
    apply elem_of_concat. exists es'.
    split; [|by eapply list_elem_of_lookup_2].
    unfold entries_of_state in Hstate. rewrite Hrank in Hstate.
    injection Hstate as <-. by left.
Qed.

End ranked_states_facts.

(** ** Further properties of [get_top_improvable_states] *)

Lemma filter_filter_impl {A} (P Q : A → Prop) `{∀ x, Decision (P x)}
    `{∀ x, Decision (Q x)} (l : list A) :
  (∀ x, P x → Q x) → filter P (filter Q l) = filter P l.
Proof.
  intros HPQ. induction l as [|x l IH]; simpl; [done|].
  rewrite !filter_cons. destruct (decide (Q x)) as [HQ|HQ].
  - rewrite filter_cons. by rewrite IH.
  - rewrite IH. destruct (decide (P x)) as [HP|HP]; [|done].
    by apply HPQ in HP.
Qed.

Lemma filter_filter_disjoint {A} (P Q : A → Prop) `{∀ x, Decision (P x)}
    `{∀ x, Decision (Q x)} (l : list A) :
  (∀ x, P x → ¬ Q x) → filter P (filter Q l) = [].
Proof.
  intros HPQ. induction l as [|x l IH]; simpl; [done|].
  rewrite filter_cons. destruct (decide (Q x)) as [HQ|HQ]; [|done].
  rewrite filter_cons. destruct (decide (P x)) as [HP|HP]; [|done].
  by apply HPQ in HP.
Qed.

Lemma filter_take_prefix {A} (P : A → Prop) `{∀ x, Decision (P x)} n
    (l : list A) :
  filter P (take n l) `prefix_of` filter P l.
Proof.
  exists (filter P (drop n l)). by rewrite <- filter_app, take_drop.
Qed.

Section top_states_facts.
Context `{StatsDomain}.

(** The first flag in decreasing rank is one of the flags. *)
Lemma top_flag_elem flags :
  flags ≠ [] →
  ∃ flag, flag ∈ flags ∧ top_flag flags = (flag_rank flag, improve_type flag).
Proof.
  intros Hne. unfold top_flag. destruct flags as [|f0 fl]; [done|].
  pose proof (sorted_reverse_perm flag_rank (f0 :: fl)) as Hperm.
  destruct (sorted_reverse flag_rank (f0 :: fl)) as [|f sorted] eqn:Hs.
  - by apply Permutation_nil_l in Hperm.
  - exists f. split; [|done]. rewrite <- Hperm. by left.
Qed.

(** The rank and type of an entry with a nonzero rank are those of one of the
    two flags. *)
Lemma rank_state_rank_type exploration_id exploration sid e :
  rank_state exploration_id exploration sid = Ok (Some e) →
  total_entry_count (StateCounter_get exploration_id sid) ≠ 0%Z ∧
  (rank e ≠ 0%Z →
   (r_type e = IMPROVE_TYPE_DEFAULT ∧
    rank e = default_count_of exploration sid) ∨
   (r_type e = IMPROVE_TYPE_INCOMPLETE ∧
    rank e = no_answer_count (StateCounter_get exploration_id sid))).
Proof.
  intros (flags & Hfl & _ & _ & Htop)%rank_state_fields.
  apply flags_of_state_examined in Hfl as [Ht Hel%eligible_flags_cases].
  split; [done|]. intros Hrank.
  destruct (decide (flags = [])) as [->|Hne].
  { unfold top_flag in Htop. injection Htop as Hzero _. congruence. }
  destruct (top_flag_elem flags Hne) as (flag & Hin & Hflag).
  rewrite Hflag in Htop. injection Htop as -> ->.
  rewrite Hel in Hin. apply elem_of_app in Hin as [Hin|Hin].
  - left. repeat case_match; try (by apply elem_of_nil in Hin);
      by apply list_elem_of_singleton in Hin as ->.
  - right. repeat case_match; try (by apply elem_of_nil in Hin);
      by apply list_elem_of_singleton in Hin as ->.
Qed.

(** X1.  Asking [get_top_improvable_states] for fewer states gives the
    beginning of the longer answer: for [N ≤ M], when the call with [M]
    returns a list, the call with [N] returns its first [N] entries. *)
Theorem get_top_improvable_states_prefix exploration_ids N M l :
  N ≤ M →
  get_top_improvable_states exploration_ids M = Ok l →
  get_top_improvable_states exploration_ids N = Ok (take N l).
Proof.
  intros Hle. unfold get_top_improvable_states.
  destruct (rank_states exploration_ids) as [ranked|e]; simpl; [|done].
  intros [= <-]. f_equal. rewrite take_take. f_equal. lia.
Qed.

(** X2.  Every entry that [get_top_improvable_states] returns comes from a
    state the loops visited (an exploration id of the argument, a state id of
    that exploration) and is the entry the loop body built for it; the state
    has a nonzero total entry count; and the entry's type and rank are
    either ['default'] with the answer count of the default rule, or
    ['incomplete'] with the state's no-answer count. *)
Theorem get_top_improvable_states_provenance exploration_ids N l e :
  get_top_improvable_states exploration_ids N = Ok l →
  e ∈ l →
  let exploration := Exploration_get (r_exp_id e) in
  let state_counts := StateCounter_get (r_exp_id e) (r_state_id e) in
  visited exploration_ids (r_exp_id e) (r_state_id e) ∧
  rank_state (r_exp_id e) exploration (r_state_id e) = Ok (Some e) ∧
  total_entry_count state_counts ≠ 0%Z ∧
  ((r_type e = IMPROVE_TYPE_DEFAULT ∧
    rank e = default_count_of exploration (r_state_id e)) ∨
   (r_type e = IMPROVE_TYPE_INCOMPLETE ∧
    rank e = no_answer_count state_counts)).
Proof.
  intros (ranked & Hranked & ->)%get_top_improvable_states_result
    [Hin Hrank]%elem_of_problem_states. simpl.
  apply (rank_states_elem _ _ _ Hranked) in Hin
    as (exploration_id & sid & Hvisited & Hstate).
  pose proof Hstate as (_ & _ & Hid & Hsid & _)%rank_state_fields.
  rewrite Hid, Hsid.
  destruct (rank_state_rank_type _ _ _ _ Hstate) as [Ht Htype].
  split; [done|]. split; [done|]. split; [done|]. by apply Htype.
Qed.

(** X3.  When [get_top_improvable_states] returns fewer than [N] entries,
    nothing was cut off: the entry of every visited state whose rank is not
    zero is in the result. *)
Theorem get_top_improvable_states_complete exploration_ids N l :
  get_top_improvable_states exploration_ids N = Ok l →
  length l < N →
  ∀ exploration_id sid e,
    visited exploration_ids exploration_id sid →
    rank_state exploration_id (Exploration_get exploration_id) sid
      = Ok (Some e) →
    rank e ≠ 0%Z →
    e ∈ l.
Proof.
  intros (ranked & Hranked & ->)%get_top_improvable_states_result Hlen
    exploration_id sid e Hvisited Hstate Hrank.
  rewrite take_ge; [|rewrite length_take in Hlen; lia].
  rewrite sorted_reverse_perm. apply list_elem_of_filter. split; [done|].
  apply (rank_states_elem _ _ _ Hranked). by exists exploration_id, sid.
Qed.

(** X4.  Ties keep the order of the loops: the entries of the result that
    share a rank [k] come in the order in which their states were visited,
    and are the first of the visited entries of rank [k]. *)
Theorem get_top_improvable_states_stable exploration_ids N l ranked_states k :
  rank_states exploration_ids = Ok ranked_states →
  get_top_improvable_states exploration_ids N = Ok l →
  filter (λ e, rank e = k) l `prefix_of`
    filter (λ e, rank e = k) ranked_states.
Proof.
  intros Hranked (ranked & Hranked' & ->)%get_top_improvable_states_result.
  rewrite Hranked in Hranked'. injection Hranked' as <-.
  etrans; [apply filter_take_prefix|].
  rewrite sorted_reverse_stable.
  destruct (decide (k = 0%Z)) as [->|Hk].
  - rewrite filter_filter_disjoint; [apply prefix_nil|].
    intros x Hx Hne. by apply Hne.
  - rewrite filter_filter_impl; [done|]. intros x ->. done.
Qed.

(** X5.  The loops of lines 139-186 over a concatenation of two lists of
    exploration ids build the entries of the first list followed by those of
    the second, and an exception of the first list comes first. *)
Theorem rank_states_app exploration_ids1 exploration_ids2 :
  rank_states (exploration_ids1 ++ exploration_ids2) =
    (ranked1 ← rank_states exploration_ids1;
     ranked2 ← rank_states exploration_ids2;
     Ok (ranked1 ++ ranked2)).
Proof.
  rewrite !rank_states_concat, comprehension_app.
  destruct (comprehension _ exploration_ids1) as [es1|e]; simpl; [|done].
  destruct (comprehension _ exploration_ids2) as [es2|e]; simpl; [|done].
  by rewrite concat_app.
Qed.

(** Reading the flags raises only [IndexError], and only when the count test
    holds and there is no handler. *)
Lemma eligible_flags_raises d n t state e :
  eligible_flags d n t state = Raise e ↔
  e = IndexError ∧ exceeds_20_percent d t = true ∧
  handlers (state_widget state) = [].
Proof.
  unfold eligible_flags, first_handler.
  destruct (exceeds_20_percent d t); simpl.
  - destruct (handlers (state_widget state)) as [|h rest]; simpl.
    + split; [by intros [= <-]|by intros [-> _]].
    + destruct (py_eq_str _ _); simpl; (split; [done|by intros (_ & _ & ?)]).
  - split; [done|by intros (_ & ? & _)].
Qed.

(** The body of the loops raises only [IndexError], and only on a state
    whose default rule cannot be read. *)
Lemma rank_state_raises exploration_id sid e :
  rank_state exploration_id (Exploration_get exploration_id) sid = Raise e ↔
  e = IndexError ∧ unreadable_default exploration_id sid.
Proof.
  unfold rank_state, flags_of_state, unreadable_default, default_count_of.
  destruct (_ =? 0)%Z eqn:Ht; simpl.
  { apply Z.eqb_eq in Ht. split; [done|]. by intros (_ & ? & _). }
  apply Z.eqb_neq in Ht.
  destruct (eligible_flags _ _ _ _) as [flags|e'] eqn:Hfl; simpl.
  - destruct (top_flag flags). split; [done|].
    intros (-> & _ & Hd & Hh).
    assert (Hr : eligible_flags
              (total_answer_count
                 (StateRuleAnswerLog_get (exp_id (Exploration_get exploration_id))
                    sid DEFAULT_RULESPEC_STR))
              (no_answer_count (StateCounter_get exploration_id sid))
              (total_entry_count (StateCounter_get exploration_id sid))
              (get_state_by_id (Exploration_get exploration_id) sid)
            = Raise IndexError) by by apply eligible_flags_raises.
    by rewrite Hr in Hfl.
  - apply eligible_flags_raises in Hfl as (-> & Hd & Hh). split.
    + by intros [= <-].
    + by intros [-> _].
Qed.

(** X6.  The only exception [get_top_improvable_states] raises by itself
    is [IndexError], and it raises exactly when some visited state has
    entries, a default-rule answer count above 20% of them, and an empty
    list of handlers (the [handlers[0]] of line 158). *)
Theorem get_top_improvable_states_raises exploration_ids N :
  (∀ e, get_top_improvable_states exploration_ids N = Raise e →
        e = IndexError) ∧
  ((∃ e, get_top_improvable_states exploration_ids N = Raise e) ↔
   ∃ exploration_id sid,
     visited exploration_ids exploration_id sid ∧
     unreadable_default exploration_id sid).
Proof.
  assert (Hraise : ∀ e, rank_states exploration_ids = Raise e →
    e = IndexError ∧
    ∃ exploration_id sid, visited exploration_ids exploration_id sid ∧
      unreadable_default exploration_id sid).
  { intros e. rewrite rank_states_concat.
    destruct (comprehension _ exploration_ids) as [es|e'] eqn:Hc; simpl;
      [done|].
    intros [= ->].
    apply comprehension_raises in Hc as (exploration_id & Hid & Hexp).
    unfold entries_of_exploration in Hexp.
    destruct (comprehension _ (state_ids _)) as [ess|e'] eqn:Hs;
      simpl in Hexp; [done|].
    injection Hexp as ->.
    apply comprehension_raises in Hs as (sid & Hsid & Hstate).
    unfold entries_of_state in Hstate.
    destruct (rank_state _ _ sid) as [entry|e'] eqn:Hrank; simpl in Hstate;
      [done|].
    injection Hstate as ->. apply rank_state_raises in Hrank as [-> Hun].
    split; [done|]. by exists exploration_id, sid. }
  assert (Hget : ∀ e, get_top_improvable_states exploration_ids N = Raise e →
    rank_states exploration_ids = Raise e).
  { intros e. unfold get_top_improvable_states.
    by destruct (rank_states exploration_ids); simpl; [|intros [= ->]]. }
  split; [by intros e [? _]%Hget%Hraise|]. split.
  - by intros [e [_ ?]%Hget%Hraise].
  - intros (exploration_id & sid & [Hid Hsid] & Hun).
    destruct (get_top_improvable_states exploration_ids N) as [l|e] eqn:Hrun;
      [|by exists e].
    exfalso.
    apply get_top_improvable_states_result in Hrun as (ranked & Hranked & _).
    rewrite rank_states_concat in Hranked.
    destruct (comprehension _ exploration_ids) as [es|e'] eqn:Hc;
      simpl in Hranked; [|done].
    apply comprehension_ok in Hc.
    apply list_elem_of_lookup in Hid as [i Hi].
    destruct (Forall2_lookup_l _ _ _ _ _ Hc Hi) as (es' & _ & Hexp).
    unfold entries_of_exploration in Hexp.
    destruct (comprehension _ (state_ids _)) as [ess|e'] eqn:Hs;
      simpl in Hexp; [|done].
    apply comprehension_ok in Hs.
    apply list_elem_of_lookup in Hsid as [j Hj].
    destruct (Forall2_lookup_l _ _ _ _ _ Hs Hj) as (es'' & _ & Hstate).
    unfold entries_of_state in Hstate.
    assert (Hr : rank_state exploration_id (Exploration_get exploration_id) sid
                 = Raise IndexError) by by apply rank_state_raises.
    by rewrite Hr in Hstate.
Qed.

End top_states_facts.

(** ** Further properties of [export_exploration_stats_to_dict] *)

(** Two nested loops are one loop over the concatenation. *)
Lemma foldl_concat {A B C} (g : B → A → B) (h : C → list A) (l : list C) b :
  foldl (λ b x, foldl g b (h x)) b l = foldl g b (concat (h <$> l)).
Proof.
  revert b. induction l as [|x l IH]; intros b; simpl; [done|].
  by rewrite IH, foldl_app.
Qed.

(** A key assigned by a loop of assignments is present afterwards. *)
Lemma foldl_insert_is_Some {A B} (k : A → string) (v : A → B) (l : list A)
    (m : gmap string B) key :
  (is_Some (m !! key) ∨ ∃ x, x ∈ l ∧ k x = key) →
  is_Some (foldl (λ m x, <[k x := v x]> m) m l !! key).
Proof.
  revert m. induction l as [|x l IH]; intros m Hhit; simpl.
  - destruct Hhit as [?|(x & []%elem_of_nil & _)]; done.
  - apply IH. destruct (decide (k x = key)) as [Hx|Hx].
    + left. rewrite Hx, lookup_insert_eq. by eexists.
    + destruct Hhit as [Hm|(y & [->|Hy]%elem_of_cons & Hk)]; [|done|].
      * left. by rewrite lookup_insert_ne.
      * right. by exists y.
Qed.

(** Lines 108-111 add up the counts of the rule's answers. *)
Lemma count_answers_total answers all_rule_count :
  count_answers answers all_rule_count =
    (answer_total answers, (all_rule_count + answer_total answers)%Z).
Proof.
  unfold count_answers.
  assert (Hgen : ∀ rule_count all_rule_count,
    foldl (λ '(rule_count, all_rule_count) '(_, count),
             ((rule_count + count)%Z, (all_rule_count + count)%Z))
          (rule_count, all_rule_count) answers =
    ((rule_count + answer_total answers)%Z,
     (all_rule_count + answer_total answers)%Z)).
  { induction answers as [|[answer count] answers IH]; intros rc arc; simpl.
    - f_equal; lia.
    - rewrite IH. f_equal; lia. }
  rewrite Hgen. f_equal.
Qed.

(** Lines 105-116: one [rule_stats] entry per rule, and the sum of all rule
    counts. *)
Lemma rule_stats_of_spec (rules : gmap string (list (string * Z))) state_count :
  rule_stats_of rules state_count =
    (rule_stats_for state_count <$> rules,
     answered_total (rule_stats_for state_count <$> rules)).
Proof.
  unfold rule_stats_of.
  assert (Hgen : ∀ (l : list (string * list (string * Z)))
                   (rs0 : gmap string RuleStats) t0,
    foldl (λ '(rule_stats, all_rule_count) '(rule, answers),
             let '(rule_count, all_rule_count) :=
               count_answers answers all_rule_count in
             (<[rule := mkRuleStats answers
                          (rule_count, (state_count - rule_count)%Z)]>
                rule_stats, all_rule_count))
          (rs0, t0) l =
    (foldl (λ m x, <[x.1 := rule_stats_for state_count x.2]> m) rs0 l,
     (t0 + foldr (λ x total, (answer_total x.2 + total)%Z) 0%Z l)%Z)).
  { induction l as [|[rule answers] l IH]; intros rs0 t0; simpl.
    - f_equal. lia.
    - rewrite count_answers_total. rewrite IH. f_equal. lia. }
  rewrite Hgen. f_equal.
  - apply map_eq. intros rule. rewrite lookup_fmap.
    destruct (rules !! rule) as [answers|] eqn:Hr; simpl.
    + apply (foldl_insert_hit (λ x : string * list (string * Z), x.1)
               (λ x, rule_stats_for state_count x.2)).
      * intros [r a] Hin%elem_of_map_to_list Hk. simpl in *. subst r.
        congruence.
      * right. exists (rule, answers). split; [|done].
        by apply elem_of_map_to_list.
    + rewrite (foldl_insert_miss (λ x : string * list (string * Z), x.1)
                 (λ x, rule_stats_for state_count x.2)); [done|].
      intros [r a] Hin%elem_of_map_to_list Hk. simpl in *. congruence.
  - unfold answered_total. rewrite map_to_list_fmap, Z.add_0_l.
    induction (map_to_list rules) as [|[r a] l IH]; simpl; [done|].
    by rewrite IH.
Qed.

Section export_more.
Context `{StatsDomain}.

(** The value stored for a state id, in terms of what the first two loops
    collected. *)
Lemma state_stats_entry_spec state_counts sid answers :
  state_stats_entry state_counts sid answers =
    match state_counts !! sid with
    | None => Raise (KeyError sid)
    | Some counts =>
        let rule_stats := rule_stats_for counts.2 <$> sa_rules answers in
        Ok {|
          ss_name := sa_name answers;
          ss_count := counts.2;
          rule_stats := rule_stats;
          no_answer_chartdata :=
            ((counts.2 - answered_total rule_stats)%Z,
             answered_total rule_stats)
        |}
    end.
Proof.
  unfold state_stats_entry, dict_item.
  destruct (state_counts !! sid) as [counts|]; simpl; [|done].
  by rewrite rule_stats_of_spec.
Qed.

(** Every entry of the returned [state_stats] is built from the entries of
    [answers] and [state_counts] under the same key. *)
Lemma export_stats_entry exploration_id stats sid entry :
  export_exploration_stats_to_dict exploration_id = Ok stats →
  state_stats stats !! sid = Some entry →
  let exploration := Exploration_get exploration_id in
  ∃ answers counts,
    collect_answers exploration_id exploration !! sid = Some answers ∧
    collect_state_counts exploration_id exploration !! sid = Some counts ∧
    entry = {|
      ss_name := sa_name answers;
      ss_count := counts.2;
      rule_stats := rule_stats_for counts.2 <$> sa_rules answers;
      no_answer_chartdata :=
        ((counts.2 - answered_total
                       (rule_stats_for counts.2 <$> sa_rules answers))%Z,
         answered_total (rule_stats_for counts.2 <$> sa_rules answers))
    |}.
Proof.
  unfold export_exploration_stats_to_dict, collect_state_stats.
  set (exploration := Exploration_get exploration_id).
  set (all_answers := collect_answers exploration_id exploration).
  set (state_counts := collect_state_counts exploration_id exploration).
  destruct (for_dict _ _ _) as [state_stats|e] eqn:Hrun; simpl; [|done].
  intros [= <-]. simpl. intros Hentry.
  apply (for_dict_insert_lookup (state_stats_entry state_counts)) in Hrun
    as [Hhit Hmiss]; [|done].
  destruct (all_answers !! sid) as [answers|] eqn:Ha.
  - destruct (Hhit _ _ Ha) as (n & Hn & Hlook).
    rewrite Hentry in Hlook. injection Hlook as <-.
    rewrite state_stats_entry_spec in Hn.
    destruct (state_counts !! sid) as [counts|] eqn:Hc; [|done].
    injection Hn as <-. by exists answers, counts.
  - by rewrite Hmiss, lookup_empty in Hentry.
Qed.

(** [answers] holds, for every state id, the top answers of the state's
    rules. *)
Lemma collect_answers_entry exploration_id exploration sid :
  state_ids_coherent exploration →
  sid ∈ state_ids exploration →
  let state := get_state_by_id exploration sid in
  collect_answers exploration_id exploration !! sid =
    Some (mkStateAnswers (state_name state)
            (rules_of_state exploration_id state)).
Proof.
  intros Hc Hin. simpl. unfold collect_answers.
  apply (foldl_insert_hit (λ sid, state_id (get_state_by_id exploration sid))
           (λ sid, mkStateAnswers (state_name (get_state_by_id exploration sid))
                     (rules_of_state exploration_id
                        (get_state_by_id exploration sid)))).
  - intros x Hx Hk. rewrite Hc in Hk by done. by subst x.
  - right. exists sid. split; [done|]. by apply Hc.
Qed.

(** The ['rules'] dict of a state has one key per rule string, with the top
    ten answers logged for the state under that string. *)
Lemma rules_of_state_lookup exploration_id state rule :
  rules_of_state exploration_id state !! rule =
    if decide (rule ∈ rule_strings state) then
      Some (get_top_answers
              (StateRuleAnswerLog_get exploration_id (state_id state) rule) 10)
    else None.
Proof.
  unfold rules_of_state, rule_strings.
  rewrite (foldl_concat
             (λ rules spec,
                <[rule_str spec :=
                    get_top_answers
                      (StateRuleAnswerLog_get exploration_id (state_id state)
                         (rule_str spec)) 10]> rules)
             rule_specs (handlers (state_widget state))).
  destruct (decide _) as [Hin|Hnot].
  - apply list_elem_of_fmap in Hin as (spec & -> & Hin).
    apply (foldl_insert_hit rule_str
             (λ spec, get_top_answers
                        (StateRuleAnswerLog_get exploration_id (state_id state)
                           (rule_str spec)) 10)).
    + by intros x _ ->.
    + right. by exists spec.
  - rewrite (foldl_insert_miss rule_str
               (λ spec, get_top_answers
                          (StateRuleAnswerLog_get exploration_id
                             (state_id state) (rule_str spec)) 10));
      [done|].
    intros x Hx Hk. apply Hnot. apply list_elem_of_fmap. by exists x.
Qed.

(** X7.  In every state entry of the exported statistics the two numbers
    of ['no_answer_chartdata'] add up to the state's count and the second
    one is the sum of the rule counts of ['rule_stats']; and for every rule
    the first number of ['chartData'] is the sum of the counts of the rule's
    answers, and the two numbers add up to the state's count. *)
Theorem export_stats_chart_rows exploration_id stats sid entry :
  export_exploration_stats_to_dict exploration_id = Ok stats →
  state_stats stats !! sid = Some entry →
  (no_answer_chartdata entry).2 = answered_total (rule_stats entry) ∧
  ((no_answer_chartdata entry).1 + (no_answer_chartdata entry).2)%Z
    = ss_count entry ∧
  ∀ rule stats_of_rule,
    rule_stats entry !! rule = Some stats_of_rule →
    (chartData stats_of_rule).1 = answer_total (rule_answers stats_of_rule) ∧
    ((chartData stats_of_rule).1 + (chartData stats_of_rule).2)%Z
      = ss_count entry.
Proof.
  intros Hrun Hentry.
  destruct (export_stats_entry _ _ _ _ Hrun Hentry)
    as (answers & counts & _ & _ & ->). simpl.
  split; [done|]. split; [lia|].
  intros rule stats_of_rule. rewrite lookup_fmap.
  destruct (sa_rules answers !! rule) as [a|]; simpl; [|done].
  intros [= <-]. simpl. split; [done|lia].
Qed.

(** X8.  When every state is stored under the id by which the exploration
    lists it, the ['rule_stats'] of a listed state have exactly the strings
    of the state's rules as keys, and hold under each the top 10 answers of
    that rule's answer log. *)
Theorem export_stats_rule_answers exploration_id stats sid entry :
  let exploration := Exploration_get exploration_id in
  state_ids_coherent exploration →
  export_exploration_stats_to_dict exploration_id = Ok stats →
  sid ∈ state_ids exploration →
  state_stats stats !! sid = Some entry →
  ∀ rule,
    rule_answers <$> rule_stats entry !! rule =
      if decide (rule ∈ rule_strings (get_state_by_id exploration sid)) then
        Some (get_top_answers
                (StateRuleAnswerLog_get exploration_id sid rule) 10)
      else None.
Proof.
  intros exploration Hc Hrun Hin Hentry rule.
  destruct (export_stats_entry _ _ _ _ Hrun Hentry)
    as (answers & counts & Ha & _ & ->). simpl.
  fold exploration in Ha.
  rewrite (collect_answers_entry _ _ _ Hc Hin) in Ha. injection Ha as <-.
  simpl. rewrite lookup_fmap, rules_of_state_lookup, (Hc sid Hin).
  by destruct (decide _).
Qed.

(** X9.  When a listed state id leads to a state whose own id is not
    listed, [export_exploration_stats_to_dict] raises [KeyError], for a key
    that is not a listed state id: [answers] is keyed by [state.id] and
    [state_counts] by the listed ids. *)
Theorem export_stats_key_error exploration_id sid :
  let exploration := Exploration_get exploration_id in
  sid ∈ state_ids exploration →
  state_id (get_state_by_id exploration sid) ∉ state_ids exploration →
  ∃ key, export_exploration_stats_to_dict exploration_id = Raise (KeyError key) ∧
         key ∉ state_ids exploration.
Proof.
  intros exploration Hin Hother.
  unfold export_exploration_stats_to_dict, collect_state_stats.
  fold exploration.
  set (all_answers := collect_answers exploration_id exploration).
  set (state_counts := collect_state_counts exploration_id exploration).
  assert (Hcounts : ∀ key, key ∈ state_ids exploration →
                           is_Some (state_counts !! key)).
  { intros key Hkey. apply foldl_insert_is_Some. right. by exists key. }
  assert (Hnone : state_counts !! state_id (get_state_by_id exploration sid)
                  = None).
  { unfold state_counts, collect_state_counts.
    rewrite (foldl_insert_miss (λ sid : string, sid)
               (λ sid, (state_name (get_state_by_id exploration sid),
                        total_entry_count
                          (StateCounter_get exploration_id sid))));
      [done|].
    intros x Hx ->. done. }
  assert (Hsome : is_Some (all_answers
                    !! state_id (get_state_by_id exploration sid))).
  { apply (foldl_insert_is_Some
             (λ sid, state_id (get_state_by_id exploration sid))).
    right. by exists sid. }
  destruct Hsome as [answers Ha].
  destruct (for_dict _ _ _) as [state_stats|e] eqn:Hrun; simpl.
  - apply (for_dict_insert_lookup (state_stats_entry state_counts)) in Hrun
      as [Hhit _]; [|done].
    destruct (Hhit _ _ Ha) as (n & Hn & _).
    rewrite state_stats_entry_spec, Hnone in Hn. done.
  - apply (for_dict_insert_raises (state_stats_entry state_counts)) in Hrun
      as (key & a & _ & Hkey); [|done].
    rewrite state_stats_entry_spec in Hkey.
    destruct (state_counts !! key) as [counts|] eqn:Hc; [done|].
    injection Hkey as <-. exists key. split; [done|].
    intros Hkey%Hcounts. rewrite Hc in Hkey. by destruct Hkey.
Qed.

End export_more.

(** ** [ExplorationHandler.put] as a function of the exploration *)

(** Running a sequence runs its first part, then the rest unless the first
    part raised. *)
Lemma Py_bind_run {S A B} (m : Py S A) (f : A → Py S B) (s : S) :
  (m ≫= f) s =
    match m s with
    | (s', Ok a) => f a s'
    | (s', Raise e) => (s', Raise e)
    end.
Proof. reflexivity. Qed.

Section put_effect_facts.
Context `{EditorDeps}.

Lemma assign_properties_run payload (w : Stored Exploration) :
  assign_properties payload w =
    (mkStored (assigned_properties payload (entity w)) (persisted w)
       (put_calls w), Ok tt).
Proof.
  destruct w as [e p c].
  unfold assign_properties, assigned_properties, dict_get. simpl.
  destruct (payload !! "image_id") as [v|]; simpl;
    destruct (truthy (default PNone (payload !! "is_public")));
    destruct (truthy (default PNone (payload !! "category")));
    destruct (truthy (default PNone (payload !! "title")));
    reflexivity.
Qed.

Lemma add_editors_run emails l (e : Exploration) p c :
  for_each emails (λ email,
      update (λ e, set_editor_ids (add_editor (editor_ids e) email) e))
    (mkStored (set_editor_ids l e) p c) =
  (mkStored (set_editor_ids (foldl add_editor l emails) e) p c, Ok tt).
Proof.
  revert l. induction emails as [|email emails IH]; intros l; simpl; [done|].
  unfold mbind, Py_bind, update, modify. simpl.
  apply (IH (add_editor l email)).
Qed.

Lemma replace_editors_run user_id editors (e : Exploration) p c :
  match replaced_editors user_id editors e with
  | Ok e' => replace_editors user_id editors (mkStored e p c)
             = (mkStored e' p c, Ok tt)
  | Raise err =>
      ∃ e', replace_editors user_id editors (mkStored e p c)
            = (mkStored e' p c, Raise err)
  end.
Proof.
  unfold replaced_editors, replace_editors, when.
  destruct (truthy editors); [|done].
  unfold mbind, Py_bind, self_entity, update, modify, lift, raise. simpl.
  destruct (is_owner user_id e); [|by eexists].
  destruct (py_iter editors) as [emails|err]; simpl; [|by eexists].
  apply add_editors_run.
Qed.

Lemma replace_parameters_run parameters (e : Exploration) p c :
  match replaced_parameters parameters e with
  | Ok e' => replace_parameters parameters (mkStored e p c)
             = (mkStored e' p c, Ok tt)
  | Raise err =>
      replace_parameters parameters (mkStored e p c)
      = (mkStored e p c, Raise err)
  end.
Proof.
  unfold replaced_parameters, replace_parameters, when.
  destruct (truthy parameters); [|done].
  unfold mbind, Py_bind, update, modify, lift. simpl.
  destruct (py_iter parameters) as [items|err]; simpl; [|done].
  by destruct (comprehension parameter_of_item items) as [ps|err].
Qed.

(** The handler stores what [put_effect] computes, with one [put()], or
    raises what it raises and stores nothing. *)
Lemma ExplorationHandler_put_effect user_id payload (w : Stored Exploration) :
  match put_effect user_id payload (entity w) with
  | Ok e' => ExplorationHandler_put user_id payload w
             = (mkStored e' e' (S (put_calls w)), Ok tt)
  | Raise err =>
      (ExplorationHandler_put user_id payload w).2 = Raise err ∧
      untouched w (ExplorationHandler_put user_id payload w).1
  end.
Proof.
  unfold put_effect, ExplorationHandler_put.
  rewrite Py_bind_run, assign_properties_run.
  set (e1 := assigned_properties payload (entity w)).
  pose proof (replace_editors_run user_id (dict_get payload "editors") e1
                (persisted w) (put_calls w)) as Hed.
  destruct (replaced_editors _ _ e1) as [e2|err]; simpl.
  - rewrite Py_bind_run, Hed.
    pose proof (replace_parameters_run (dict_get payload "parameters") e2
                  (persisted w) (put_calls w)) as Hpar.
    destruct (replaced_parameters _ e2) as [e3|err]; simpl;
      by rewrite Py_bind_run, Hpar.
  - destruct Hed as [e' Hed]. by rewrite Py_bind_run, Hed.
Qed.

Lemma serve_put_effect db request :
  serve_put db request =
    match put_effect request.1 request.2 db with
    | Ok e' => e'
    | Raise _ => db
    end.
Proof.
  unfold serve_put.
  pose proof (ExplorationHandler_put_effect request.1 request.2 (load db))
    as Heff. simpl in Heff.
  destruct (put_effect _ _ db) as [e'|err].
  - by rewrite Heff.
  - by destruct Heff as [_ [-> _]].
Qed.

End put_effect_facts.

Lemma py_iter_raises v e : py_iter v = Raise e → e = TypeError.
Proof. destruct v; simpl; congruence. Qed.

Lemma py_getitem_raises v key e :
  py_getitem v key = Raise e → e = TypeError ∨ e = KeyError key.
Proof.
  destruct v; simpl; try (intros [= <-]; by left).
  unfold dict_item. destruct (_ !! key); [done|]. intros [= <-]. by right.
Qed.

Lemma parameter_of_item_raises item e :
  parameter_of_item item = Raise e →
  e = TypeError ∨ ∃ key, key ∈ parameter_keys ∧ e = KeyError key.
Proof.
  unfold parameter_of_item, parameter_keys.
  destruct (py_getitem item "name") as [v1|e1] eqn:H1; simpl.
  2:{ intros [= <-]. apply py_getitem_raises in H1 as [?|?]; [by left|].
      right. exists "name". split; [set_solver|done]. }
  destruct (py_getitem item "obj_type") as [v2|e2] eqn:H2; simpl.
  2:{ intros [= <-]. apply py_getitem_raises in H2 as [?|?]; [by left|].
      right. exists "obj_type". split; [set_solver|done]. }
  destruct (py_getitem item "description") as [v3|e3] eqn:H3; simpl.
  2:{ intros [= <-]. apply py_getitem_raises in H3 as [?|?]; [by left|].
      right. exists "description". split; [set_solver|done]. }
  destruct (py_getitem item "values") as [v4|e4] eqn:H4; simpl; [done|].
  intros [= <-]. apply py_getitem_raises in H4 as [?|?]; [by left|].
  right. exists "values". split; [set_solver|done].
Qed.

Section put_errors_facts.
Context `{EditorDeps}.

Lemma assigned_properties_fields payload e :
  let e' := assigned_properties payload e in
  exp_id e' = exp_id e ∧ init_state_id e' = init_state_id e ∧
  state_ids e' = state_ids e ∧ editor_ids e' = editor_ids e ∧
  parameters e' = parameters e ∧
  exp_title e' = (if truthy (dict_get payload "title")
                  then dict_get payload "title" else exp_title e) ∧
  exp_category e' = (if truthy (dict_get payload "category")
                     then dict_get payload "category" else exp_category e).
Proof.
  unfold assigned_properties.
  destruct (payload !! "image_id");
    destruct (truthy (dict_get payload "is_public"));
    destruct (truthy (dict_get payload "category"));
    destruct (truthy (dict_get payload "title")); simpl; done.
Qed.

Lemma replaced_editors_raises user_id editors e err :
  replaced_editors user_id editors e = Raise err →
  truthy editors = true ∧
  ((err = unauthorized ∧ is_owner user_id e = false) ∨
   (err = TypeError ∧ is_owner user_id e = true)).
Proof.
  unfold replaced_editors. destruct (truthy editors); [|done].
  intros Hr. split; [done|]. destruct (is_owner user_id e).
  - destruct (py_iter editors) eqn:Hi; simpl in Hr; [done|].
    injection Hr as <-. right. split; [|done]. by eapply py_iter_raises.
  - injection Hr as <-. by left.
Qed.

Lemma replaced_parameters_raises parameters e err :
  replaced_parameters parameters e = Raise err →
  truthy parameters = true ∧
  (err = TypeError ∨ ∃ key, key ∈ parameter_keys ∧ err = KeyError key).
Proof.
  unfold replaced_parameters. destruct (truthy parameters); [|done].
  intros Hr. split; [done|].
  destruct (py_iter parameters) as [items|e'] eqn:Hi; simpl in Hr.
  - destruct (comprehension parameter_of_item items) as [ps|e'] eqn:Hc;
      simpl in Hr; [done|].
    injection Hr as <-.
    apply comprehension_raises in Hc as (item & _ & Hitem).
    by eapply parameter_of_item_raises.
  - injection Hr as <-. left. by eapply py_iter_raises.
Qed.

End put_errors_facts.

Section put_facts.
Context `{EditorDeps}.

Lemma is_owner_assigned user_id payload e :
  is_owner user_id (assigned_properties payload e) = is_owner user_id e.
Proof.
  unfold is_owner.
  by destruct (assigned_properties_fields payload e) as (_ & _ & _ & -> & _).
Qed.

Lemma put_effect_raises user_id payload e err :
  put_effect user_id payload e = Raise err →
  (err = unauthorized ↔
   truthy (dict_get payload "editors") = true ∧ is_owner user_id e = false) ∧
  (err = unauthorized ∨ err = TypeError ∨
   ∃ key, key ∈ parameter_keys ∧ err = KeyError key).
Proof.
  unfold put_effect.
  destruct (replaced_editors _ _ _) as [e2|err'] eqn:Hed; simpl.
  - intros (_ & Herr)%replaced_parameters_raises.
    assert (Hnot : ¬ (truthy (dict_get payload "editors") = true ∧
                      is_owner user_id e = false)).
    { intros [Ht Ho]. unfold replaced_editors in Hed.
      rewrite Ht, is_owner_assigned, Ho in Hed. done. }
    split; [|by right].
    split; [|done]. intros ->. destruct Herr as [?|(? & _ & ?)]; done.
  - intros [= ->].
    apply replaced_editors_raises in Hed as [Ht Hcase].
    rewrite is_owner_assigned in Hcase.
    destruct Hcase as [[-> Ho]|[-> Ho]].
    + split; [done|by left].
    + split; [|by right; left]. split; [done|]. intros [_ Hn]. congruence.
Qed.

Lemma put_effect_returns user_id payload e :
  truthy (dict_get payload "editors") = false →
  truthy (dict_get payload "parameters") = false →
  put_effect user_id payload e = Ok (assigned_properties payload e).
Proof.
  intros He Hp. unfold put_effect, replaced_editors, replaced_parameters.
  by rewrite He, Hp.
Qed.

(** X10.  The errors of [ExplorationHandler.put].  It raises
    [UnauthorizedUserException] exactly when the payload has truthy
    ['editors'] and the user is not the owner.  Whatever it raises is that
    exception, a [TypeError] (['editors'] or ['parameters'] that cannot be
    iterated, a parameter item that is not a dict) or a [KeyError] for one
    of the four keys of a parameter item, and then nothing is written to the
    datastore.  Without truthy ['editors'] and ['parameters'] it succeeds,
    with one [put()]. *)
Theorem ExplorationHandler_put_errors user_id payload
    (w : Stored Exploration) :
  let outcome := ExplorationHandler_put user_id payload w in
  (outcome.2 = Raise unauthorized ↔
   truthy (dict_get payload "editors") = true ∧
   is_owner user_id (entity w) = false) ∧
  (∀ err, outcome.2 = Raise err →
     untouched w outcome.1 ∧
     (err = unauthorized ∨ err = TypeError ∨
      ∃ key, key ∈ parameter_keys ∧ err = KeyError key)) ∧
  (truthy (dict_get payload "editors") = false →
   truthy (dict_get payload "parameters") = false →
   outcome.2 = Ok tt ∧ put_calls outcome.1 = S (put_calls w) ∧
   persisted outcome.1 = entity outcome.1).
Proof.
  pose proof (ExplorationHandler_put_effect user_id payload w) as Heff.
  simpl. split; [|split].
  - destruct (put_effect user_id payload (entity w)) as [e'|err] eqn:Hp.
    + rewrite Heff. simpl. split; [done|]. intros [Ht Ho].
      unfold put_effect, replaced_editors in Hp.
      rewrite Ht, is_owner_assigned, Ho in Hp. done.
    + destruct Heff as [-> _].
      apply put_effect_raises in Hp as [Hiff _]. rewrite <- Hiff.
      split; [by intros [= ->]|by intros ->].
  - intros err Hraise.
    destruct (put_effect user_id payload (entity w)) as [e'|err'] eqn:Hp.
    + by rewrite Heff in Hraise.
    + destruct Heff as [Hr Hunt]. rewrite Hr in Hraise. injection Hraise as ->.
      split; [done|]. by apply put_effect_raises in Hp as [_ ?].
  - intros He Hpar. rewrite (put_effect_returns _ _ _ He Hpar) in Heff.
    by rewrite Heff.
Qed.

Lemma put_effect_fields user_id payload e e' :
  put_effect user_id payload e = Ok e' →
  exp_id e' = exp_id e ∧ init_state_id e' = init_state_id e ∧
  state_ids e' = state_ids e ∧
  exp_title e' = (if truthy (dict_get payload "title")
                  then dict_get payload "title" else exp_title e) ∧
  exp_category e' = (if truthy (dict_get payload "category")
                     then dict_get payload "category" else exp_category e) ∧
  (if truthy (dict_get payload "editors") then
     is_owner user_id e = true ∧
     ∃ emails, py_iter (dict_get payload "editors") = Ok emails ∧
               editor_ids e' = foldl add_editor [] emails
   else editor_ids e' = editor_ids e) ∧
  (if truthy (dict_get payload "parameters") then
     ∃ items, py_iter (dict_get payload "parameters") = Ok items ∧
              comprehension parameter_of_item items = Ok (parameters e')
   else parameters e' = parameters e).
Proof.
  unfold put_effect.
  destruct (assigned_properties_fields payload e)
    as (Hid & Hinit & Hstates & Heds & Hpars & Htitle & Hcat).
  pose proof (is_owner_assigned user_id payload e) as Hown.
  set (e1 := assigned_properties payload e) in *.
  assert (Hpars_case : ∀ e2 e',
    parameters e2 = parameters e →
    replaced_parameters (dict_get payload "parameters") e2 = Ok e' →
    exp_id e' = exp_id e2 ∧ init_state_id e' = init_state_id e2 ∧
    state_ids e' = state_ids e2 ∧ exp_title e' = exp_title e2 ∧
    exp_category e' = exp_category e2 ∧ editor_ids e' = editor_ids e2 ∧
    (if truthy (dict_get payload "parameters") then
       ∃ items, py_iter (dict_get payload "parameters") = Ok items ∧
                comprehension parameter_of_item items = Ok (parameters e')
     else parameters e' = parameters e)).
  { intros e2 e3 Hp2. unfold replaced_parameters.
    destruct (truthy (dict_get payload "parameters")).
    - destruct (py_iter (dict_get payload "parameters")) as [items|err];
        [|done].
      simpl. destruct (comprehension _ items) as [ps|err] eqn:Hc; [|done].
      simpl. intros [= <-]. simpl.
      split; [done|]. split; [done|]. split; [done|]. split; [done|].
      split; [done|]. split; [done|]. by exists items.
    - intros [= <-]. done. }
  destruct (replaced_editors _ _ e1) as [e2|err] eqn:Hed; simpl; [|done].
  intros Hpar.
  assert (Hed_case :
    exp_id e2 = exp_id e1 ∧ init_state_id e2 = init_state_id e1 ∧
    state_ids e2 = state_ids e1 ∧ exp_title e2 = exp_title e1 ∧
    exp_category e2 = exp_category e1 ∧ parameters e2 = parameters e1 ∧
    (if truthy (dict_get payload "editors") then
       is_owner user_id e = true ∧
       ∃ emails, py_iter (dict_get payload "editors") = Ok emails ∧
                 editor_ids e2 = foldl add_editor [] emails
     else editor_ids e2 = editor_ids e)).
  { revert Hed. unfold replaced_editors.
    destruct (truthy (dict_get payload "editors")).
    - destruct (is_owner user_id e1) eqn:Ho; [|done].
      destruct (py_iter (dict_get payload "editors")) as [emails|err];
        [|done].
      simpl. intros [= <-]. simpl.
      split; [done|]. split; [done|]. split; [done|]. split; [done|].
      split; [done|]. split; [done|]. split; [congruence|].
      by exists emails.
    - intros [= <-]. done. }
  destruct Hed_case as (H1 & H2 & H3 & H4 & H5 & H6 & H7).
  destruct (Hpars_case e2 e') as (G1 & G2 & G3 & G4 & G5 & G6 & G7);
    [congruence|done|].
  split; [congruence|]. split; [congruence|]. split; [congruence|].
  split; [congruence|]. split; [congruence|]. split; [|done].
  destruct (truthy (dict_get payload "editors")).
  - destruct H7 as (Ho & emails & Hi & He). split; [done|].
    exists emails. split; [done|congruence].
  - congruence.
Qed.

(** X11.  What a successful [ExplorationHandler.put] stores: the entity
    as mutated, with one [put()]; the id, the initial state and the state
    ids as they were; the payload's title and category where they are
    truthy and the old ones otherwise; the editors added one by one from an
    empty list when ['editors'] is truthy (the user then being the owner)
    and the old editors otherwise; one parameter per item when
    ['parameters'] is truthy and the old parameters otherwise. *)
Theorem ExplorationHandler_put_stores user_id payload
    (w : Stored Exploration) :
  let outcome := ExplorationHandler_put user_id payload w in
  let e := entity w in
  let e' := persisted outcome.1 in
  outcome.2 = Ok tt →
  entity outcome.1 = e' ∧ put_calls outcome.1 = S (put_calls w) ∧
  exp_id e' = exp_id e ∧ init_state_id e' = init_state_id e ∧
  state_ids e' = state_ids e ∧
  exp_title e' = (if truthy (dict_get payload "title")
                  then dict_get payload "title" else exp_title e) ∧
  exp_category e' = (if truthy (dict_get payload "category")
                     then dict_get payload "category" else exp_category e) ∧
  (if truthy (dict_get payload "editors") then
     is_owner user_id e = true ∧
     ∃ emails, py_iter (dict_get payload "editors") = Ok emails ∧
               editor_ids e' = foldl add_editor [] emails
   else editor_ids e' = editor_ids e) ∧
  (if truthy (dict_get payload "parameters") then
     ∃ items, py_iter (dict_get payload "parameters") = Ok items ∧
              comprehension parameter_of_item items = Ok (parameters e')
   else parameters e' = parameters e).
Proof.
  pose proof (ExplorationHandler_put_effect user_id payload w) as Heff.
  simpl. intros Hok.
  destruct (put_effect user_id payload (entity w)) as [e'|err] eqn:Hp.
  - rewrite Heff. simpl. split; [done|]. split; [done|].
    by apply put_effect_fields in Hp.
  - destruct Heff as [Hr _]. congruence.
Qed.

End put_facts.

Lemma Exploration_eq (e1 e2 : Exploration) :
  exp_id e1 = exp_id e2 → exp_title e1 = exp_title e2 →
  exp_category e1 = exp_category e2 → is_public e1 = is_public e2 →
  image_id e1 = image_id e2 → editor_ids e1 = editor_ids e2 →
  parameters e1 = parameters e2 → init_state_id e1 = init_state_id e2 →
  state_ids e1 = state_ids e2 → e1 = e2.
Proof. destruct e1, e2; simpl; intros; by subst. Qed.

Section put_sequences_facts.
Context `{EditorDeps}.

Lemma assigned_properties_public_image payload e :
  let e' := assigned_properties payload e in
  is_public e' = truthy (dict_get payload "is_public") || is_public e ∧
  image_id e' = assigned_image_id payload (image_id e).
Proof.
  unfold assigned_properties, assigned_image_id.
  destruct (payload !! "image_id");
    destruct (truthy (dict_get payload "is_public"));
    destruct (truthy (dict_get payload "category"));
    destruct (truthy (dict_get payload "title")); simpl; done.
Qed.

Lemma put_effect_public_image user_id payload e e' :
  put_effect user_id payload e = Ok e' →
  is_public e' = truthy (dict_get payload "is_public") || is_public e ∧
  image_id e' = assigned_image_id payload (image_id e).
Proof.
  unfold put_effect.
  destruct (assigned_properties_public_image payload e) as [Hpub Himg].
  set (e1 := assigned_properties payload e) in *.
  unfold replaced_editors, replaced_parameters.
  destruct (truthy (dict_get payload "editors")).
  - destruct (is_owner user_id e1); [|done].
    destruct (py_iter (dict_get payload "editors")) as [emails|err]; [|done].
    simpl. destruct (truthy (dict_get payload "parameters")).
    + destruct (py_iter (dict_get payload "parameters")) as [items|err];
        [|done].
      simpl. destruct (comprehension _ items) as [ps|err]; [|done].
      simpl. by intros [= <-].
    + by intros [= <-].
  - simpl. destruct (truthy (dict_get payload "parameters")).
    + destruct (py_iter (dict_get payload "parameters")) as [items|err];
        [|done].
      simpl. destruct (comprehension _ items) as [ps|err]; [|done].
      simpl. by intros [= <-].
    + by intros [= <-].
Qed.

(** Replaying a request on what it stored stores the same again, if it
    stores anything. *)
Lemma put_effect_replay user_id payload e e' e'' :
  put_effect user_id payload e = Ok e' →
  put_effect user_id payload e' = Ok e'' →
  e'' = e'.
Proof.
  intros Hp Hp'.
  pose proof Hp as (Hid & Hinit & Hst & Ht & Hc & He & Hpar)%put_effect_fields.
  pose proof Hp' as (Hid' & Hinit' & Hst' & Ht' & Hc' & He' & Hpar')
    %put_effect_fields.
  apply put_effect_public_image in Hp as [Hpub Himg].
  apply put_effect_public_image in Hp' as [Hpub' Himg'].
  apply Exploration_eq; try done.
  - rewrite Ht', Ht. by destruct (truthy (dict_get payload "title")).
  - rewrite Hc', Hc. by destruct (truthy (dict_get payload "category")).
  - rewrite Hpub', Hpub. by destruct (truthy (dict_get payload "is_public")).
  - rewrite Himg', Himg. unfold assigned_image_id.
    by destruct (payload !! "image_id").
  - destruct (truthy (dict_get payload "editors")); [|done].
    destruct He as (_ & emails & Hi & ->).
    destruct He' as (_ & emails' & Hi' & ->). congruence.
  - destruct (truthy (dict_get payload "parameters")); [|done].
    destruct Hpar as (items & Hi & Hps).
    destruct Hpar' as (items' & Hi' & Hps'). congruence.
Qed.

(** X12.  Serving the same put request twice in a row leaves the
    datastore as serving it once does. *)
Theorem serve_put_idempotent db request :
  serve_put (serve_put db request) request = serve_put db request.
Proof.
  rewrite (serve_put_effect db).
  destruct (put_effect request.1 request.2 db) as [e'|err] eqn:Hp.
  - rewrite serve_put_effect.
    destruct (put_effect request.1 request.2 e') as [e''|err] eqn:Hp';
      [|done].
    by eapply put_effect_replay.
  - rewrite serve_put_effect. by rewrite Hp.
Qed.

(** What one put request leaves of the stored exploration. *)
Lemma serve_put_frame db request :
  let db' := serve_put db request in
  exp_id db' = exp_id db ∧ init_state_id db' = init_state_id db ∧
  state_ids db' = state_ids db ∧
  (is_owner request.1 db = false → editor_ids db' = editor_ids db) ∧
  (truthy (exp_title db) = true → truthy (exp_title db') = true) ∧
  (truthy (exp_category db) = true → truthy (exp_category db') = true).
Proof.
  simpl. rewrite serve_put_effect.
  destruct (put_effect request.1 request.2 db) as [e'|err] eqn:Hp; [|done].
  apply put_effect_fields in Hp as (Hid & Hinit & Hst & Ht & Hc & He & _).
  split; [done|]. split; [done|]. split; [done|]. split; [|split].
  - intros Ho. destruct (truthy (dict_get request.2 "editors")); [|done].
    destruct He as [Ho' _]. congruence.
  - intros Htitle. rewrite Ht.
    by destruct (truthy (dict_get request.2 "title")) eqn:Hnew.
  - intros Hcat. rewrite Hc.
    by destruct (truthy (dict_get request.2 "category")) eqn:Hnew.
Qed.

(** X13.  Over any sequence of put requests the exploration keeps its id,
    its initial state and its state ids, and a title or a category that is
    not empty stays not empty. *)
Theorem serve_puts_frame db requests :
  let db' := serve_puts db requests in
  exp_id db' = exp_id db ∧ init_state_id db' = init_state_id db ∧
  state_ids db' = state_ids db ∧
  (truthy (exp_title db) = true → truthy (exp_title db') = true) ∧
  (truthy (exp_category db) = true → truthy (exp_category db') = true).
Proof.
  simpl. unfold serve_puts. revert db.
  induction requests as [|request requests IH]; intros db; simpl; [done|].
  destruct (serve_put_frame db request) as (Hid & Hinit & Hst & _ & Ht & Hc).
  destruct (IH (serve_put db request)) as (Hid' & Hinit' & Hst' & Ht' & Hc').
  split; [congruence|]. split; [congruence|]. split; [congruence|].
  split; auto.
Qed.

(** X14.  When no request of a sequence of put requests comes from the
    owner of the stored exploration, the list of editors is the same after
    the whole sequence. *)
Theorem serve_puts_editors_need_owner db requests :
  (∀ request, request ∈ requests → is_owner request.1 db = false) →
  editor_ids (serve_puts db requests) = editor_ids db.
Proof.
  unfold serve_puts. revert db.
  induction requests as [|request requests IH]; intros db Hno; simpl; [done|].
  destruct (serve_put_frame db request) as (_ & _ & _ & Hed & _).
  assert (Heds : editor_ids (serve_put db request) = editor_ids db).
  { apply Hed, Hno. by left. }
  rewrite IH; [done|].
  intros r Hr. unfold is_owner. rewrite Heds. apply Hno. by right.
Qed.

End put_sequences_facts.

(** ** Further properties of [StateHandler.put] *)

Section state_put_facts.
Context `{EditorDeps}.

Lemma assign_widget_properties_run payload (w : Stored State) :
  assign_widget_properties payload w =
    (mkStored (assigned_widget payload (entity w)) (persisted w) (put_calls w),
     Ok tt).
Proof.
  unfold assign_widget_properties, assigned_widget.
  destruct w as [e p c]. simpl.
  destruct (truthy (interactive_widget payload));
    destruct (is_None (interactive_params payload));
    destruct (is_None (sticky_interactive_widget payload)); done.
Qed.

Lemma widget_id_assigned payload state :
  widget_id (state_widget (assigned_widget payload state)) =
    widget_id_after payload state.
Proof.
  unfold assigned_widget, widget_id_after.
  destruct (truthy (interactive_widget payload));
    destruct (is_None (interactive_params payload));
    destruct (is_None (sticky_interactive_widget payload)); done.
Qed.

Lemma handlers_assigned payload state :
  handlers (state_widget (assigned_widget payload state)) =
    handlers (state_widget state).
Proof.
  unfold assigned_widget.
  destruct (truthy (interactive_widget payload));
    destruct (is_None (interactive_params payload));
    destruct (is_None (sticky_interactive_widget payload)); done.
Qed.

(** The loop appends the rule specs in order to the first handler, or stops
    with the datastore as it was. *)
Lemma process_rules_run generic_widget n rules :
  ∀ i (w : Stored State) handler rest,
    handlers (state_widget (entity w)) = handler :: rest →
    match rule_specs_from generic_widget n i rules with
    | Ok specs =>
        process_rules generic_widget n i rules w =
          (mkStored
             (set_handlers
                (mkHandler (handler_name handler)
                           (rule_specs handler ++ specs) :: rest) (entity w))
             (persisted w) (put_calls w), Ok tt)
    | Raise e =>
        (process_rules generic_widget n i rules w).2 = Raise e ∧
        untouched w (process_rules generic_widget n i rules w).1
    end.
Proof.
  induction rules as [|rule rules IH]; intros i w handler rest Hh; simpl.
  - rewrite app_nil_r. destruct w as [[? ? [? ? ? hs]] p c]. simpl in *.
    subst hs. by destruct handler.
  - pose proof (process_rule_run generic_widget n i rule w) as Hrun.
    destruct (make_rule_spec generic_widget n i rule) as [spec|e] eqn:Hspec;
      simpl.
    + rewrite Py_bind_run, (Hrun handler rest Hh).
      set (w1 := mkStored _ _ _).
      specialize (IH (S i) w1
        (mkHandler (handler_name handler) (rule_specs handler ++ [spec]))
        rest eq_refl).
      destruct (rule_specs_from generic_widget n (S i) rules) as [specs|e];
        simpl in *.
      * rewrite IH. by rewrite <- app_assoc.
      * exact IH.
    + rewrite Py_bind_run, Hrun. done.
Qed.


Lemma rule_specs_from_ok generic_widget n rules :
  ∀ i specs,
    rule_specs_from generic_widget n i rules = Ok specs →
    length specs = length rules ∧
    ∀ k rule, rules !! k = Some rule →
      ∃ spec, specs !! k = Some spec ∧
        make_rule_spec generic_widget n (i + k) rule = Ok spec.
Proof.
  induction rules as [|rule rules IH]; intros i specs; simpl.
  - intros [= <-]. split; [done|]. intros k rule Hk.
    by rewrite lookup_nil in Hk.
  - destruct (make_rule_spec generic_widget n i rule) as [spec|e] eqn:Hspec;
      simpl; [|done].
    destruct (rule_specs_from generic_widget n (S i) rules) as [specs'|e]
      eqn:Hrest; simpl; [|done].
    intros [= <-]. destruct (IH _ _ Hrest) as [Hlen Hall].
    split; [simpl; congruence|].
    intros [|k] r Hk; simpl in Hk.
    + injection Hk as <-. exists spec. by rewrite Nat.add_0_r.
    + destruct (Hall k r Hk) as (s & Hs & Hm). exists s.
      split; [done|]. by rewrite <- Nat.add_succ_comm.
Qed.




(** Lines 235-281 as a function of the rule specs built. *)
Lemma update_rulesets_run rulesets ruleset (w : Stored State) :
  rulesets !! "submit" = Some ruleset →
  let cleaned := recursively_remove_key ruleset "$$hashKey" in
  let generic_widget :=
    get_widget_by_id "interactive" (widget_id (state_widget (entity w))) in
  match built_rule_specs generic_widget cleaned with
  | Ok specs =>
      update_rulesets rulesets w =
        (mkStored (set_handlers [mkHandler "submit" specs] (entity w))
                  (persisted w) (put_calls w), Ok tt)
  | Raise e =>
      (update_rulesets rulesets w).2 = Raise e ∧
      untouched w (update_rulesets rulesets w).1
  end.
Proof.
  intros Hsubmit cleaned generic_widget. unfold update_rulesets.
  rewrite Py_bind_run. unfold lift at 1, dict_item. rewrite Hsubmit.
  rewrite Py_bind_run. unfold update at 1, modify at 1.
  rewrite Py_bind_run. unfold self_entity at 1. simpl.
  set (w1 := mkStored _ _ _).
  pose proof (process_rules_run generic_widget (length cleaned) cleaned 0 w1
                (mkHandler "submit" []) [] eq_refl) as Hrun.
  unfold built_rule_specs. fold cleaned generic_widget.
  destruct (rule_specs_from generic_widget (length cleaned) 0 cleaned)
    as [specs|e]; [|exact Hrun].
  rewrite Hrun. done.
Qed.

Lemma StateHandler_put_run payload rulesets ruleset (w : Stored State) :
  interactive_rulesets payload = Some rulesets →
  rulesets !! "submit" = Some ruleset →
  let cleaned := recursively_remove_key ruleset "$$hashKey" in
  let generic_widget :=
    get_widget_by_id "interactive" (widget_id_after payload (entity w)) in
  match built_rule_specs generic_widget cleaned with
  | Ok specs =>
      let state :=
        set_handlers [mkHandler "submit" specs]
          (assigned_widget payload (entity w)) in
      StateHandler_put payload w =
        (mkStored state state (S (put_calls w)), Ok tt)
  | Raise e =>
      (StateHandler_put payload w).2 = Raise e ∧
      untouched w (StateHandler_put payload w).1
  end.
Proof.
  intros Hrs Hsubmit cleaned generic_widget. unfold StateHandler_put.
  rewrite Py_bind_run, assign_widget_properties_run, Hrs.
  set (w1 := mkStored _ _ _).
  assert (Hne : negb (bool_decide (rulesets = ∅)) = true).
  { apply negb_true_iff, bool_decide_eq_false. intros ->.
    by rewrite lookup_empty in Hsubmit. }
  rewrite Hne. unfold when.
  pose proof (update_rulesets_run rulesets ruleset w1 Hsubmit) as Hrun.
  simpl in Hrun. rewrite widget_id_assigned in Hrun.
  fold cleaned generic_widget in Hrun.
  destruct (built_rule_specs generic_widget cleaned) as [specs|e].
  - rewrite Py_bind_run, Hrun. done.
  - destruct Hrun as [Hr Hunt]. rewrite Py_bind_run.
    destruct (update_rulesets rulesets w1) as [w2 r]. simpl in *.
    subst r. done.
Qed.

(** X15.  When lines 225-281 and 293 of [StateHandler.put] succeed on a
    payload with a ['submit'] ruleset, the handlers of the widget are
    replaced by a single ['submit'] handler, whose rule specs are, in order
    and one per rule, the rule specs built from the cleaned ruleset; the
    rest of the widget is as lines 225-232 assign it, and the state is
    written with one [put()]. *)
Theorem StateHandler_put_stores payload rulesets ruleset (w : Stored State) :
  interactive_rulesets payload = Some rulesets →
  rulesets !! "submit" = Some ruleset →
  let cleaned := recursively_remove_key ruleset "$$hashKey" in
  let generic_widget :=
    get_widget_by_id "interactive" (widget_id_after payload (entity w)) in
  let outcome := StateHandler_put payload w in
  outcome.2 = Ok tt →
  ∃ specs,
    entity outcome.1 =
      set_handlers [mkHandler "submit" specs]
        (assigned_widget payload (entity w)) ∧
    persisted outcome.1 = entity outcome.1 ∧
    put_calls outcome.1 = S (put_calls w) ∧
    length specs = length cleaned ∧
    ∀ k rule, cleaned !! k = Some rule →
      ∃ spec, specs !! k = Some spec ∧
        make_rule_spec generic_widget (length cleaned) k rule = Ok spec.
Proof.
  intros Hrs Hsubmit cleaned generic_widget outcome Hok.
  pose proof (StateHandler_put_run payload rulesets ruleset w Hrs Hsubmit)
    as Hrun.
  fold cleaned generic_widget in Hrun. cbv zeta in Hrun.
  destruct (built_rule_specs generic_widget cleaned) as [specs|e] eqn:Hb.
  - exists specs. subst outcome. rewrite Hrun. simpl.
    apply rule_specs_from_ok in Hb as [Hlen Hall]. done.
  - destruct Hrun as [Hr _]. subst outcome. congruence.
Qed.

Lemma StateHandler_put_no_rulesets_run payload (w : Stored State) :
  no_rulesets payload →
  StateHandler_put payload w =
    (mkStored (assigned_widget payload (entity w))
              (assigned_widget payload (entity w))
              (S (put_calls w)), Ok tt).
Proof.
  intros Hno. unfold StateHandler_put.
  rewrite Py_bind_run, assign_widget_properties_run.
  by destruct Hno as [-> | ->].
Qed.

(** X16.  With ['interactive_rulesets'] absent, null or empty, lines
    225-281 and 293 of [StateHandler.put] do not fail: they assign the
    widget's id, parameters and stickiness, leave the handlers as they
    were, and write the state with one [put()]. *)
Theorem StateHandler_put_without_rulesets payload (w : Stored State) :
  no_rulesets payload →
  let outcome := StateHandler_put payload w in
  outcome.2 = Ok tt ∧
  entity outcome.1 = assigned_widget payload (entity w) ∧
  handlers (state_widget (entity outcome.1)) =
    handlers (state_widget (entity w)) ∧
  persisted outcome.1 = entity outcome.1 ∧
  put_calls outcome.1 = S (put_calls w).
Proof.
  intros Hno. simpl. rewrite (StateHandler_put_no_rulesets_run _ _ Hno).
  simpl. by rewrite handlers_assigned.
Qed.

Lemma StateHandler_put_no_submit_run payload rulesets (w : Stored State) :
  interactive_rulesets payload = Some rulesets →
  rulesets ≠ ∅ →
  rulesets !! "submit" = None →
  StateHandler_put payload w =
    (mkStored (assigned_widget payload (entity w)) (persisted w) (put_calls w),
     Raise (KeyError "submit")).
Proof.
  intros Hrs Hne Hsubmit. unfold StateHandler_put.
  rewrite Py_bind_run, assign_widget_properties_run, Hrs.
  assert (Hc : negb (bool_decide (rulesets = ∅)) = true).
  { by apply negb_true_iff, bool_decide_eq_false. }
  rewrite Hc. unfold when, update_rulesets.
  rewrite Py_bind_run, Py_bind_run. unfold lift at 1, dict_item.
  rewrite Hsubmit. done.
Qed.

(** X17.  With an ['interactive_rulesets'] that is not empty and has no
    ['submit'] key, line 235 of [StateHandler.put] raises
    [KeyError('submit')], and the [put()] of line 293 is not reached. *)
Theorem StateHandler_put_without_submit payload rulesets (w : Stored State) :
  interactive_rulesets payload = Some rulesets →
  rulesets ≠ ∅ →
  rulesets !! "submit" = None →
  let outcome := StateHandler_put payload w in
  outcome.2 = Raise (KeyError "submit") ∧ untouched w outcome.1.
Proof.
  intros Hrs Hne Hsubmit. simpl.
  by rewrite (StateHandler_put_no_submit_run _ _ _ Hrs Hne Hsubmit).
Qed.


(** X19.  A rule that is not described as the default rule and whose
    inputs are all strings with both ['{{'] and ['}}'] is stored with its
    inputs as they are, whatever the widget and the parameter types:
    [normalize] is not applied and no [InvalidInputException] is raised. *)
Theorem templated_rule_stored_verbatim generic_widget n i rule :
  not_default_described rule →
  templated rule →
  make_rule_spec generic_widget n i rule =
    Ok (mkRuleSpec (default PNone (rule_name rule)) (rule_inputs rule)
                   (rule_dest rule) (rule_feedback rule)).
Proof.
  intros Hnd (inputs & Hin & Hall).
  rewrite (make_rule_spec_other _ _ _ _ _ Hnd Hin). rewrite Hin.
  set (matched_rule := get_rule_by_name _ _ _).
  assert (Hval : ∀ param_name value, inputs !! param_name = Some value →
            normalized_value matched_rule param_name value = value).
  { intros p v Hv. unfold normalized_value. by rewrite (Hall _ _ Hv). }
  destruct (normalize_inputs_returns matched_rule inputs) as [inputs' Hn].
  { intros p v Hv. rewrite (Hval _ _ Hv).
    specialize (Hall _ _ Hv). by destruct v. }
  rewrite Hn. simpl. do 3 f_equal. apply map_eq. intros p.
  rewrite (normalize_inputs_ok _ _ _ Hn p).
  destruct (inputs !! p) as [v|] eqn:Hv; simpl; [|done].
  by rewrite (Hval _ _ Hv).
Qed.

End state_put_facts.

Lemma prefix_occurs sub s :
  String.prefix sub s = true ↔ ∃ after, s = sub +:+ after.
Proof.
  revert s. induction sub as [|c sub IH]; intros s.
  - split; [intros _; by exists s|]. intros _. by destruct s.
  - destruct s as [|c' s].
    + split; [done|]. by intros [after Ha].
    + change (String.prefix (String c sub) (String c' s))
        with (if Ascii.ascii_dec c c' then String.prefix sub s else false).
      change (String c sub +:+ ?a) with (String c (sub +:+ a)).
      destruct (Ascii.ascii_dec c c') as [->|Hne].
      * rewrite IH. split; intros [after Ha]; exists after.
        -- by rewrite Ha.
        -- change (String c' sub +:+ after) with (String c' (sub +:+ after))
             in Ha. congruence.
      * split; [done|]. intros [after Ha].
        change (String c sub +:+ after) with (String c (sub +:+ after)) in Ha.
        congruence.
Qed.

Lemma str_contains_occurs sub s :
  str_contains sub s = true ↔ occurs_in sub s.
Proof.
  unfold occurs_in. induction s as [|c s IH].
  - change (str_contains sub EmptyString)
      with (String.prefix sub EmptyString || false).
    rewrite orb_false_r, prefix_occurs. split.
    + intros [after Ha]. by exists EmptyString, after.
    + intros (before & after & Ha). destruct before as [|c before]; [|done].
      by exists after.
  - change (str_contains sub (String c s))
      with (String.prefix sub (String c s) || str_contains sub s).
    rewrite orb_true_iff, prefix_occurs, IH. split.
    + intros [[after Ha]|(before & after & Ha)].
      * by exists EmptyString, after.
      * exists (String c before), after.
        change (String c before +:+ ?a) with (String c (before +:+ a)).
        by rewrite Ha.
    + intros (before & after & Ha). destruct before as [|c' before].
      * left. by exists after.
      * right. exists before, after.
        change (String c' before +:+ ?a) with (String c' (before +:+ a)) in Ha.
        congruence.
Qed.

(** X20.  The test of lines 268-269 treats a value as a template exactly
    when it is a string in which ['{{'] occurs and ['}}'] occurs, in any
    order and at any position. *)
Theorem is_template_spec value :
  is_template value = true ↔
  ∃ s, value = PStr s ∧ occurs_in "{{" s ∧ occurs_in "}}" s.
Proof.
  unfold is_template. split.
  - destruct value as [| | |s| |]; try done.
    rewrite andb_true_iff, !str_contains_occurs. intros [? ?]. by exists s.
  - intros (s & -> & H1 & H2).
    by rewrite andb_true_iff, !str_contains_occurs.
Qed.

(** ** [ExplorationHandler.get] and [ExplorationDownloadHandler.get] *)

Lemma parameter_dict_lookup param :
  parameter_dict param !! "name" = Some (param_name param) ∧
  parameter_dict param !! "obj_type" = Some (param_obj_type param) ∧
  parameter_dict param !! "description" = Some (param_description param) ∧
  parameter_dict param !! "values" = Some (param_values param).
Proof. unfold parameter_dict. repeat split; by simplify_map_eq. Qed.

Section reads_facts.
Context `{StatsDomain} `{ExpServices} `{EditorDeps}.

Lemma parameter_of_item_dict param :
  parameter_of_item (PDict (parameter_dict param)) = Ok param.
Proof.
  destruct (parameter_dict_lookup param) as (Hn & Ho & Hd & Hv).
  unfold parameter_of_item, py_getitem, dict_item.
  rewrite Hn, Ho, Hd, Hv. simpl. by destruct param.
Qed.

Lemma comprehension_parameter_dict (params : list ExplorationParameter) :
  comprehension parameter_of_item (PDict <$> (parameter_dict <$> params))
    = Ok params.
Proof.
  induction params as [|param params IH]; [done|].
  rewrite !fmap_cons. cbn [comprehension].
  by rewrite parameter_of_item_dict, IH.
Qed.

Lemma ExplorationHandler_get_fields exploration data :
  ExplorationHandler_get exploration = Ok data →
  Values.exploration_id data = exp_id exploration ∧
  Values.init_state_id data = init_state_id exploration ∧
  Values.is_public data = is_public exploration ∧
  Values.image_id data = image_id exploration ∧
  Values.category data = exp_category exploration ∧
  Values.title data = exp_title exploration ∧
  Values.editors data = editor_ids exploration ∧
  Values.states data = state_list_of exploration ∧
  Values.parameters data = parameter_dict <$> parameters exploration ∧
  export_exploration_stats_to_dict (exp_id exploration) =
    Ok (mkExplorationStats (Values.num_visits data)
          (Values.num_completions data) (Values.state_stats data)) ∧
  get_top_improvable_states [exp_id exploration] 10 = Ok (Values.imp data).
Proof.
  unfold ExplorationHandler_get.
  destruct (export_exploration_stats_to_dict _) as [[? ? ?]|e]; simpl; [|done].
  destruct (get_top_improvable_states _ 10) as [imp|e]; simpl; [|done].
  by intros [= <-].
Qed.

Lemma put_payload_effect user_id exploration (data : @Values.t VerboseState) :
  Values.is_public data = is_public exploration →
  Values.category data = exp_category exploration →
  Values.title data = exp_title exploration →
  Values.parameters data = parameter_dict <$> parameters exploration →
  put_effect user_id (put_payload data) exploration = Ok exploration.
Proof.
  intros Hpub Hcat Htitle Hpar.
  assert (Hl : put_payload data !! "is_public" = Some (PBool (is_public exploration))
            ∧ put_payload data !! "category" = Some (exp_category exploration)
            ∧ put_payload data !! "title" = Some (exp_title exploration)
            ∧ put_payload data !! "image_id" = None
            ∧ put_payload data !! "editors" = None
            ∧ put_payload data !! "parameters" =
                Some (PList (PDict <$> (parameter_dict <$> parameters exploration)))).
  { unfold put_payload. rewrite Hpub, Hcat, Htitle, Hpar.
    repeat split; by simplify_map_eq. }
  destruct Hl as (Hp & Hc & Ht & Hi & He & Hps).
  assert (Ha : assigned_properties (put_payload data) exploration = exploration).
  { unfold assigned_properties, dict_get. rewrite Hp, Hc, Ht, Hi. simpl.
    destruct exploration as [i title category pub img eds ps ini sts]; simpl.
    destruct pub; destruct (truthy category); destruct (truthy title);
      done. }
  unfold put_effect. rewrite Ha.
  unfold replaced_editors, replaced_parameters, dict_get.
  rewrite He, Hps. simpl.
  rewrite comprehension_parameter_dict.
  destruct exploration as [? ? ? ? ? ? params ? ?]; simpl.
  by destruct params.
Qed.


(** X21.  Round trip of [ExplorationHandler.get] and
    [ExplorationHandler.put]: a put request of any user that sends back
    ['is_public'], ['category'], ['title'] and ['parameters'] as the get
    request returned them succeeds, with one [put()], and stores the
    exploration unchanged. *)
Theorem ExplorationHandler_get_then_put exploration data user_id :
  ExplorationHandler_get exploration = Ok data →
  ExplorationHandler_put user_id (put_payload data) (load exploration) =
    (mkStored exploration exploration 1, Ok tt) ∧
  serve_put exploration (user_id, put_payload data) = exploration.
Proof.
  intros (_ & _ & Hpub & _ & Hcat & Htitle & _ & _ & Hpar & _)
    %ExplorationHandler_get_fields.
  pose proof (put_payload_effect user_id exploration data Hpub Hcat Htitle
                Hpar) as Heff.
  split.
  - pose proof (ExplorationHandler_put_effect user_id (put_payload data)
                  (load exploration)) as Hrun.
    simpl in Hrun. by rewrite Heff in Hrun.
  - rewrite serve_put_effect. simpl. by rewrite Heff.
Qed.

Lemma state_list_of_lookup exploration sid :
  state_list_of exploration !! sid =
    if bool_decide (sid ∈ state_ids exploration)
    then Some (export_state_to_verbose_dict (exp_id exploration) sid)
    else None.
Proof.
  unfold state_list_of. case_bool_decide as Hin.
  - apply (foldl_insert_hit (λ sid, sid)
             (export_state_to_verbose_dict (exp_id exploration))).
    + by intros x _ ->.
    + right. by exists sid.
  - rewrite (foldl_insert_miss (λ sid, sid)
               (export_state_to_verbose_dict (exp_id exploration))).
    + apply lookup_empty.
    + intros x Hx ->. done.
Qed.

(** X22.  The data [ExplorationHandler.get] returns: ['states'] has
    exactly the exploration's state ids as keys, each with the verbose dict
    of that state; ['imp'] has at most 10 entries, each of them for this
    exploration, for a state id the stored exploration lists, and with a
    rank that is not zero. *)
Theorem ExplorationHandler_get_report exploration data :
  ExplorationHandler_get exploration = Ok data →
  (∀ sid, Values.states data !! sid =
     if bool_decide (sid ∈ state_ids exploration)
     then Some (export_state_to_verbose_dict (exp_id exploration) sid)
     else None) ∧
  length (Values.imp data) ≤ 10 ∧
  ∀ entry, entry ∈ Values.imp data →
    r_exp_id entry = exp_id exploration ∧
    r_state_id entry ∈ state_ids (Exploration_get (exp_id exploration)) ∧
    rank entry ≠ 0%Z.
Proof.
  intros (_ & _ & _ & _ & _ & _ & _ & Hstates & _ & _ & Himp)
    %ExplorationHandler_get_fields.
  split; [intros sid; rewrite Hstates; apply state_list_of_lookup|].
  apply get_top_improvable_states_result in Himp as (ranked & Hranked & Hl).
  split; [rewrite Hl, length_take; lia|].
  intros entry Hin. rewrite Hl in Hin.
  apply elem_of_problem_states in Hin as [Hin Hrank].
  apply (rank_states_elem _ _ _ Hranked) in Hin
    as (exploration_id & sid & [Hid Hsid] & Hstate).
  apply list_elem_of_singleton in Hid. subst exploration_id.
  apply rank_state_fields in Hstate as (_ & _ & Heid & Hesid & _).
  rewrite Heid, Hesid. done.
Qed.

(** X23.  [ExplorationDownloadHandler.get] does not fail by itself; it sets
    [Content-Type] to [text/plain] and [Content-Disposition] to
    [attachment; filename=oppia-<title in ASCII>.txt], the file name of line
    186 never being replaced by [feconf.DEFAULT_FILE_NAME]; it leaves the
    other headers alone and appends the YAML export to the response. *)
Theorem ExplorationDownloadHandler_get_response exploration response :
  let outcome := ExplorationDownloadHandler_get exploration response in
  outcome.2 = Ok tt ∧
  headers outcome.1 !! "Content-Type" = Some "text/plain" ∧
  headers outcome.1 !! "Content-Disposition" =
    Some ("attachment; filename=oppia-" +:+ to_ascii (exp_title exploration)
          +:+ ".txt") ∧
  (∀ key, key ≠ "Content-Type" → key ≠ "Content-Disposition" →
     headers outcome.1 !! key = headers response !! key) ∧
  body outcome.1 = body response +:+ export_to_yaml (exp_id exploration).
Proof.
  unfold ExplorationDownloadHandler_get. cbv zeta.
  assert (Hname : String.eqb ("oppia-" +:+ to_ascii (exp_title exploration))
                    EmptyString = false) by reflexivity.
  rewrite Hname.
  unfold mbind, Py_bind, modify, set_header, write. simpl.
  split; [done|]. split; [by simplify_map_eq|]. split; [by simplify_map_eq|].
  split; [|done]. intros key Hk1 Hk2. by simplify_map_eq.
Qed.

End reads_facts.

(** ** The properties on the sample data *)

Lemma get_top_improvable_states_top_n_witness :
  ∃ l, get_top_improvable_states (H := sample_stats) ["exp"] 1 = Ok l ∧
       length l ≤ 1 ∧ Forall (λ e, rank e ≠ 0%Z) l ∧
       StronglySorted (desc rank) l.
Proof.
  destruct (get_top_improvable_states_top_n (H := sample_stats) ["exp"] 1)
    as [Hprops Hreturns].
  destruct Hreturns as [l Hl].
  - intros exploration_id sid _ _. unfold has_first_handler. simpl. discriminate.
  - exists l. split; [exact Hl|]. exact (Hprops l Hl).
Defined.

Lemma zero_entry_state_is_not_flagged :
  ¬ flagged_by_threshold_only (H := sample_stats)
      "exp" (Exploration_get (StatsDomain := sample_stats) "exp") "s0".
Proof.
  intros [[_ Hflag] _].
  destruct Hflag as (flags & flag & Hflags & _).
  - split; [vm_compute; reflexivity|].
    eexists _, _. split; [reflexivity|]. vm_compute. reflexivity.
  - vm_compute in Hflags. discriminate.
Qed.

Lemma improvable_flags_by_threshold_witness :
  flagged_by_threshold_only (H := sample_stats)
    "exp" (Exploration_get (StatsDomain := sample_stats) "exp") "s3".
Proof.
  apply (proj1 (improvable_flags_by_threshold (H := sample_stats))).
  - vm_compute. discriminate.
  - unfold has_first_handler. simpl. discriminate.
Defined.

Lemma top_flag_of_doubly_flagged_state_witness :
  let e := mkRankedState "exp" (PStr "Counting") "s1" "State s1" 3
             IMPROVE_TYPE_DEFAULT [("yes", 2%Z); ("no", 1%Z)] in
  rank_state (H := sample_stats) "exp"
    (Exploration_get (StatsDomain := sample_stats) "exp") "s1" = Ok (Some e) ∧
  rank e = 3%Z ∧ r_type e = IMPROVE_TYPE_DEFAULT.
Proof.
  intros e.
  assert (Hrun : rank_state (H := sample_stats) "exp"
            (Exploration_get (StatsDomain := sample_stats) "exp") "s1"
          = Ok (Some e)) by (vm_compute; reflexivity).
  split; [exact Hrun|].
  destruct (top_flag_of_doubly_flagged_state (H := sample_stats) _ _ _ _ Hrun)
    as (Hrank & Hequal & _).
  - split; [vm_compute; reflexivity|].
    eexists _, _. split; [reflexivity|]. vm_compute. reflexivity.
  - vm_compute. reflexivity.
  - split; [exact Hrank|]. apply Hequal. vm_compute. reflexivity.
Defined.

Lemma export_exploration_stats_to_dict_spec_witness :
  ∃ stats,
    export_exploration_stats_to_dict (H := sample_stats) "exp" = Ok stats ∧
    num_visits stats = 8%Z ∧ num_completions stats = 7%Z ∧
    ∃ entry, state_stats stats !! "s3" = Some entry ∧
      ss_name entry = "State s3" ∧ ss_count entry = 10%Z.
Proof.
  destruct (export_exploration_stats_to_dict_spec (H := sample_stats) "exp")
    as (stats & Hrun & Hvisits & Hcompletions & _ & Hstates).
  - intros sid _. reflexivity.
  - exists stats. split; [exact Hrun|]. split; [exact Hvisits|].
    split; [exact Hcompletions|].
    destruct (Hstates "s3") as (entry & Hentry & Hname & Hcount).
    { simpl. do 3 apply list_elem_of_further. apply list_elem_of_here. }
    exists entry. split; [exact Hentry|]. split; [exact Hname|exact Hcount].
Defined.

Lemma missing_title_is_reported_first :
  ¬ post_validates_as_stated (H := sample_editor) "alice" ∅ EmptyString 0.
Proof.
  intros (_ & Hcategory & _).
  specialize (Hcategory eq_refl). vm_compute in Hcategory. discriminate.
Qed.

Lemma NewExploration_post_validates_witness :
  NewExploration_post (H := sample_editor) "alice"
    {[ "title" := PStr "Counting" ]} EmptyString 0 = (0, Raise no_category) ∧
  NewExploration_post (H := sample_editor) "alice"
    {[ "title" := PStr "Counting"; "category" := PStr "Maths" ]} EmptyString 0
  = (1, Ok {[ "explorationId" := PStr "new-exploration" ]}).
Proof.
  split.
  - destruct (NewExploration_post_validates (H := sample_editor) "alice"
                {[ "title" := PStr "Counting" ]} EmptyString 0)
      as (_ & Hcategory & _).
    apply Hcategory.
    + vm_compute. reflexivity.
    + left. vm_compute. reflexivity.
  - destruct (NewExploration_post_validates (H := sample_editor) "alice"
                {[ "title" := PStr "Counting"; "category" := PStr "Maths" ]}
                EmptyString 0)
      as (_ & _ & _ & _ & Hcreate & _).
    apply Hcreate.
    + vm_compute. reflexivity.
    + vm_compute. reflexivity.
Defined.

Lemma ExplorationHandler_put_editors_owner_only_witness :
  let outcome :=
    ExplorationHandler_put (H := sample_editor) "helper"
      {[ "editors" := PList [PStr "eve@example.com"] ]}
      (load sample_exploration) in
  outcome.2 = Raise unauthorized ∧
  persisted outcome.1 = sample_exploration ∧ put_calls outcome.1 = 0.
Proof.
  apply (ExplorationHandler_put_editors_owner_only (H := sample_editor)
           "helper" {[ "editors" := PList [PStr "eve@example.com"] ]}
           (load sample_exploration)).
  - vm_compute. reflexivity.
  - vm_compute. reflexivity.
Defined.

Lemma ExplorationHandler_put_never_unpublishes_witness :
  is_public
    (serve_puts (H := sample_editor) sample_exploration
       [("owner", {[ "is_public" := PBool false ]});
        ("helper", {[ "title" := PStr "Counting to ten" ]})]) = true.
Proof.
  apply (proj2 (ExplorationHandler_put_never_unpublishes (H := sample_editor))).
  reflexivity.
Defined.

Lemma ExplorationHandler_put_image_id_witness :
  let outcome :=
    ExplorationHandler_put (H := sample_editor) "owner"
      {[ "title" := PStr "Counting to ten" ]} (load sample_exploration) in
  image_id (persisted outcome.1) = PStr "img-1".
Proof.
  apply (ExplorationHandler_put_image_id (H := sample_editor) "owner"
           {[ "title" := PStr "Counting to ten" ]} (load sample_exploration)).
  - vm_compute. reflexivity.
  - reflexivity.
Defined.

Lemma default_rule_check_is_preempted :
  ¬ default_rule_check_as_stated (H := sample_editor)
      (sample_update [equals_rule (PStr "three"); default_rule; default_rule])
      (load (sample_state "s1")).
Proof.
  intros Hcheck.
  specialize (Hcheck _ _ eq_refl (lookup_singleton_eq _ _)).
  simpl in Hcheck.
  assert (Hraise : (StateHandler_put (H := sample_editor)
             (sample_update
                [equals_rule (PStr "three"); default_rule; default_rule])
             (load (sample_state "s1"))).2 = Raise invalid_ruleset).
  { apply Hcheck. exists 1, default_rule. split; [vm_compute; reflexivity|].
    split.
    - eexists. split; [reflexivity|]. reflexivity.
    - intros [Hlast _]. vm_compute in Hlast. discriminate. }
  vm_compute in Hraise. discriminate.
Qed.

Lemma default_rule_must_be_last_witness :
  let outcome :=
    StateHandler_put (H := sample_editor)
      (sample_update [equals_rule (PInt 3); default_rule; default_rule])
      (load (sample_state "s1")) in
  outcome.2 = Raise invalid_ruleset ∧
  untouched (load (sample_state "s1")) outcome.1.
Proof.
  apply (proj1 (default_rule_must_be_last (H := sample_editor)
           (sample_update [equals_rule (PInt 3); default_rule; default_rule])
           _ _ (load (sample_state "s1")) eq_refl (lookup_singleton_eq _ _))
           1 default_rule).
  - vm_compute. reflexivity.
  - eexists. split; reflexivity.
  - intros [|j] rule Hj Hrule; [|lia].
    vm_compute in Hrule. injection Hrule as <-.
    eexists. vm_compute. reflexivity.
  - left. vm_compute. discriminate.
Defined.

Lemma rule_inputs_normalized_witness :
  ∃ e,
    (StateHandler_put (H := sample_editor)
       (sample_update [equals_rule (PStr "three"); default_rule])
       (load (sample_state "s1"))).2 = Raise e ∧
    ∃ msg, e = InvalidInputException msg.
Proof.
  destruct (proj2 (proj2 (rule_inputs_normalized (H := sample_editor)))
              (sample_update [equals_rule (PStr "three"); default_rule])
              _ _ (load (sample_state "s1")) 0 (equals_rule (PStr "three"))
              {[ "x" := PStr "three" ]} eq_refl (lookup_singleton_eq _ _))
    as (e & Hraise & _ & Hmsg).
  - vm_compute. reflexivity.
  - eexists. split; reflexivity.
  - vm_compute. reflexivity.
  - exists "x", (PStr "three"). split; vm_compute; reflexivity.
  - exists e. split; [exact Hraise|]. apply Hmsg.
    intros j rule Hj. lia.
Defined.

Lemma get_top_improvable_states_prefix_witness :
  get_top_improvable_states (H := sample_stats) ["exp"] 1
    = Ok (take 1 [sample_entry_s3; sample_entry_s1]).
Proof.
  apply (get_top_improvable_states_prefix (H := sample_stats) ["exp"] 1 4).
  - lia.
  - vm_compute. reflexivity.
Defined.

Lemma get_top_improvable_states_provenance_witness :
  visited (H := sample_stats) ["exp"] "exp" "s1" ∧
  r_type sample_entry_s1 = IMPROVE_TYPE_DEFAULT ∧
  rank sample_entry_s1 =
    default_count_of (H := sample_stats)
      (Exploration_get (StatsDomain := sample_stats) "exp") "s1".
Proof.
  destruct (get_top_improvable_states_provenance (H := sample_stats) ["exp"] 4
              [sample_entry_s3; sample_entry_s1] sample_entry_s1)
    as (Hvisited & _ & _ & Htype).
  - vm_compute. reflexivity.
  - apply list_elem_of_further, list_elem_of_here.
  - split; [exact Hvisited|].
    destruct Htype as [Hdefault|[Hincomplete _]].
    + exact Hdefault.
    + vm_compute in Hincomplete. discriminate.
Defined.

Lemma get_top_improvable_states_complete_witness :
  sample_entry_s1 ∈ [sample_entry_s3; sample_entry_s1].
Proof.
  apply (get_top_improvable_states_complete (H := sample_stats) ["exp"] 4
           [sample_entry_s3; sample_entry_s1]) with (exploration_id := "exp")
          (sid := "s1").
  - vm_compute. reflexivity.
  - simpl. lia.
  - split.
    + apply list_elem_of_here.
    + simpl. apply list_elem_of_further, list_elem_of_here.
  - vm_compute. reflexivity.
  - vm_compute. discriminate.
Defined.

Lemma get_top_improvable_states_stable_witness :
  ∃ ranked_states,
    rank_states (H := sample_stats) ["exp"; "exp"] = Ok ranked_states ∧
    filter (λ e, rank e = 3%Z)
      [sample_entry_s3; sample_entry_s3; sample_entry_s1]
    `prefix_of` filter (λ e, rank e = 3%Z) ranked_states.
Proof.
  eexists. split; [vm_compute; reflexivity|].
  apply (get_top_improvable_states_stable (H := sample_stats) ["exp"; "exp"] 3).
  - vm_compute. reflexivity.
  - vm_compute. reflexivity.
Defined.

Lemma export_stats_chart_rows_witness :
  ∃ stats entry,
    export_exploration_stats_to_dict (H := sample_stats) "exp" = Ok stats ∧
    state_stats stats !! "s3" = Some entry ∧
    ((no_answer_chartdata entry).1 + (no_answer_chartdata entry).2)%Z
      = ss_count entry.
Proof.
  eexists _, _. split; [vm_compute; reflexivity|].
  split; [vm_compute; reflexivity|].
  eapply (export_stats_chart_rows (H := sample_stats) "exp" _ "s3").
  - vm_compute. reflexivity.
  - vm_compute. reflexivity.
Defined.

Lemma export_stats_rule_answers_witness :
  ∃ stats entry,
    export_exploration_stats_to_dict (H := sample_stats) "exp" = Ok stats ∧
    state_stats stats !! "s3" = Some entry ∧
    rule_answers <$> rule_stats entry !! "Default"
      = Some [("7", 3%Z); ("8", 2%Z)].
Proof.
  eexists _, _. split; [vm_compute; reflexivity|].
  split; [vm_compute; reflexivity|].
  erewrite (export_stats_rule_answers (H := sample_stats) "exp" _ "s3").
  - vm_compute. reflexivity.
  - intros sid _. reflexivity.
  - vm_compute. reflexivity.
  - simpl. do 3 apply list_elem_of_further. apply list_elem_of_here.
  - vm_compute. reflexivity.
Defined.

Lemma export_stats_key_error_witness :
  ∃ key,
    export_exploration_stats_to_dict (H := stale_stats) "exp"
      = Raise (KeyError key) ∧
    key ∉ state_ids (Exploration_get (StatsDomain := stale_stats) "exp").
Proof.
  apply (export_stats_key_error (H := stale_stats) "exp" "s0").
  - simpl. apply list_elem_of_here.
  - simpl. intros Hin.
    repeat (apply elem_of_cons in Hin as [Hin|Hin]; [discriminate|]).
    by apply elem_of_nil in Hin.
Defined.

Lemma ExplorationHandler_put_stores_witness :
  let outcome :=
    ExplorationHandler_put (H := sample_editor) "helper"
      {[ "title" := PStr "Counting to ten" ]} (load sample_exploration) in
  exp_title (persisted outcome.1) = PStr "Counting to ten" ∧
  editor_ids (persisted outcome.1) = ["owner"; "helper"].
Proof.
  destruct (ExplorationHandler_put_stores (H := sample_editor) "helper"
              {[ "title" := PStr "Counting to ten" ]} (load sample_exploration))
    as (_ & _ & _ & _ & _ & Htitle & _ & Heditors & _).
  - vm_compute. reflexivity.
  - split; [exact Htitle|exact Heditors].
Defined.

Lemma serve_puts_editors_need_owner_witness :
  editor_ids
    (serve_puts (H := sample_editor) sample_exploration
       [("helper", {[ "editors" := PList [PStr "eve@example.com"] ]});
        ("eve", {[ "title" := PStr "Counting to ten" ]})])
  = ["owner"; "helper"].
Proof.
  apply (serve_puts_editors_need_owner (H := sample_editor)).
  intros request Hin.
  apply elem_of_cons in Hin as [->|Hin]; [reflexivity|].
  apply elem_of_cons in Hin as [->|Hin]; [reflexivity|].
  by apply elem_of_nil in Hin.
Defined.

Lemma StateHandler_put_stores_witness :
  let outcome :=
    StateHandler_put (H := sample_editor)
      (sample_update [equals_rule (PInt 3); default_rule])
      (load (sample_state "s1")) in
  ∃ specs,
    handlers (state_widget (persisted outcome.1)) = [mkHandler "submit" specs] ∧
    length specs = 2.
Proof.
  destruct (StateHandler_put_stores (H := sample_editor)
              (sample_update [equals_rule (PInt 3); default_rule])
              _ _ (load (sample_state "s1")) eq_refl (lookup_singleton_eq _ _))
    as (specs & Hentity & Hpersisted & _ & Hlen & _).
  - vm_compute. reflexivity.
  - exists specs. split; [|exact Hlen].
    simpl. rewrite Hpersisted, Hentity. reflexivity.
Defined.

Lemma StateHandler_put_without_rulesets_witness :
  let w := load (sample_state "s1") in
  let outcome :=
    StateHandler_put (H := sample_editor)
      (mkStateUpdate (PStr "TextInput") PNone PNone (Some ∅)) w in
  outcome.2 = Ok tt ∧
  handlers (state_widget (entity outcome.1)) =
    handlers (state_widget (entity w)).
Proof.
  destruct (StateHandler_put_without_rulesets (H := sample_editor)
              (mkStateUpdate (PStr "TextInput") PNone PNone (Some ∅))
              (load (sample_state "s1")))
    as (Hok & _ & Hhandlers & _).
  - right. reflexivity.
  - split; [exact Hok|exact Hhandlers].
Defined.

Lemma StateHandler_put_without_submit_witness :
  let w := load (sample_state "s1") in
  let outcome :=
    StateHandler_put (H := sample_editor)
      (mkStateUpdate PNone PNone PNone (Some {[ "click" := [default_rule] ]}))
      w in
  outcome.2 = Raise (KeyError "submit") ∧ untouched w outcome.1.
Proof.
  apply (StateHandler_put_without_submit (H := sample_editor)
           (mkStateUpdate PNone PNone PNone
              (Some {[ "click" := [default_rule] ]}))
           {[ "click" := [default_rule] ]}).
  - reflexivity.
  - apply insert_non_empty.
  - vm_compute. reflexivity.
Defined.


Lemma templated_rule_stored_verbatim_witness :
  make_rule_spec (H := sample_editor) tt 2 0 template_rule =
    Ok (mkRuleSpec (PStr "Equals") (Some {[ "x" := PStr "{{answer}}" ]})
          (PStr "s2") (PList [])).
Proof.
  apply (templated_rule_stored_verbatim (H := sample_editor) tt 2 0
           template_rule).
  - eexists. split; reflexivity.
  - eexists. split; [reflexivity|].
    intros param_name value Hvalue.
    apply lookup_singleton_Some in Hvalue as [_ <-]. reflexivity.
Defined.

Lemma ExplorationHandler_get_then_put_witness :
  ∃ data,
    ExplorationHandler_get (H := sample_stats) (H0 := sample_services)
      sample_exploration = Ok data ∧
    serve_put (H := sample_editor) sample_exploration
      ("helper", put_payload data) = sample_exploration.
Proof.
  eexists. split; [vm_compute; reflexivity|].
  apply (ExplorationHandler_get_then_put (H := sample_stats)
           (H0 := sample_services) (H1 := sample_editor)).
  vm_compute. reflexivity.
Defined.

Lemma ExplorationHandler_get_report_witness :
  ∃ data,
    ExplorationHandler_get (H := sample_stats) (H0 := sample_services)
      sample_exploration = Ok data ∧
    length (Values.imp data) ≤ 10 ∧
    Values.states data !! "s2" = Some "exp/s2".
Proof.
  eexists. split; [vm_compute; reflexivity|].
  destruct (ExplorationHandler_get_report (H := sample_stats)
              (H0 := sample_services) sample_exploration _
              ltac:(vm_compute; reflexivity))
    as (Hstates & Hlen & _).
  split; [exact Hlen|]. rewrite Hstates. vm_compute. reflexivity.
Defined.
